(** * The lobby actor of the word game (package [game], file lobby.go)

    A shallow embedding of the lobby's state, of its event handlers and of
    the turn and elimination algorithm, followed by the properties of the
    session engine that the specification states about them.  The registry
    of lobbies that package [main] keeps is embedded in a module of its
    own, [Main]. *)

From Stdlib Require Import ZArith String Ascii Lia Sorting.Sorted.
From stdpp Require Import base option list gmap.

Local Open Scope Z_scope.

(** ** Machine integers *)

(** Go's [int] is a signed 64-bit integer on the platforms the server runs
    on; [+], [-] and [++] wrap around silently. *)
Definition max_int : Z := 2 ^ 63 - 1.
Definition min_int : Z := - 2 ^ 63.

Definition wrap (z : Z) : Z := (z + 2 ^ 63) mod 2 ^ 64 - 2 ^ 63.

(** [time.Duration] counts nanoseconds. *)
Definition Duration := Z.
Definition Second : Duration := 1000000000.

(** ** Collaborators of the lobby *)

(** The difficulty tiers of the words package. *)
Inductive ChallengeDifficulty := ChallengeEasy | ChallengeMedium | ChallengeHard.

(** What the outside world answers while one event is handled: the clock
    ([time.Now], in nanoseconds since the epoch) and the two queries of the
    words package.  A handler asks each of them at most once. *)
Record World := {
  now : Z;
  IsValidWord : string -> bool;
  GetChallenge : ChallengeDifficulty -> string
}.

(** ** Data model *)

Inductive gameStatus := WaitingForPlayers | InProgress | Over.

Definition MaxDisplayName : Z := 15.

(** A [*Client] is an address in the store of client objects. *)
Definition ptr := positive.

(** Modelled from the spec: the [Client] struct is declared in client.go,
    which is not among the sources; the handlers read and write the fields
    [id], [displayName] and [iconName] (the outbound channel [write] is
    represented by the log of sent messages). *)
Record Client := {
  client_id : Z;
  client_displayName : string;
  client_iconName : string
}.

Definition set_displayName (n : string) (c : Client) : Client :=
  {| client_id := client_id c; client_displayName := n;
     client_iconName := client_iconName c |}.

(** ** Message protocol *)

(** The tags of the wire vocabulary.  [MessageType] is a string type in the
    source; the lobby only ever compares a tag against its named constants,
    and every other value falls to the dispatcher's [default] case. *)
Inductive MessageType :=
  | StartGame | RestartGame | AnswerPreview | SubmitAnswer | NameChange
  | ClientDetails | ClientJoined | ClientLeft | AnswerAccepted
  | AnswerRejected | ClientsTurn | TurnExpired | GameOver | Shutdown
  | OtherType (tag : string).

Record ClientJoinedContent := {
  joined_ClientId : Z;
  joined_DisplayName : string;
  joined_IconName : string;
  joined_Alive : bool
}.

Record ClientsTurnContent := {
  turn_ClientId : Z;
  turn_Challenge : string;
  turn_TurnEnd : Z
}.

(** The payload of clients_turn in the earlier revision of the lobby,
    which announces the turn's length in seconds instead of a deadline. *)
Record ClientsTurnLimit := {
  limit_ClientId : Z;
  limit_Challenge : string;
  limit_Time : Z
}.

Record ClientNameChange := {
  rename_ClientId : Z;
  rename_NewDisplayName : string
}.

Record ClientContent := {
  cc_Id : Z;
  cc_DisplayName : string;
  cc_IconName : string;
  cc_Alive : bool
}.

Record ClientDetailsContent := {
  details_ClientId : Z;
  details_Status : gameStatus;
  details_Clients : list ClientContent;
  details_CurrentTurnId : Z;
  details_CurrentChallenge : string;
  details_CurrentAnswerPrev : string;
  details_TurnEnd : Z;
  details_WinnersName : string
}.

(** [Content any]: the dynamic payloads that travel through the lobby. *)
Inductive Content :=
  | CNil
  | CString (s : string)
  | CInt (n : Z)
  | CJoined (c : ClientJoinedContent)
  | CTurn (c : ClientsTurnContent)
  | CTurnLimit (c : ClientsTurnLimit)
  | CRename (c : ClientNameChange)
  | CDetails (c : ClientDetailsContent).

Record Message := {
  From : Z;
  Type_ : MessageType;
  Content_ : Content
}.

(** A server-originated message leaves [From] at its zero value. *)
Definition server_msg (t : MessageType) (c : Content) : Message :=
  {| From := 0; Type_ := t; Content_ := c |}.

(** One delivery: the clients whose outbound channel received the message,
    and the message. *)
Record Sent := {
  rcpt : list ptr;
  payload : Message
}.

(** ** The lobby *)

Record Lobby := {
  iconNames : list string;
  clients : gmap Z ptr;
  aliveClients : list ptr;
  status : gameStatus;
  turnIndex : Z;
  turnRounds : Z;
  currentChallenge : string;
  currentAnswerPrev : string;
  currentTurnEnd : Z;
  turnExpired : option Duration;
  winnersName : string;
  lastClientId : Z
}.

Definition NewLobby (icons : list string) : Lobby :=
  {| iconNames := icons; clients := ∅; aliveClients := []; status := WaitingForPlayers;
     turnIndex := -1; turnRounds := 0; currentChallenge := ""; currentAnswerPrev := "";
     currentTurnEnd := 0; turnExpired := None; winnersName := ""; lastClientId := 0 |}.

Definition with_clients (v : gmap Z ptr) (l : Lobby) : Lobby :=
  {| iconNames := iconNames l; clients := v; aliveClients := aliveClients l;
     status := status l; turnIndex := turnIndex l; turnRounds := turnRounds l;
     currentChallenge := currentChallenge l; currentAnswerPrev := currentAnswerPrev l;
     currentTurnEnd := currentTurnEnd l; turnExpired := turnExpired l;
     winnersName := winnersName l; lastClientId := lastClientId l |}.

Definition with_aliveClients (v : list ptr) (l : Lobby) : Lobby :=
  {| iconNames := iconNames l; clients := clients l; aliveClients := v;
     status := status l; turnIndex := turnIndex l; turnRounds := turnRounds l;
     currentChallenge := currentChallenge l; currentAnswerPrev := currentAnswerPrev l;
     currentTurnEnd := currentTurnEnd l; turnExpired := turnExpired l;
     winnersName := winnersName l; lastClientId := lastClientId l |}.

Definition with_status (v : gameStatus) (l : Lobby) : Lobby :=
  {| iconNames := iconNames l; clients := clients l; aliveClients := aliveClients l;
     status := v; turnIndex := turnIndex l; turnRounds := turnRounds l;
     currentChallenge := currentChallenge l; currentAnswerPrev := currentAnswerPrev l;
     currentTurnEnd := currentTurnEnd l; turnExpired := turnExpired l;
     winnersName := winnersName l; lastClientId := lastClientId l |}.

Definition with_turnIndex (v : Z) (l : Lobby) : Lobby :=
  {| iconNames := iconNames l; clients := clients l; aliveClients := aliveClients l;
     status := status l; turnIndex := v; turnRounds := turnRounds l;
     currentChallenge := currentChallenge l; currentAnswerPrev := currentAnswerPrev l;
     currentTurnEnd := currentTurnEnd l; turnExpired := turnExpired l;
     winnersName := winnersName l; lastClientId := lastClientId l |}.

Definition with_turnRounds (v : Z) (l : Lobby) : Lobby :=
  {| iconNames := iconNames l; clients := clients l; aliveClients := aliveClients l;
     status := status l; turnIndex := turnIndex l; turnRounds := v;
     currentChallenge := currentChallenge l; currentAnswerPrev := currentAnswerPrev l;
     currentTurnEnd := currentTurnEnd l; turnExpired := turnExpired l;
     winnersName := winnersName l; lastClientId := lastClientId l |}.

Definition with_currentAnswerPrev (v : string) (l : Lobby) : Lobby :=
  {| iconNames := iconNames l; clients := clients l; aliveClients := aliveClients l;
     status := status l; turnIndex := turnIndex l; turnRounds := turnRounds l;
     currentChallenge := currentChallenge l; currentAnswerPrev := v;
     currentTurnEnd := currentTurnEnd l; turnExpired := turnExpired l;
     winnersName := winnersName l; lastClientId := lastClientId l |}.

(** The three fields a new turn writes together: the deadline, the armed
    timer and the challenge. *)
Definition with_turn_clock (e : Z) (t : option Duration) (c : string) (l : Lobby) : Lobby :=
  {| iconNames := iconNames l; clients := clients l; aliveClients := aliveClients l;
     status := status l; turnIndex := turnIndex l; turnRounds := turnRounds l;
     currentChallenge := c; currentAnswerPrev := currentAnswerPrev l;
     currentTurnEnd := e; turnExpired := t;
     winnersName := winnersName l; lastClientId := lastClientId l |}.

Definition with_winnersName (v : string) (l : Lobby) : Lobby :=
  {| iconNames := iconNames l; clients := clients l; aliveClients := aliveClients l;
     status := status l; turnIndex := turnIndex l; turnRounds := turnRounds l;
     currentChallenge := currentChallenge l; currentAnswerPrev := currentAnswerPrev l;
     currentTurnEnd := currentTurnEnd l; turnExpired := turnExpired l;
     winnersName := v; lastClientId := lastClientId l |}.

Definition with_lastClientId (v : Z) (l : Lobby) : Lobby :=
  {| iconNames := iconNames l; clients := clients l; aliveClients := aliveClients l;
     status := status l; turnIndex := turnIndex l; turnRounds := turnRounds l;
     currentChallenge := currentChallenge l; currentAnswerPrev := currentAnswerPrev l;
     currentTurnEnd := currentTurnEnd l; turnExpired := turnExpired l;
     winnersName := winnersName l; lastClientId := v |}.

(** ** State of the actor and the handler monad *)

(** What one handler runs on: the store of client objects the lobby's
    pointers refer to, the lobby itself, and the deliveries made so far
    (oldest first). *)
Record State := {
  heap : gmap ptr Client;
  lobby : Lobby;
  sent : list Sent
}.

(** A handler either returns, or panics (index out of range, nil
    dereference, division by zero); a panic is recovered at the loop
    boundary and ends the lobby. *)
Inductive Res (A : Type) :=
  | Ok (a : A) (s : State)
  | Panic (s : State).
Arguments Ok {A} a s.
Arguments Panic {A} s.

Definition M (A : Type) : Type := State -> Res A.

Definition ret {A} (a : A) : M A := fun s => Ok a s.

Definition bind {A B} (m : M A) (k : A -> M B) : M B :=
  fun s => match m s with
           | Ok a s' => k a s'
           | Panic s' => Panic s'
           end.

Definition panic {A} : M A := fun s => Panic s.

Notation "'do' x <- m ; k" := (bind m (fun x => k))
  (at level 10, x name, m at level 100, k at level 200).
Notation "'run' m ; k" := (bind m (fun _ => k))
  (at level 10, m at level 100, k at level 200).

Definition get : M Lobby := fun s => Ok (lobby s) s.

Definition modify (f : Lobby -> Lobby) : M unit :=
  fun s => Ok tt {| heap := heap s; lobby := f (lobby s); sent := sent s |}.

(** [p.f] for a client pointer: a nil or dangling pointer panics. *)
Definition deref (p : ptr) : M Client :=
  fun s => match heap s !! p with
           | Some c => Ok c s
           | None => Panic s
           end.

(** [p.displayName = n]. *)
Definition store_displayName (p : ptr) (n : string) : M unit :=
  fun s => match heap s !! p with
           | Some c => Ok tt {| heap := <[p := set_displayName n c]> (heap s);
                                lobby := lobby s; sent := sent s |}
           | None => Panic s
           end.

(** [c.write <- m] for each of [to]. *)
Definition send (to : list ptr) (m : Message) : M unit :=
  fun s => Ok tt {| heap := heap s; lobby := lobby s;
                    sent := sent s ++ [{| rcpt := to; payload := m |}] |}.

(** [len(s)] and [s[i]] of a slice. *)
Definition len {A} (l : list A) : Z := Z.of_nat (length l).

Definition index {A} (l : list A) (i : Z) : M A :=
  if (0 <=? i) && (i <? len l) then
    match l !! Z.to_nat i with
    | Some x => ret x
    | None => panic
    end
  else panic.

(** ** Library functions the handlers call *)

(** [maps.Values(m)]: the values of a map, in an order Go leaves
    unspecified. *)
Definition Values (m : gmap Z ptr) : list ptr := (map_to_list m).*2.

(** [slices.Contains] and [slices.Index] on client pointers compare
    addresses. *)
Definition Contains_ptr (l : list ptr) (p : ptr) : bool := bool_decide (p ∈ l).

Fixpoint Index (l : list ptr) (p : ptr) : Z :=
  match l with
  | [] => -1
  | x :: r => if decide (x = p) then 0
              else let i := Index r p in if i <? 0 then -1 else i + 1
  end.

(** [strings.Contains s substr]. *)
Fixpoint Contains (s substr : string) : bool :=
  String.prefix substr s ||
  match s with
  | EmptyString => false
  | String _ r => Contains r substr
  end.

(** The comparison both sorts use: [c1.id - c2.id], with [int]'s
    wrap-around. *)
Definition by_id (c1 c2 : Client) : Z := wrap (client_id c1 - client_id c2).

(** [slices.SortedFunc] is modelled by an insertion sort on the clients
    paired with their addresses.  Go's sort is not stable; the two agree
    whenever the ids are pairwise distinct, which holds for the values of a
    map keyed by id. *)
Fixpoint insert_client (x : ptr * Client) (l : list (ptr * Client)) : list (ptr * Client) :=
  match l with
  | [] => [x]
  | y :: r => if by_id x.2 y.2 <? 0 then x :: y :: r else y :: insert_client x r
  end.

Definition SortedFunc (l : list (ptr * Client)) : list (ptr * Client) :=
  foldr insert_client [] l.

(** ** Methods of the lobby *)

Definition GetNextClientId : M Z :=
  run modify (fun l => with_lastClientId (wrap (lastClientId l + 1)) l);
  do l <- get;
  ret (lastClientId l).

Definition GetDefaultIconName (id : Z) : M string :=
  do l <- get;
  if len (iconNames l) =? 0 then panic
  else index (iconNames l) (Z.rem (wrap (id - 1)) (len (iconNames l))).

Definition BroadcastMessage (m : Message) : M unit :=
  do l <- get;
  send (Values (clients l)) m.

Definition getTurnDifficulty (l : Lobby) : ChallengeDifficulty :=
  if turnRounds l >? 10 then ChallengeHard
  else if turnRounds l >? 4 then ChallengeMedium
  else ChallengeEasy.

Definition getTurnLimitDuration (l : Lobby) : Duration :=
  if turnRounds l >? 12 then 16 * Second
  else if turnRounds l >? 5 then 18 * Second
  else if turnRounds l >? 1 then 20 * Second
  else if turnRounds l =? 1 then 25 * Second
  else 20 * Second.

(** Reads every client of a list; the first nil pointer panics. *)
Fixpoint deref_all (ps : list ptr) : M (list (ptr * Client)) :=
  match ps with
  | [] => ret []
  | p :: r => do c <- deref p;
              do cs <- deref_all r;
              ret ((p, c) :: cs)
  end.

(** The clients of the lobby sorted by id.  The comparator reads the id of
    every client it is handed. *)
Definition sortedClients : M (list (ptr * Client)) :=
  do l <- get;
  do cs <- deref_all (Values (clients l));
  ret (SortedFunc cs).

Definition resetAliveClients : M unit :=
  do cs <- sortedClients;
  modify (with_aliveClients cs.*1).

(** The loop [for _, c := range aliveClients { if c.id != id { append } }],
    which both removals of an alive client run. *)
Fixpoint without_id (id : Z) (cs : list ptr) : M (list ptr) :=
  match cs with
  | [] => ret []
  | c :: r => do cl <- deref c;
              do r' <- without_id id r;
              ret (if client_id cl =? id then r' else c :: r')
  end.

Definition changeTurn (w : World) (removeCurrentClient : bool) : M unit :=
  run (if negb removeCurrentClient then
         do l <- get;
         if len (aliveClients l) =? 0 then panic
         else
           let newTurnIndex := Z.rem (wrap (turnIndex l + 1)) (len (aliveClients l)) in
           run (if turnIndex l >? -1
                then run index (aliveClients l) (turnIndex l);
                     index (aliveClients l) newTurnIndex
                else index (aliveClients l) newTurnIndex);
           modify (with_turnIndex newTurnIndex)
       else
         do l <- get;
         do eliminatedClient <- index (aliveClients l) (turnIndex l);
         do e <- deref eliminatedClient;
         do alive <- without_id (client_id e) (aliveClients l);
         run modify (with_aliveClients alive);
         run (if turnIndex l =? len alive then modify (with_turnIndex 0) else ret tt);
         do l' <- get;
         run index (aliveClients l') (turnIndex l');
         ret tt);
  do l <- get;
  run (if turnIndex l =? 0
       then modify (with_turnRounds (wrap (turnRounds l + 1)))
       else ret tt);
  do l <- get;
  let turnLimitDuration := getTurnLimitDuration l in
  run modify (with_turn_clock ((now w + turnLimitDuration) / 1000000)
                              (Some turnLimitDuration)
                              (GetChallenge w (getTurnDifficulty l)));
  do l <- get;
  do cur <- index (aliveClients l) (turnIndex l);
  do c <- deref cur;
  BroadcastMessage
    (server_msg ClientsTurn
       (CTurn {| turn_ClientId := client_id c;
                 turn_Challenge := currentChallenge l;
                 turn_TurnEnd := currentTurnEnd l |})).

Definition is_InProgress (g : gameStatus) : bool :=
  match g with InProgress => true | _ => false end.

Definition BuildClientDetails (joiningClientId : Z) : M ClientDetailsContent :=
  do l <- get;
  let isAliveMap := fun p => Contains_ptr (aliveClients l) p in
  do cs <- sortedClients;
  let clientContents :=
    map (fun pc : ptr * Client =>
           {| cc_Id := client_id pc.2;
              cc_DisplayName := client_displayName pc.2;
              cc_IconName := client_iconName pc.2;
              cc_Alive := match status l with
                          | WaitingForPlayers => true
                          | _ => isAliveMap pc.1
                          end |}) cs in
  do currentTurnId <-
    (if is_InProgress (status l)
     then do cur <- index (aliveClients l) (turnIndex l);
          do c <- deref cur;
          ret (client_id c)
     else ret 0);
  ret {| details_ClientId := joiningClientId;
         details_Status := status l;
         details_Clients := clientContents;
         details_CurrentTurnId := currentTurnId;
         details_CurrentChallenge := currentChallenge l;
         details_CurrentAnswerPrev := currentAnswerPrev l;
         details_TurnEnd := currentTurnEnd l;
         details_WinnersName := winnersName l |}.

(** ** Event handlers *)

Definition onClientJoin (joiningClient : ptr) : M unit :=
  do jc <- deref joiningClient;
  do details <- BuildClientDetails (client_id jc);
  run send [joiningClient] (server_msg ClientDetails (CDetails details));
  run modify (fun l => with_clients (<[client_id jc := joiningClient]> (clients l)) l);
  do l <- get;
  BroadcastMessage
    (server_msg ClientJoined
       (CJoined {| joined_ClientId := client_id jc;
                   joined_DisplayName := client_displayName jc;
                   joined_IconName := client_iconName jc;
                   joined_Alive := negb (is_InProgress (status l)) |})).

Definition onClientLeave (w : World) (leavingClient : ptr) : M unit :=
  do lc <- deref leavingClient;
  do l <- get;
  match clients l !! client_id lc with
  | None => ret tt
  | Some _ =>
    run modify (fun l => with_clients (delete (client_id lc) (clients l)) l);
    run BroadcastMessage (server_msg ClientLeft (CInt (client_id lc)));
    if negb (is_InProgress (status l)) || negb (Contains_ptr (aliveClients l) leavingClient)
    then ret tt
    else if len (aliveClients l) =? 2 then
      run modify (with_status Over);
      do first <- index (aliveClients l) 0;
      do winningClient <- (if decide (first = leavingClient)
                           then index (aliveClients l) 1
                           else index (aliveClients l) 0);
      do wc <- deref winningClient;
      run modify (with_winnersName (client_displayName wc));
      BroadcastMessage (server_msg GameOver (CInt (client_id wc)))
    else
      let leavingClientTurnIndex := Index (aliveClients l) leavingClient in
      if leavingClientTurnIndex =? turnIndex l then changeTurn w true
      else
        do alive <- without_id (client_id lc) (aliveClients l);
        run modify (with_aliveClients alive);
        if leavingClientTurnIndex <? turnIndex l
        then modify (with_turnIndex (wrap (turnIndex l - 1)))
        else ret tt
  end.

Definition onTurnExpired (w : World) : M unit :=
  do l <- get;
  if negb (is_InProgress (status l)) then ret tt
  else
    do cur <- index (aliveClients l) (turnIndex l);
    do c <- deref cur;
    run BroadcastMessage (server_msg TurnExpired (CInt (client_id c)));
    if len (aliveClients l) >? 2 then changeTurn w true
    else
      run modify (with_status Over);
      do losingClient <- index (aliveClients l) (turnIndex l);
      do winningClient <- (if turnIndex l =? 0
                           then index (aliveClients l) 1
                           else index (aliveClients l) 0);
      run modify (with_aliveClients [winningClient]);
      do wc <- deref winningClient;
      run modify (with_winnersName (client_displayName wc));
      do lc <- deref losingClient;
      run BroadcastMessage (server_msg TurnExpired (CInt (client_id lc)));
      BroadcastMessage (server_msg GameOver (CInt (client_id wc))).

Definition is_Waiting (g : gameStatus) : bool :=
  match g with WaitingForPlayers => true | _ => false end.

Definition is_Over (g : gameStatus) : bool :=
  match g with Over => true | _ => false end.

Definition onStartGame (w : World) (message : Message) : M unit :=
  do l <- get;
  if is_Waiting (status l) && (Z.of_nat (size (clients l)) >=? 2) then
    run modify (with_status InProgress);
    run resetAliveClients;
    changeTurn w false
  else ret tt.

Definition onRestartGame (w : World) (message : Message) : M unit :=
  do l <- get;
  if is_Over (status l) && (Z.of_nat (size (clients l)) >=? 2) then
    run resetAliveClients;
    run modify (with_status InProgress);
    run modify (with_turnIndex (-1));
    run modify (with_turnRounds 0);
    run BroadcastMessage (server_msg RestartGame CNil);
    changeTurn w false
  else ret tt.

Definition onNameChange (message : Message) : M unit :=
  match Content_ message with
  | CString newDisplayName =>
    if Z.of_nat (String.length newDisplayName) >? MaxDisplayName then ret tt
    else
      do l <- get;
      match clients l !! From message with
      | None => panic
      | Some client =>
        run store_displayName client newDisplayName;
        do c <- deref client;
        BroadcastMessage
          (server_msg NameChange
             (CRename {| rename_ClientId := client_id c;
                         rename_NewDisplayName := newDisplayName |}))
      end
  | _ => ret tt
  end.

(** The guard of the two answer handlers:
    [status == InProgress && message.From == aliveClients[turnIndex].id]. *)
Definition from_turn_holder (message : Message) : M bool :=
  do l <- get;
  if negb (is_InProgress (status l)) then ret false
  else
    do cur <- index (aliveClients l) (turnIndex l);
    do c <- deref cur;
    ret (From message =? client_id c).

Definition onAnswerPreview (message : Message) : M unit :=
  do ok <- from_turn_holder message;
  if ok then
    match Content_ message with
    | CString currentAnswerPrev =>
      run modify (with_currentAnswerPrev currentAnswerPrev);
      BroadcastMessage (server_msg AnswerPreview (CString currentAnswerPrev))
    | _ => ret tt
    end
  else ret tt.

Definition onAnswerSubmitted (w : World) (message : Message) : M unit :=
  do ok <- from_turn_holder message;
  if ok then
    match Content_ message with
    | CString answer =>
      do l <- get;
      if negb (IsValidWord w answer) then
        BroadcastMessage (server_msg AnswerRejected (CString answer))
      else if String.eqb answer (currentChallenge l) then
        BroadcastMessage (server_msg AnswerRejected (CString answer))
      else if negb (Contains answer (currentChallenge l)) then
        BroadcastMessage (server_msg AnswerRejected (CString answer))
      else
        run BroadcastMessage (server_msg AnswerAccepted (CString answer));
        changeTurn w false
    | _ => ret tt
    end
  else ret tt.

Definition onMessage (w : World) (message : Message) : M unit :=
  match Type_ message with
  | StartGame => onStartGame w message
  | RestartGame => onRestartGame w message
  | AnswerPreview => onAnswerPreview message
  | SubmitAnswer => onAnswerSubmitted w message
  | NameChange => onNameChange message
  | _ => ret tt
  end.

(** ** The earlier revision of the lobby

    src/unnamed/part_001 is the same file at an earlier revision: a lobby
    without rounds, deadlines, previews and winner's name.  Its leave
    handler and the turn change the handler calls are embedded here, on the
    same state; the fields that revision does not have are left alone. *)
Module Rev1.

Definition TurnLimitSeconds : Z := 20.

(** [challenge] is what [words.GetChallenge()] answers during the event. *)
Definition changeTurn (challenge : string) (removeCurrentClient : bool) : M unit :=
  run (if negb removeCurrentClient then
         do l <- get;
         if len (aliveClients l) =? 0 then panic
         else
           let newTurnIndex := Z.rem (wrap (turnIndex l + 1)) (len (aliveClients l)) in
           run (if turnIndex l >? -1
                then run index (aliveClients l) (turnIndex l);
                     index (aliveClients l) newTurnIndex
                else index (aliveClients l) newTurnIndex);
           modify (with_turnIndex newTurnIndex)
       else
         do l <- get;
         do eliminatedClient <- index (aliveClients l) (turnIndex l);
         do e <- deref eliminatedClient;
         do alive <- without_id (client_id e) (aliveClients l);
         run modify (with_aliveClients alive);
         run (if turnIndex l =? len alive then modify (with_turnIndex 0) else ret tt);
         do l' <- get;
         run index (aliveClients l') (turnIndex l');
         ret tt);
  run modify (fun l => with_turn_clock (currentTurnEnd l) (turnExpired l) challenge l);
  do l <- get;
  do cur <- index (aliveClients l) (turnIndex l);
  do c <- deref cur;
  run BroadcastMessage
        (server_msg ClientsTurn
           (CTurnLimit {| limit_ClientId := client_id c;
                          limit_Challenge := currentChallenge l;
                          limit_Time := TurnLimitSeconds |}));
  modify (fun l => with_turn_clock (currentTurnEnd l)
                                   (Some (TurnLimitSeconds * Second))
                                   (currentChallenge l) l).

Definition onClientLeave (challenge : string) (leavingClient : ptr) : M unit :=
  do lc <- deref leavingClient;
  run modify (fun l => with_clients (delete (client_id lc) (clients l)) l);
  run BroadcastMessage (server_msg ClientLeft (CInt (client_id lc)));
  do l <- get;
  if negb (is_InProgress (status l)) || negb (Contains_ptr (aliveClients l) leavingClient)
  then ret tt
  else if len (aliveClients l) =? 2 then
    run modify (with_status Over);
    do first <- index (aliveClients l) 0;
    do winningClient <- (if decide (first = leavingClient)
                         then index (aliveClients l) 1
                         else index (aliveClients l) 0);
    do wc <- deref winningClient;
    BroadcastMessage (server_msg GameOver (CInt (client_id wc)))
  else
    let leavingClientTurnIndex := Index (aliveClients l) leavingClient in
    if leavingClientTurnIndex =? turnIndex l then changeTurn challenge true
    else
      do alive <- without_id (client_id lc) (aliveClients l);
      run modify (with_aliveClients alive);
      if leavingClientTurnIndex <? turnIndex l
      then modify (with_turnIndex (wrap (turnIndex l - 1)))
      else ret tt.

End Rev1.

(** ** The event loop *)

(** The four sources [StartLobby] selects on. *)
Inductive Event :=
  | Join (client : ptr)
  | Leave (client : ptr)
  | Read (message : Message)
  | TimerFired.

(** The channel of [time.After] delivers one value: once received, the
    field holds a channel that stays silent until the next turn arms a new
    one. *)
Definition disarm (l : Lobby) : Lobby := with_turn_clock (currentTurnEnd l) None (currentChallenge l) l.

Definition handle (w : World) (e : Event) : M unit :=
  match e with
  | Join c => onClientJoin c
  | Leave c => onClientLeave w c
  | Read m => onMessage w m
  | TimerFired => run modify disarm; onTurnExpired w
  end.

(** One iteration of the loop. *)
Inductive Outcome :=
  | Running (s : State)
  | Ended (s : State)
  | Crashed (s : State).

Definition step (w : World) (e : Event) (s : State) : Outcome :=
  match handle w e s with
  | Ok _ s' =>
    match e with
    | Leave _ => if Z.of_nat (size (clients (lobby s'))) =? 0 then Ended s' else Running s'
    | _ => Running s'
    end
  | Panic s' => Crashed s'
  end.

(** ** Well-formed lobbies *)

Global Instance gameStatus_eq_dec : EqDecision gameStatus.
Proof. solve_decision. Defined.

(** The id a client pointer carries, if the pointer is not nil. *)
Definition id_of (h : gmap ptr Client) (p : ptr) : option Z := client_id <$> h !! p.

(** The alive list of a running lobby: every entry points to a client, no
    two entries carry the same id, and the slice fits Go's [int]. *)
Definition alive_wf (s : State) : Prop :=
  Forall (fun p => is_Some (heap s !! p)) (aliveClients (lobby s)) /\
  NoDup (id_of (heap s) <$> aliveClients (lobby s)) /\
  len (aliveClients (lobby s)) <= max_int.

Global Instance alive_wf_dec s : Decision (alive_wf s).
Proof. unfold alive_wf. apply _. Defined.

(** [turnIndex] denotes a position of the alive list. *)
Definition valid_turn (l : Lobby) : Prop :=
  0 <= turnIndex l < len (aliveClients l).

Global Instance valid_turn_dec l : Decision (valid_turn l).
Proof. unfold valid_turn. apply _. Defined.

(** The roster: every client is registered under its own id, and ids are
    the positive [int]s the lobby's counter hands out. *)
Definition clients_wf (s : State) : Prop :=
  map_Forall (fun k p => id_of (heap s) p = Some k /\ 0 < k <= max_int)
             (clients (lobby s)).

Global Instance clients_wf_dec s : Decision (clients_wf s).
Proof. unfold clients_wf. apply _. Defined.

(** ** The two halves of a turn change *)

(** The first half of [changeTurn]: moving the turn pointer. *)
Definition move_pointer (removeCurrentClient : bool) : M unit :=
  if negb removeCurrentClient then
    do l <- get;
    if len (aliveClients l) =? 0 then panic
    else
      let newTurnIndex := Z.rem (wrap (turnIndex l + 1)) (len (aliveClients l)) in
      run (if turnIndex l >? -1
           then run index (aliveClients l) (turnIndex l);
                index (aliveClients l) newTurnIndex
           else index (aliveClients l) newTurnIndex);
      modify (with_turnIndex newTurnIndex)
  else
    do l <- get;
    do eliminatedClient <- index (aliveClients l) (turnIndex l);
    do e <- deref eliminatedClient;
    do alive <- without_id (client_id e) (aliveClients l);
    run modify (with_aliveClients alive);
    run (if turnIndex l =? len alive then modify (with_turnIndex 0) else ret tt);
    do l' <- get;
    run index (aliveClients l') (turnIndex l');
    ret tt.

(** The second half of [changeTurn], as the source writes it. *)
Definition announce (w : World) : M unit :=
  do l <- get;
  run (if turnIndex l =? 0
       then modify (with_turnRounds (wrap (turnRounds l + 1)))
       else ret tt);
  do l <- get;
  let turnLimitDuration := getTurnLimitDuration l in
  run modify (with_turn_clock ((now w + turnLimitDuration) / 1000000)
                              (Some turnLimitDuration)
                              (GetChallenge w (getTurnDifficulty l)));
  do l <- get;
  do cur <- index (aliveClients l) (turnIndex l);
  do c <- deref cur;
  BroadcastMessage
    (server_msg ClientsTurn
       (CTurn {| turn_ClientId := client_id c;
                 turn_Challenge := currentChallenge l;
                 turn_TurnEnd := currentTurnEnd l |})).

(** What [changeTurn] does after the turn pointer has moved: count the
    round, set the clock and the challenge, announce the turn. *)
Definition bump_round (l : Lobby) : Lobby :=
  if turnIndex l =? 0 then with_turnRounds (wrap (turnRounds l + 1)) l else l.

Definition timed (w : World) (l : Lobby) : Lobby :=
  with_turn_clock ((now w + getTurnLimitDuration l) / 1000000)
                  (Some (getTurnLimitDuration l))
                  (GetChallenge w (getTurnDifficulty l)) l.

Definition turn_msg (l : Lobby) (c : Client) : Message :=
  server_msg ClientsTurn
    (CTurn {| turn_ClientId := client_id c;
              turn_Challenge := currentChallenge l;
              turn_TurnEnd := currentTurnEnd l |}).

(** The state a turn change ends in when the pointer has been moved to a
    client [c] of the lobby [l]. *)
Definition announced (w : World) (s : State) (l : Lobby) (c : Client) : State :=
  {| heap := heap s;
     lobby := timed w (bump_round l);
     sent := sent s ++ [{| rcpt := Values (clients l);
                           payload := turn_msg (timed w (bump_round l)) c |}] |}.

(** The alive list and the pointer after the client at the pointer is
    eliminated. *)
Definition eliminated (l : Lobby) : Lobby :=
  let alive := delete (Z.to_nat (turnIndex l)) (aliveClients l) in
  with_turnIndex (if turnIndex l =? len alive then 0 else turnIndex l)
                 (with_aliveClients alive l).

(** The pointer after a plain advance. *)
Definition advanced (l : Lobby) : Lobby :=
  with_turnIndex (Z.rem (wrap (turnIndex l + 1)) (len (aliveClients l))) l.

(** ** States the leave and expiry handlers end in *)

(** After the leaving client's entry is deleted and its departure
    broadcast to the remaining clients. *)
Definition departed (s : State) (id : Z) : State :=
  let l := with_clients (delete id (clients (lobby s))) (lobby s) in
  {| heap := heap s;
     lobby := l;
     sent := sent s ++ [{| rcpt := Values (clients l);
                           payload := server_msg ClientLeft (CInt id) |}] |}.

(** After the game is decided for the client [c]. *)
Definition won_by (c : Client) (l : Lobby) : Lobby :=
  with_winnersName (client_displayName c) (with_status Over l).

Definition to_all (l : Lobby) (m : Message) : Sent :=
  {| rcpt := Values (clients l); payload := m |}.

(** After an alive client that is not on turn is dropped from the alive
    list. *)
Definition dropped (p : ptr) (l : Lobby) : Lobby :=
  let i := Index (aliveClients l) p in
  let l' := with_aliveClients (delete (Z.to_nat i) (aliveClients l)) l in
  if i <? turnIndex l then with_turnIndex (wrap (turnIndex l - 1)) l' else l'.

(** After [m] is broadcast to the lobby. *)
Definition told (m : Message) (s : State) : State :=
  {| heap := heap s; lobby := lobby s; sent := sent s ++ [to_all (lobby s) m] |}.

(** While a game runs, at least two clients are alive and the turn pointer
    is valid. *)
Definition running_wf (l : Lobby) : Prop :=
  status l = InProgress -> valid_turn l /\ 2 <= len (aliveClients l).

Global Instance running_wf_dec l : Decision (running_wf l).
Proof. unfold running_wf, valid_turn. apply _. Defined.

(** ** A small lobby to evaluate the handlers on *)

Definition demo_world : World :=
  {| now := 1700000000000000000;
     IsValidWord := fun s => Nat.ltb 3 (String.length s);
     GetChallenge := fun d => match d with
                              | ChallengeEasy => "atr"%string
                              | ChallengeMedium => "ough"%string
                              | ChallengeHard => "mnem"%string
                              end |}.

Definition demo_client (id : Z) (name : string) : Client :=
  {| client_id := id; client_displayName := name; client_iconName := "owl.svg" |}.

(** Three connected clients: the client with id [n] lives at address [n]. *)
Definition demo_heap : gmap ptr Client :=
  {[ 1%positive := demo_client 1 "ann";
     2%positive := demo_client 2 "bob";
     3%positive := demo_client 3 "cyd" ]}.

Definition demo_clients : gmap Z ptr :=
  {[ 1 := 1%positive; 2 := 2%positive; 3 := 3%positive ]}.

(** The lobby with the given status, alive list and turn pointer. *)
Definition demo_lobby (st : gameStatus) (alive : list ptr) (turn : Z) : Lobby :=
  {| iconNames := ["owl.svg"%string]; clients := demo_clients; aliveClients := alive;
     status := st; turnIndex := turn; turnRounds := 1;
     currentChallenge := "atr"; currentAnswerPrev := "pat";
     currentTurnEnd := 1700000025000; turnExpired := Some (25 * Second);
     winnersName := ""; lastClientId := 3 |}.

Definition demo (st : gameStatus) (alive : list ptr) (turn : Z) : State :=
  {| heap := demo_heap; lobby := demo_lobby st alive turn; sent := [] |}.

(** A lobby in its [n]-th round. *)
Definition at_round (n : Z) : Lobby := with_turnRounds n (NewLobby []).


Definition demo_answer (text : string) : Message :=
  {| From := 1; Type_ := SubmitAnswer; Content_ := CString text |}.

Definition demo_request (t : MessageType) : Message :=
  {| From := 2; Type_ := t; Content_ := CNil |}.

(** The lobby before anyone has joined, over the store of the three
    clients, and the lobby after the given events. *)
Definition demo_new : State :=
  {| heap := demo_heap; lobby := NewLobby ["owl.svg"%string]; sent := [] |}.

Definition demo_after (es : list Event) : State :=
  foldl (fun s e => match step demo_world e s with
                    | Running s' => s'
                    | _ => s
                    end) demo_new es.

(** Three clients join and the second one starts the game. *)
Definition demo_opening : list Event :=
  [Join 1%positive; Join 2%positive; Join 3%positive; Read (demo_request StartGame)].

(** ** Order of the roster *)

(** [asc h p q]: the client at [p] has a smaller id than the client at
    [q]. *)
Definition asc (h : gmap ptr Client) (p q : ptr) : Prop :=
  exists i j, id_of h p = Some i /\ id_of h q = Some j /\ i < j.

(** The comparator's view of a pair, where it does not overflow. *)
Definition id_le (x y : ptr * Client) : Prop := client_id x.2 <= client_id y.2.

Definition fits (c : Client) : Prop := 0 < client_id c <= max_int.

Global Instance fits_dec c : Decision (fits c).
Proof. unfold fits. apply _. Defined.

(** The clients behind a list of pointers, paired with their addresses
    (nil pointers dropped). *)
Definition attach (h : gmap ptr Client) (ps : list ptr) : list (ptr * Client) :=
  omap (fun p => pair p <$> h !! p) ps.

(** The roster in canonical order: the values of [clients], sorted by id.
    It depends on the store and on [clients] only. *)
Definition roster (h : gmap ptr Client) (m : gmap Z ptr) : list ptr :=
  (SortedFunc (attach h (Values m))).*1.

(** ** Frame conditions *)

(** [keeps R m]: however [m] ends, returning or panicking, the state it
    ends in is related by [R] to the state it started in. *)
Definition keeps {A} (R : State -> State -> Prop) (m : M A) : Prop :=
  forall s, match m s with
            | Ok _ s' => R s s'
            | Panic s' => R s s'
            end.

(** The preview text is the same in both states. *)
Definition same_preview (s s' : State) : Prop :=
  currentAnswerPrev (lobby s') = currentAnswerPrev (lobby s).

(** ** Reachable states and the invariant of the lobby *)

(** The alive list holds clients with proper ids, no id twice. *)
Definition alive_fit (s : State) : Prop :=
  Forall (fun p => exists c, heap s !! p = Some c /\ fits c) (aliveClients (lobby s)) /\
  NoDup (id_of (heap s) <$> aliveClients (lobby s)).

(** What every state the event loop reaches satisfies. *)
Definition lobby_inv (s : State) : Prop :=
  clients_wf s /\
  alive_fit s /\
  running_wf (lobby s) /\
  (status (lobby s) = WaitingForPlayers -> turnIndex (lobby s) = -1).

(** Modelled from the spec: the connection code (client.go, not among the
    sources) creates a client with a positive id drawn from the lobby's
    counter before it hands the client to the lobby.  The timer case of the
    loop is taken only while a timer is armed. *)
Definition admissible (e : Event) (s : State) : Prop :=
  match e with
  | Join p => forall c, heap s !! p = Some c -> fits c
  | TimerFired => is_Some (turnExpired (lobby s))
  | _ => True
  end.

(** The states of a lobby that is still running: a new lobby over any
    store of client objects, and what one more iteration of the loop makes
    of a reachable state. *)
Inductive reachable : State -> Prop :=
  | reachable_new h icons :
      reachable {| heap := h; lobby := NewLobby icons; sent := [] |}
  | reachable_step w e s s' :
      reachable s -> admissible e s -> step w e s = Running s' -> reachable s'.

(** A step that maps states satisfying the invariant to such states. *)
Definition keeps_inv (s s' : State) : Prop := lobby_inv s -> lobby_inv s'.

(** ** Partial correctness *)

(** [returns m s Q]: if the handler [m], started in [s], returns, then
    [Q] holds of the value and the state it returns. *)
Definition returns {A} (m : M A) (s : State) (Q : A -> State -> Prop) : Prop :=
  forall a s', m s = Ok a s' -> Q a s'.

(** What a turn change that returns has done, whatever state it started
    in. *)
Definition turn_changed (w : World) (b : bool) (s s' : State) : Prop :=
  heap s' = heap s /\
  clients (lobby s') = clients (lobby s) /\
  status (lobby s') = status (lobby s) /\
  winnersName (lobby s') = winnersName (lobby s) /\
  aliveClients (lobby s') `sublist_of` aliveClients (lobby s) /\
  (b = false -> aliveClients (lobby s') = aliveClients (lobby s)) /\
  turnRounds (lobby s') =
    (if turnIndex (lobby s') =? 0 then wrap (turnRounds (lobby s) + 1)
     else turnRounds (lobby s)) /\
  turnExpired (lobby s') = Some (getTurnLimitDuration (lobby s')) /\
  currentTurnEnd (lobby s') = (now w + getTurnLimitDuration (lobby s')) / 1000000 /\
  currentChallenge (lobby s') = GetChallenge w (getTurnDifficulty (lobby s')) /\
  valid_turn (lobby s') /\
  exists cur c,
    aliveClients (lobby s') !! Z.to_nat (turnIndex (lobby s')) = Some cur /\
    heap s !! cur = Some c /\
    sent s' = sent s ++ [to_all (lobby s') (turn_msg (lobby s') c)].

(** ** Events the loop can be handed *)

(** A join or a leave carries an actual client object, and a name_change
    message carries the id of a client that is in the lobby when the
    message is read. *)
Definition deliverable (e : Event) (s : State) : Prop :=
  match e with
  | Join p | Leave p => is_Some (heap s !! p)
  | Read m => Type_ m = NameChange -> is_Some (clients (lobby s) !! From m)
  | TimerFired => True
  end.

(** ** The turn timer *)

(** While a game runs, a timer is pending, set to the limit of the current
    round. *)
Definition timer_pending (l : Lobby) : Prop :=
  status l = InProgress -> turnExpired l = Some (getTurnLimitDuration l).

(** ** Ids for new connections *)

(** [n] connections in a row, each drawing its id from the lobby's
    counter. *)
Fixpoint draw_ids (n : nat) : M (list Z) :=
  match n with
  | O => ret []
  | S k => do id <- GetNextClientId;
           do ids <- draw_ids k;
           ret (id :: ids)
  end.

(** ** A run of accepted answers *)

(** One plain turn change after another, each in the world of its own
    event. *)
Fixpoint advance_turns (ws : list World) : M unit :=
  match ws with
  | [] => ret tt
  | w :: ws => run changeTurn w false; advance_turns ws
  end.

(** ** What the clients have been told about the turn *)

(** The turn notice a delivery carries, if it is a [clients_turn]
    message. *)
Definition turn_notice (x : Sent) : option ClientsTurnContent :=
  match Type_ (payload x), Content_ (payload x) with
  | ClientsTurn, CTurn t => Some t
  | _, _ => None
  end.

(** The most recent turn notice in a log of deliveries. *)
Definition last_turn_notice (log : list Sent) : option ClientsTurnContent :=
  last (omap turn_notice log).

(** While a game runs, the most recent turn notice names the client on
    turn, the current challenge and the current deadline. *)
Definition turn_known (s : State) : Prop :=
  status (lobby s) = InProgress ->
  exists cur c,
    aliveClients (lobby s) !! Z.to_nat (turnIndex (lobby s)) = Some cur /\
    heap s !! cur = Some c /\
    last_turn_notice (sent s) =
      Some {| turn_ClientId := client_id c;
              turn_Challenge := currentChallenge (lobby s);
              turn_TurnEnd := currentTurnEnd (lobby s) |}.

(** ** The roster across the two revisions *)

(** How a turn change moves the turn: in eliminate mode the alive list
    loses the entries with the id of the client on turn and the pointer
    goes to 0 if it fell off the end; in advance mode the pointer steps on,
    wrapping around. *)
Definition moved (b : bool) (s s' : State) : Prop :=
  heap s' = heap s /\
  clients (lobby s') = clients (lobby s) /\
  status (lobby s') = status (lobby s) /\
  if b then
    exists e ce,
      aliveClients (lobby s) !! Z.to_nat (turnIndex (lobby s)) = Some e /\
      heap s !! e = Some ce /\
      aliveClients (lobby s') =
        filter (fun p => id_of (heap s) p <> Some (client_id ce)) (aliveClients (lobby s)) /\
      turnIndex (lobby s') =
        (if turnIndex (lobby s) =? len (aliveClients (lobby s')) then 0
         else turnIndex (lobby s))
  else
    aliveClients (lobby s') = aliveClients (lobby s) /\
    turnIndex (lobby s') =
      Z.rem (wrap (turnIndex (lobby s) + 1)) (len (aliveClients (lobby s))).

(** Two states with the same clients, roster, alive list, pointer and
    status. *)
Definition same_roster (s s' : State) : Prop :=
  heap s' = heap s /\
  clients (lobby s') = clients (lobby s) /\
  aliveClients (lobby s') = aliveClients (lobby s) /\
  turnIndex (lobby s') = turnIndex (lobby s) /\
  status (lobby s') = status (lobby s).

(** ** A game nobody answers in *)

(** Timer expiries in a row, as the loop handles them, with no other
    event in between. *)
Fixpoint expire_turns (ws : list World) : M unit :=
  match ws with
  | [] => ret tt
  | w :: ws => run handle w TimerFired; expire_turns ws
  end.

(** The alive client seated just before the turn pointer, cyclically. *)
Definition last_in_line (l : Lobby) : option ptr :=
  aliveClients l !!
    Z.to_nat ((turnIndex l + len (aliveClients l) - 1) mod len (aliveClients l)).

(** * The server's lobby registry (package [main], file main.go)

    The map [lobbies] and the four functions of main.go that read or write
    it.  A lobby is registered under its id when it is created and removed
    when its id arrives on the [lobbyEnded] channel. *)
Module Main.

(** [uuid.UUID], sixteen bytes, as the number they encode. *)
Definition UUID := N.

(** What the handlers cannot decide themselves: [uuid.Parse] (the id, or
    the text of the error), the PROD switch read at start-up, and whether
    the websocket upgrade and [game.JoinClientToLobby] succeed for the
    request at hand. *)
Record Env := {
  Parse : string -> UUID + string;
  isProd : bool;
  Upgrade : bool;
  JoinClientToLobby : bool
}.

(** The [gin.H] maps the handlers answer with. *)
Inductive H :=
  | H_none
  | H_lobbyId (lobbyId : UUID)
  | H_message (message : string)
  | H_error (error : string)
  | H_lobby (lobbyId : UUID) (isProd : bool).

(** [c.JSON(code, h)] and [c.HTML(code, name, h)]; a join that succeeds
    writes no response, its connection belongs to the lobby from then
    on. *)
Inductive Response :=
  | JSON (code : Z) (h : H)
  | HTML (code : Z) (name : string) (h : H)
  | Joined (lobby : ptr).

Definition StatusOK : Z := 200.
Definition StatusCreated : Z := 201.
Definition StatusBadRequest : Z := 400.
Definition StatusNotFound : Z := 404.
Definition StatusInternalServerError : Z := 500.

(** [createLobby]; [Id] is the id [game.NewLobby] drew and [lobby] the
    address of the new lobby, whose loop runs in a goroutine of its own
    from here on. *)
Definition createLobby (Id : UUID) (lobby : ptr) (lobbies : gmap UUID ptr)
  : gmap UUID ptr * Response :=
  (<[Id := lobby]> lobbies, JSON StatusCreated (H_lobbyId Id)).

(** One round of the loop of [handleEndedLobbies]. *)
Definition handleEndedLobbies (endedLobbyId : UUID) (lobbies : gmap UUID ptr)
  : gmap UUID ptr :=
  delete endedLobbyId lobbies.

Definition openLobby (env : Env) (param : string) (lobbies : gmap UUID ptr) : Response :=
  match Parse env param with
  | inr _ => HTML StatusOK "home.gohtml" (H_error "Invalid lobby Id")
  | inl lobbyId =>
    match lobbies !! lobbyId with
    | None => HTML StatusOK "home.gohtml" (H_error "Lobby not found")
    | Some _ => HTML StatusOK "lobby.gohtml" (H_lobby lobbyId (isProd env))
    end
  end.

Definition joinLobby (env : Env) (param : string) (lobbies : gmap UUID ptr) : Response :=
  match Parse env param with
  | inr err =>
    JSON StatusBadRequest (H_message (String.append "failed to parse lobbyId: " err))
  | inl lobbyId =>
    match lobbies !! lobbyId with
    | None => JSON StatusNotFound (H_message "Lobby not found")
    | Some lobby =>
      if negb (Upgrade env) then
        JSON StatusInternalServerError
             (H_message "Failed to join lobby. An unknown error occurred when upgrading to a websocket connection.")
      else if negb (JoinClientToLobby env) then
        JSON StatusInternalServerError
             (H_message "Failed to join lobby. The connection was not properly added to the lobby.")
      else Joined lobby
    end
  end.

(** The two writers of the registry, as events. *)
Inductive Change :=
  | Create (Id : UUID) (lobby : ptr)
  | End_ (endedLobbyId : UUID).

Definition change (lobbies : gmap UUID ptr) (c : Change) : gmap UUID ptr :=
  match c with
  | Create Id lobby => (createLobby Id lobby lobbies).1
  | End_ Id => handleEndedLobbies Id lobbies
  end.

(** The id a change is about. *)
Definition about (c : Change) : UUID :=
  match c with Create Id _ => Id | End_ Id => Id end.

(** The lobby the last change about [Id] registered, if that change was a
    creation. *)
Definition registered (Id : UUID) (cs : list Change) : option ptr :=
  match last (filter (fun c => about c = Id) cs) with
  | Some (Create _ lobby) => Some lobby
  | _ => None
  end.

End Main.

(** * Properties *)

(** ** The schedule of time budgets and difficulty tiers *)

Lemma getTurnDifficulty_rounds l n :
  getTurnDifficulty (with_turnRounds n l) = getTurnDifficulty (at_round n).
Proof. reflexivity. Qed.

Lemma getTurnLimitDuration_rounds l n :
  getTurnLimitDuration (with_turnRounds n l) = getTurnLimitDuration (at_round n).
Proof. reflexivity. Qed.

(** C2 is not what the code does at round 11: the time budget there is
    18 seconds, not 16; 16 seconds start with round 13. *)
Lemma C2_round_eleven_lasts_18s :
  turnRounds (at_round 11) = 11 /\
  getTurnLimitDuration (at_round 11) = 18 * Second /\
  getTurnLimitDuration (at_round 11) <> 16 * Second /\
  getTurnDifficulty (at_round 11) = ChallengeHard.
Proof. repeat split; try reflexivity. discriminate. Qed.

(** C2, as the code has it.  The time budget and the difficulty tier are
    functions of [turnRounds] alone: 20s and easy at round 0, 25s and easy
    at round 1, 18s and medium at round 6, 18s and hard at round 11.  The
    difficulty is hard exactly above 10 rounds and medium from 5 to 10; the
    budget is 16s exactly above 12 rounds, 18s from 6 to 12, 25s at round
    1, and 20s otherwise. *)
Theorem C2_turn_schedule (l : Lobby) :
  (getTurnLimitDuration (with_turnRounds 0 l) = 20 * Second /\
   getTurnDifficulty (with_turnRounds 0 l) = ChallengeEasy) /\
  (getTurnLimitDuration (with_turnRounds 1 l) = 25 * Second /\
   getTurnDifficulty (with_turnRounds 1 l) = ChallengeEasy) /\
  (getTurnLimitDuration (with_turnRounds 6 l) = 18 * Second /\
   getTurnDifficulty (with_turnRounds 6 l) = ChallengeMedium) /\
  (getTurnLimitDuration (with_turnRounds 11 l) = 18 * Second /\
   getTurnDifficulty (with_turnRounds 11 l) = ChallengeHard) /\
  (getTurnDifficulty l = ChallengeHard <-> 10 < turnRounds l) /\
  (getTurnDifficulty l = ChallengeMedium <-> 4 < turnRounds l <= 10) /\
  (getTurnLimitDuration l = 16 * Second <-> 12 < turnRounds l) /\
  (getTurnLimitDuration l = 18 * Second <-> 5 < turnRounds l <= 12) /\
  (getTurnLimitDuration l = 25 * Second <-> turnRounds l = 1) /\
  (getTurnLimitDuration l = 20 * Second <-> turnRounds l < 1 \/ 1 < turnRounds l <= 5).
Proof.
  repeat match goal with |- _ /\ _ => split end; try reflexivity;
    unfold getTurnDifficulty, getTurnLimitDuration, Second;
    repeat match goal with
           | |- context [?a >? ?b] => destruct (Z.gtb_spec a b)
           | |- context [?a =? ?b] => destruct (Z.eqb_spec a b)
           end;
    split; intros HH; try reflexivity; try lia; try (vm_compute in HH; discriminate).
Qed.

(** ** Reasoning about handlers *)

Lemma bind_unfold {A B} (m : M A) (k : A -> M B) s :
  bind m k s = match m s with Ok a s' => k a s' | Panic s' => Panic s' end.
Proof. reflexivity. Qed.

Lemma index_ok {A} (l : list A) i x s :
  0 <= i -> l !! Z.to_nat i = Some x -> index l i s = Ok x s.
Proof.
  intros Hi Hx. unfold index, len.
  pose proof (lookup_lt_Some _ _ _ Hx) as Hlt.
  destruct (Z.leb_spec 0 i); [|lia].
  destruct (Z.ltb_spec i (Z.of_nat (length l))); [|lia].
  cbn. by rewrite Hx.
Qed.

Lemma deref_ok p c s : heap s !! p = Some c -> deref p s = Ok c s.
Proof. intros H. unfold deref. by rewrite H. Qed.

Lemma id_of_Some h p c : h !! p = Some c -> id_of h p = Some (client_id c).
Proof. intros H. unfold id_of. by rewrite H. Qed.

(** The removal loop is a filter on the id. *)
Lemma without_id_ok i cs s :
  Forall (fun p => is_Some (heap s !! p)) cs ->
  without_id i cs s = Ok (filter (fun p => id_of (heap s) p <> Some i) cs) s.
Proof.
  induction 1 as [|p cs [c Hc] _ IH]; [reflexivity|].
  cbn [without_id]. rewrite bind_unfold, (deref_ok _ _ _ Hc), bind_unfold, IH.
  unfold ret. rewrite filter_cons, (id_of_Some _ _ _ Hc).
  destruct (Z.eqb_spec (client_id c) i) as [->|Hne].
  - by rewrite decide_False by (intros ?; congruence).
  - by rewrite decide_True by congruence.
Qed.

Lemma filter_Forall_id {A} (P : A -> Prop) `{forall x, Decision (P x)} (l : list A) :
  Forall P l -> filter P l = l.
Proof.
  induction 1 as [|x l Hx _ IH]; [done|].
  by rewrite filter_cons_True, IH.
Qed.

(** Filtering out the key of one entry of a duplicate-free list deletes
    exactly that entry. *)
Lemma filter_key_delete {K} `{EqDecision K} (f : ptr -> K) cs k p :
  NoDup (f <$> cs) -> cs !! k = Some p ->
  filter (fun q => f q <> f p) cs = delete k cs.
Proof.
  revert k. induction cs as [|q cs IH]; intros k Hnd Hk; [done|].
  rewrite fmap_cons in Hnd. apply NoDup_cons in Hnd as [Hq Hnd].
  destruct k as [|k]; cbn in Hk.
  - injection Hk as ->. rewrite filter_cons_False by (intros ?; congruence). cbn.
    apply filter_Forall_id, Forall_forall. intros x Hx Heq.
    apply Hq. rewrite <- Heq. apply list_elem_of_fmap. eauto.
  - rewrite filter_cons_True.
    + cbn. f_equal. by apply IH.
    + intros Heq. apply Hq. rewrite Heq. apply list_elem_of_fmap.
      exists p. split; [done|]. by eapply list_elem_of_lookup_2.
Qed.

Lemma announce_ok w s p c :
  0 <= turnIndex (lobby s) ->
  aliveClients (lobby s) !! Z.to_nat (turnIndex (lobby s)) = Some p ->
  heap s !! p = Some c ->
  announce w s = Ok tt (announced w s (lobby s) c).
Proof.
  intros H0 Hp Hc. destruct s as [h l o]. cbn in *.
  unfold announce, announced, bump_round. rewrite !bind_unfold. cbn.
  destruct (turnIndex l =? 0) eqn:E; cbn;
    rewrite bind_unfold; cbn;
    (erewrite index_ok by (cbn; eauto)); cbn;
    rewrite bind_unfold, (deref_ok p c) by done; reflexivity.
Qed.

Lemma changeTurn_halves w b s :
  changeTurn w b s = (run move_pointer b; announce w) s.
Proof. reflexivity. Qed.

Lemma bind_ok {A B} (m : M A) (k : A -> M B) s a s' :
  m s = Ok a s' -> bind m k s = k a s'.
Proof. intros H. unfold bind. by rewrite H. Qed.

Lemma get_bind {B} (k : Lobby -> M B) s : (do l <- get; k l) s = k (lobby s) s.
Proof. reflexivity. Qed.

Lemma modify_bind {B} f (k : M B) s :
  (run modify f; k) s = k {| heap := heap s; lobby := f (lobby s); sent := sent s |}.
Proof. reflexivity. Qed.

Lemma ret_bind {A B} (a : A) (k : A -> M B) s : (do x <- ret a; k x) s = k a s.
Proof. reflexivity. Qed.

Lemma send_bind {B} to m (k : M B) s :
  (run send to m; k) s =
  k {| heap := heap s; lobby := lobby s; sent := sent s ++ [{| rcpt := to; payload := m |}] |}.
Proof. reflexivity. Qed.

Lemma broadcast_bind {B} m (k : M B) s :
  (run BroadcastMessage m; k) s =
  k {| heap := heap s; lobby := lobby s;
       sent := sent s ++ [{| rcpt := Values (clients (lobby s)); payload := m |}] |}.
Proof. reflexivity. Qed.

Lemma broadcast_ok m s :
  BroadcastMessage m s =
  Ok tt {| heap := heap s; lobby := lobby s;
           sent := sent s ++ [{| rcpt := Values (clients (lobby s)); payload := m |}] |}.
Proof. reflexivity. Qed.

Ltac mstep :=
  first
    [ rewrite get_bind
    | rewrite modify_bind
    | rewrite ret_bind
    | rewrite broadcast_bind
    | rewrite send_bind
    | erewrite bind_ok by
        first [ by apply index_ok | by apply deref_ok | by apply without_id_ok ] ];
  cbn [heap lobby sent].

Lemma len_delete {A} (l : list A) k :
  is_Some (l !! k) -> len (delete k l) = len l - 1.
Proof. intros H. unfold len. rewrite length_delete by done.
  apply lookup_lt_is_Some in H. lia. Qed.

Lemma lookup_lt_len {A} (l : list A) i :
  0 <= i < len l -> is_Some (l !! Z.to_nat i).
Proof. intros H. apply lookup_lt_is_Some. unfold len in H. lia. Qed.

Lemma move_eliminate_ok s e :
  alive_wf s ->
  0 <= turnIndex (lobby s) ->
  aliveClients (lobby s) !! Z.to_nat (turnIndex (lobby s)) = Some e ->
  2 <= len (aliveClients (lobby s)) ->
  move_pointer true s =
  Ok tt {| heap := heap s; lobby := eliminated (lobby s); sent := sent s |}.
Proof.
  intros (Hall & Hnd & _) H0 He Hlen. destruct s as [h l o]. cbn in *.
  assert (is_Some (h !! e)) as [c Hc].
  { eapply Forall_forall in Hall; [done|]. by eapply list_elem_of_lookup_2. }
  unfold move_pointer. cbn [negb].
  repeat mstep.
  rewrite <- (id_of_Some h e c) by done.
  rewrite (filter_key_delete (id_of h) _ _ e Hnd He).
  pose proof (len_delete (aliveClients l) (Z.to_nat (turnIndex l)) (mk_is_Some _ _ He)) as Hd.
  pose proof (lookup_lt_Some _ _ _ He) as Hlt. unfold len in Hlen.
  unfold eliminated.
  destruct (Z.eqb_spec (turnIndex l) (len (delete (Z.to_nat (turnIndex l)) (aliveClients l))))
    as [Heq|Hne]; repeat mstep.
  - destruct (lookup_lt_len (delete (Z.to_nat (turnIndex l)) (aliveClients l)) 0) as [x Hx];
      [unfold len in *; lia|].
    by repeat mstep.
  - destruct (lookup_lt_len (delete (Z.to_nat (turnIndex l)) (aliveClients l)) (turnIndex l))
      as [x Hx]; [unfold len in *; lia|].
    by repeat mstep.
Qed.

Lemma not_elem_of_delete {A} (l : list A) k x :
  NoDup l -> l !! k = Some x -> x ∉ delete k l.
Proof.
  revert k. induction l as [|y l IH]; intros k Hnd Hk; [done|].
  apply NoDup_cons in Hnd as [Hy Hnd]. destruct k as [|k]; cbn in *.
  - by injection Hk as ->.
  - apply not_elem_of_cons. split; [|by eapply IH].
    intros ->. apply Hy. by eapply list_elem_of_lookup_2.
Qed.

Lemma announced_frame w s l c :
  aliveClients (lobby (announced w s l c)) = aliveClients l /\
  turnIndex (lobby (announced w s l c)) = turnIndex l /\
  clients (lobby (announced w s l c)) = clients l /\
  status (lobby (announced w s l c)) = status l /\
  currentAnswerPrev (lobby (announced w s l c)) = currentAnswerPrev l /\
  winnersName (lobby (announced w s l c)) = winnersName l /\
  heap (announced w s l c) = heap s.
Proof. unfold announced, timed, bump_round. cbn. by destruct (turnIndex l =? 0). Qed.

Lemma eliminated_spec l :
  valid_turn l -> 2 <= len (aliveClients l) ->
  aliveClients (eliminated l) = delete (Z.to_nat (turnIndex l)) (aliveClients l) /\
  len (aliveClients (eliminated l)) = len (aliveClients l) - 1 /\
  valid_turn (eliminated l) /\
  (turnIndex l = len (aliveClients l) - 1 -> turnIndex (eliminated l) = 0) /\
  (turnIndex l < len (aliveClients l) - 1 ->
   turnIndex (eliminated l) = turnIndex l /\
   aliveClients (eliminated l) !! Z.to_nat (turnIndex (eliminated l)) =
   aliveClients l !! Z.to_nat (turnIndex l + 1)).
Proof.
  intros Hv Hlen.
  pose proof (len_delete (aliveClients l) _ (lookup_lt_len _ _ Hv)) as Hd.
  destruct Hv as [H0 Hlt].
  unfold eliminated, valid_turn. cbn. rewrite Hd.
  destruct (Z.eqb_spec (turnIndex l) (len (aliveClients l) - 1)) as [Heq|Hne].
  - repeat split; [lia..|]. lia.
  - repeat split; try lia.
    rewrite list_lookup_delete_ge by lia. f_equal. lia.
Qed.

(** Elimination mode, under the conditions the lobby maintains while a
    game runs. *)
Lemma changeTurn_eliminate_ok w s :
  alive_wf s ->
  valid_turn (lobby s) ->
  2 <= len (aliveClients (lobby s)) ->
  exists p c,
    aliveClients (eliminated (lobby s)) !! Z.to_nat (turnIndex (eliminated (lobby s))) = Some p /\
    heap s !! p = Some c /\
    changeTurn w true s = Ok tt (announced w s (eliminated (lobby s)) c).
Proof.
  intros Hwf Hv Hlen.
  destruct (lookup_lt_len _ _ Hv) as [e He].
  destruct (eliminated_spec _ Hv Hlen) as (Ha & Hl & Hv' & _).
  destruct (lookup_lt_len _ _ Hv') as [p Hp].
  assert (is_Some (heap s !! p)) as [c Hc].
  { destruct Hwf as (Hall & _). eapply Forall_forall in Hall; [done|].
    apply list_elem_of_lookup_2 in Hp. rewrite Ha in Hp.
    by eapply list_elem_of_delete_inv. }
  exists p, c. repeat split; [done..|].
  rewrite changeTurn_halves.
  erewrite bind_ok by (eapply move_eliminate_ok; [done|apply Hv|done..]).
  by erewrite announce_ok by (cbn [lobby heap]; first [apply Hv' | done]).
Qed.

(** C1.  An eliminate-mode turn change ([changeTurn] with
    [removeCurrentClient = true]) in a running game with at least three
    alive clients and a valid turn pointer returns; the client that was
    at the pointer is no longer alive, the alive list is the old one
    without that entry (one shorter, order kept), the pointer is valid
    again: it is 0 when the last position was removed, and otherwise keeps
    its value, now denoting the client that followed the eliminated one. *)
Theorem C1_eliminate_turn_change w s :
  status (lobby s) = InProgress ->
  3 <= len (aliveClients (lobby s)) ->
  valid_turn (lobby s) ->
  alive_wf s ->
  exists s',
    changeTurn w true s = Ok tt s' /\
    (forall e, aliveClients (lobby s) !! Z.to_nat (turnIndex (lobby s)) = Some e ->
               e ∉ aliveClients (lobby s')) /\
    aliveClients (lobby s') =
      delete (Z.to_nat (turnIndex (lobby s))) (aliveClients (lobby s)) /\
    len (aliveClients (lobby s')) = len (aliveClients (lobby s)) - 1 /\
    valid_turn (lobby s') /\
    (turnIndex (lobby s) = len (aliveClients (lobby s)) - 1 ->
     turnIndex (lobby s') = 0) /\
    (turnIndex (lobby s) < len (aliveClients (lobby s)) - 1 ->
     turnIndex (lobby s') = turnIndex (lobby s) /\
     aliveClients (lobby s') !! Z.to_nat (turnIndex (lobby s')) =
     aliveClients (lobby s) !! Z.to_nat (turnIndex (lobby s) + 1)).
Proof.
  intros _ Hlen Hv Hwf.
  destruct (changeTurn_eliminate_ok w s Hwf Hv ltac:(lia)) as (p & c & _ & _ & Hrun).
  destruct (eliminated_spec _ Hv ltac:(lia)) as (Ha & Hl & Hv' & Hlast & Hmid).
  destruct (announced_frame w s (eliminated (lobby s)) c) as (Fa & Ft & _).
  eexists. split; [exact Hrun|].
  unfold valid_turn. rewrite Fa, Ft. repeat split; try done; try apply Hv'.
  - intros e He. rewrite Ha. apply not_elem_of_delete; [|done].
    destruct Hwf as (_ & Hnd & _). by eapply NoDup_fmap_1.
  - by apply Hmid.
  - by apply Hmid.
Qed.

(** ** Leaving *)

Lemma Index_spec l p :
  (p ∈ l -> 0 <= Index l p < len l /\ l !! Z.to_nat (Index l p) = Some p) /\
  (p ∉ l -> Index l p = -1).
Proof.
  induction l as [|x l [IHin IHout]]; cbn [Index].
  - split; [by intros ?%elem_of_nil|done].
  - destruct (decide (x = p)) as [->|Hne].
    + split; [|intros []; left]. intros _. unfold len. cbn. split; [lia|done].
    + split.
      * intros [?|Hin]%elem_of_cons; [congruence|].
        destruct (IHin Hin) as [Hr Hl]. unfold len in *.
        destruct (Z.ltb_spec (Index l p) 0); [lia|].
        cbn [length]. split; [lia|].
        replace (Z.to_nat (Index l p + 1)) with (S (Z.to_nat (Index l p))) by lia.
        done.
      * intros Hout%not_elem_of_cons. rewrite (IHout (proj2 Hout)). done.
Qed.

Lemma leave_absent w s p c :
  heap s !! p = Some c ->
  clients (lobby s) !! client_id c = None ->
  onClientLeave w p s = Ok tt s.
Proof.
  intros Hc Habs. unfold onClientLeave.
  repeat mstep. by rewrite Habs.
Qed.

Lemma leave_idle w s p c :
  heap s !! p = Some c ->
  is_Some (clients (lobby s) !! client_id c) ->
  status (lobby s) <> InProgress \/ p ∉ aliveClients (lobby s) ->
  onClientLeave w p s = Ok tt (departed s (client_id c)).
Proof.
  intros Hc [q Hq] Hidle. unfold onClientLeave.
  repeat mstep. rewrite Hq. repeat mstep.
  replace (negb (is_InProgress (status (lobby s))) ||
           negb (Contains_ptr (aliveClients (lobby s)) p)) with true; [done|].
  symmetry. apply orb_true_iff. destruct Hidle as [Hst|Hout].
  - left. by destruct (status (lobby s)).
  - right. unfold Contains_ptr. by rewrite bool_decide_eq_false_2.
Qed.

Lemma leave_last_two w s p c winner cw :
  heap s !! p = Some c ->
  is_Some (clients (lobby s) !! client_id c) ->
  status (lobby s) = InProgress ->
  aliveClients (lobby s) = [p; winner] \/ aliveClients (lobby s) = [winner; p] ->
  p <> winner ->
  heap s !! winner = Some cw ->
  onClientLeave w p s =
  Ok tt {| heap := heap s;
           lobby := won_by cw (lobby (departed s (client_id c)));
           sent := sent (departed s (client_id c)) ++
                   [to_all (lobby (departed s (client_id c)))
                           (server_msg GameOver (CInt (client_id cw)))] |}.
Proof.
  intros Hc [q Hq] Hst Halive Hne Hw. unfold onClientLeave.
  repeat mstep. rewrite Hq. repeat mstep. rewrite Hst. cbn [is_InProgress negb orb].
  unfold Contains_ptr.
  rewrite bool_decide_eq_true_2 by (destruct Halive as [-> | ->]; set_solver).
  cbn [negb].
  destruct Halive as [Ha|Ha]; rewrite Ha;
    match goal with |- context [len ?l =? 2] => change (len l =? 2) with true end;
    cbn iota; repeat mstep.
  - rewrite decide_True by done. by repeat mstep.
  - rewrite decide_False by done. by repeat mstep.
Qed.

Lemma leave_running w s p c :
  heap s !! p = Some c ->
  is_Some (clients (lobby s) !! client_id c) ->
  status (lobby s) = InProgress ->
  p ∈ aliveClients (lobby s) ->
  len (aliveClients (lobby s)) <> 2 ->
  onClientLeave w p s =
  (if Index (aliveClients (lobby s)) p =? turnIndex (lobby s) then changeTurn w true
   else
     do alive <- without_id (client_id c) (aliveClients (lobby s));
     run modify (with_aliveClients alive);
     if Index (aliveClients (lobby s)) p <? turnIndex (lobby s)
     then modify (with_turnIndex (wrap (turnIndex (lobby s) - 1)))
     else ret tt) (departed s (client_id c)).
Proof.
  intros Hc [q Hq] Hst Hin Hlen. unfold onClientLeave.
  repeat mstep. rewrite Hq. repeat mstep. rewrite Hst. cbn [is_InProgress negb orb].
  unfold Contains_ptr. rewrite bool_decide_eq_true_2 by done. cbn [negb].
  destruct (Z.eqb_spec (len (aliveClients (lobby s))) 2); [done|]. reflexivity.
Qed.

Lemma leave_on_turn w s p c :
  heap s !! p = Some c ->
  is_Some (clients (lobby s) !! client_id c) ->
  status (lobby s) = InProgress ->
  p ∈ aliveClients (lobby s) ->
  len (aliveClients (lobby s)) <> 2 ->
  Index (aliveClients (lobby s)) p = turnIndex (lobby s) ->
  onClientLeave w p s = changeTurn w true (departed s (client_id c)).
Proof.
  intros Hc Hq Hst Hin Hlen Hidx.
  rewrite (leave_running w s p c) by done.
  by rewrite Hidx, Z.eqb_refl.
Qed.

Lemma leave_off_turn w s p c :
  heap s !! p = Some c ->
  is_Some (clients (lobby s) !! client_id c) ->
  status (lobby s) = InProgress ->
  p ∈ aliveClients (lobby s) ->
  len (aliveClients (lobby s)) <> 2 ->
  Index (aliveClients (lobby s)) p <> turnIndex (lobby s) ->
  alive_wf s ->
  onClientLeave w p s =
  Ok tt {| heap := heap s;
           lobby := dropped p (lobby (departed s (client_id c)));
           sent := sent (departed s (client_id c)) |}.
Proof.
  intros Hc Hq Hst Hin Hlen Hidx (Hall & Hnd & _).
  rewrite (leave_running w s p c) by done.
  destruct (Z.eqb_spec (Index (aliveClients (lobby s)) p) (turnIndex (lobby s))); [done|].
  destruct (proj1 (Index_spec _ _) Hin) as [Hr Hl].
  erewrite bind_ok by (by apply without_id_ok).
  rewrite <- (id_of_Some _ _ _ Hc). cbn [departed heap].
  rewrite (filter_key_delete (id_of (heap s)) _ _ p Hnd Hl).
  repeat mstep. unfold dropped. cbn.
  by destruct (Index (aliveClients (lobby s)) p <? turnIndex (lobby s)).
Qed.

Lemma two_alive (l : list ptr) p :
  len l = 2 -> p ∈ l -> NoDup l ->
  exists q, (l = [p; q] \/ l = [q; p]) /\ p <> q.
Proof.
  intros Hlen Hin Hnd. destruct l as [|a [|b [|? ?]]]; unfold len in Hlen; cbn in Hlen; try lia.
  apply NoDup_cons in Hnd as [Hab _]. rewrite list_elem_of_singleton in Hab.
  apply elem_of_cons in Hin as [->|Hin].
  - exists b. split; [by left|done].
  - apply list_elem_of_singleton in Hin as ->. exists a. split; [by right|done].
Qed.

Lemma alive_wf_NoDup s : alive_wf s -> NoDup (aliveClients (lobby s)).
Proof. intros (_ & Hnd & _). by eapply NoDup_fmap_1. Qed.

Lemma alive_wf_lookup s p :
  alive_wf s -> p ∈ aliveClients (lobby s) -> is_Some (heap s !! p).
Proof. intros (Hall & _) Hin. by eapply Forall_forall in Hall. Qed.

(** A leave event for a registered client, branch by branch. *)
Lemma onClientLeave_present w s p c :
  heap s !! p = Some c ->
  is_Some (clients (lobby s) !! client_id c) ->
  alive_wf s ->
  running_wf (lobby s) ->
  exists s',
    onClientLeave w p s = Ok tt s' /\
    heap s' = heap s /\
    clients (lobby s') = delete (client_id c) (clients (lobby s)) /\
    clients (lobby s') !! client_id c = None /\
    (status (lobby s) = InProgress -> p ∈ aliveClients (lobby s) ->
     3 <= len (aliveClients (lobby s)) ->
     (p ∉ aliveClients (lobby s')) /\
     aliveClients (lobby s') =
       delete (Z.to_nat (Index (aliveClients (lobby s)) p)) (aliveClients (lobby s)) /\
     len (aliveClients (lobby s')) = len (aliveClients (lobby s)) - 1) /\
    (status (lobby s) = InProgress -> p ∈ aliveClients (lobby s) ->
     len (aliveClients (lobby s)) = 2 ->
     status (lobby s') = Over) /\
    (status (lobby s) <> InProgress ->
     aliveClients (lobby s') = aliveClients (lobby s)).
Proof.
  intros Hc Hsome Hwf Hrun.
  destruct (decide (status (lobby s) = InProgress /\ p ∈ aliveClients (lobby s)))
    as [[Hst Hin]|Hidle].
  2: { exists (departed s (client_id c)). split.
       { apply leave_idle; [done..|]. apply not_and_l in Hidle. tauto. }
       cbn. rewrite lookup_delete_eq. repeat split; try done; intros; tauto. }
  destruct (Hrun Hst) as [Hv Hlen].
  destruct (proj1 (Index_spec _ _) Hin) as [Hr Hl].
  pose proof (alive_wf_NoDup _ Hwf) as Hnd.
  destruct (decide (len (aliveClients (lobby s)) = 2)) as [H2|H2].
  { destruct (two_alive _ _ H2 Hin Hnd) as (q & Hpq & Hne).
    assert (is_Some (heap s !! q)) as [cq Hcq].
    { apply alive_wf_lookup; [done|]. destruct Hpq as [E|E]; rewrite E, !elem_of_cons; tauto. }
    eexists. split; [by eapply leave_last_two|].
    cbn. rewrite lookup_delete_eq. repeat split; intros; try done; lia. }
  destruct (decide (Index (aliveClients (lobby s)) p = turnIndex (lobby s))) as [Hon|Hoff].
  - destruct (changeTurn_eliminate_ok w (departed s (client_id c)))
      as (x & cx & _ & _ & Hct); [done..|].
    exists (announced w (departed s (client_id c))
                      (eliminated (lobby (departed s (client_id c)))) cx).
    split; [by rewrite (leave_on_turn w s p c)|].
    destruct (announced_frame w (departed s (client_id c))
                (eliminated (lobby (departed s (client_id c)))) cx)
      as (Fa & _ & Fc & Fs & _ & _ & Fh).
    destruct (eliminated_spec (lobby (departed s (client_id c))) Hv Hlen)
      as (Ea & El & _).
    rewrite Fa, Fc, Fs, Fh, El, Ea. cbn. rewrite lookup_delete_eq, <- Hon.
    repeat split; intros; try done; try lia. by apply not_elem_of_delete.
  - eexists. split; [by apply leave_off_turn|].
    unfold dropped.
    destruct (Index (aliveClients (lobby (departed s (client_id c)))) p <?
              turnIndex (lobby (departed s (client_id c))));
      cbn; rewrite lookup_delete_eq, len_delete by done;
      repeat split; intros; try done; try lia; by apply not_elem_of_delete.
Qed.

(** C3, as the code has it.  A leave event for a client registered in the
    lobby returns and deletes the client from [clients] in every branch.
    The client also leaves [aliveClients] when the game is in progress
    with more than two alive clients: the alive list is then the old one
    without that client.  When the game is not in progress the handler
    returns at its guard and leaves [aliveClients] as it was; with exactly
    two alive clients the game goes to Over. *)
Theorem C3_leave_removes_client w s p c :
  heap s !! p = Some c ->
  clients (lobby s) !! client_id c = Some p ->
  alive_wf s ->
  running_wf (lobby s) ->
  exists s',
    onClientLeave w p s = Ok tt s' /\
    clients (lobby s') = delete (client_id c) (clients (lobby s)) /\
    clients (lobby s') !! client_id c = None /\
    (status (lobby s) = InProgress -> p ∈ aliveClients (lobby s) ->
     3 <= len (aliveClients (lobby s)) ->
     (p ∉ aliveClients (lobby s')) /\
     aliveClients (lobby s') =
       delete (Z.to_nat (Index (aliveClients (lobby s)) p)) (aliveClients (lobby s)) /\
     len (aliveClients (lobby s')) = len (aliveClients (lobby s)) - 1) /\
    (status (lobby s) = InProgress -> p ∈ aliveClients (lobby s) ->
     len (aliveClients (lobby s)) = 2 ->
     status (lobby s') = Over) /\
    (status (lobby s) <> InProgress ->
     aliveClients (lobby s') = aliveClients (lobby s)).
Proof.
  intros Hc Hq Hwf Hrun.
  destruct (onClientLeave_present w s p c Hc (mk_is_Some _ _ Hq) Hwf Hrun)
    as (s' & H & _ & Hrest).
  by exists s'.
Qed.

(** ** Turn expiry *)

Lemma expire_idle w s :
  status (lobby s) <> InProgress -> onTurnExpired w s = Ok tt s.
Proof.
  intros Hst. unfold onTurnExpired. mstep.
  by destruct (status (lobby s)).
Qed.

Lemma expire_many w s cur c :
  status (lobby s) = InProgress ->
  0 <= turnIndex (lobby s) ->
  aliveClients (lobby s) !! Z.to_nat (turnIndex (lobby s)) = Some cur ->
  heap s !! cur = Some c ->
  2 < len (aliveClients (lobby s)) ->
  onTurnExpired w s =
  changeTurn w true (told (server_msg TurnExpired (CInt (client_id c))) s).
Proof.
  intros Hst H0 Hcur Hc Hlen. unfold onTurnExpired. mstep.
  rewrite Hst. cbn [is_InProgress negb]. repeat mstep.
  destruct (Z.gtb_spec (len (aliveClients (lobby s))) 2); [done|lia].
Qed.

Lemma expire_last_two w s loser winner cl cw :
  status (lobby s) = InProgress ->
  (aliveClients (lobby s) = [loser; winner] /\ turnIndex (lobby s) = 0) \/
  (aliveClients (lobby s) = [winner; loser] /\ turnIndex (lobby s) = 1) ->
  heap s !! loser = Some cl ->
  heap s !! winner = Some cw ->
  onTurnExpired w s =
  Ok tt {| heap := heap s;
           lobby := won_by cw (with_aliveClients [winner] (lobby s));
           sent := sent s ++
                   [to_all (lobby s) (server_msg TurnExpired (CInt (client_id cl)));
                    to_all (lobby s) (server_msg TurnExpired (CInt (client_id cl)));
                    to_all (lobby s) (server_msg GameOver (CInt (client_id cw)))] |}.
Proof.
  intros Hst Hcase Hl Hw. unfold onTurnExpired. mstep.
  rewrite Hst. cbn [is_InProgress negb].
  destruct Hcase as [[Ha Ht]|[Ha Ht]]; rewrite Ha, Ht;
    repeat mstep;
    match goal with |- context [len ?l >? 2] => change (len l >? 2) with false end;
    cbn iota; repeat mstep; cbn [Z.eqb]; repeat mstep;
    rewrite broadcast_ok; unfold won_by, to_all; cbn; by rewrite <- !app_assoc.
Qed.

(** ** The last two alive clients *)

(** C4.  With exactly two alive clients in a running game, eliminating
    one of them -- its turn expires, or it disconnects -- ends the game:
    the status becomes Over, the other client's display name is stored as
    the winner's name, and the last broadcast is game_over with the other
    client's id (after the two turn_expired broadcasts of an expiry, or
    after the client_left broadcast of a leave). *)
Theorem C4_last_two_alive w s loser winner cl cw :
  status (lobby s) = InProgress ->
  aliveClients (lobby s) = [loser; winner] \/ aliveClients (lobby s) = [winner; loser] ->
  loser <> winner ->
  heap s !! loser = Some cl ->
  heap s !! winner = Some cw ->
  (aliveClients (lobby s) !! Z.to_nat (turnIndex (lobby s)) = Some loser ->
   valid_turn (lobby s) ->
   exists s',
     onTurnExpired w s = Ok tt s' /\
     status (lobby s') = Over /\
     winnersName (lobby s') = client_displayName cw /\
     sent s' = sent s ++
       [to_all (lobby s) (server_msg TurnExpired (CInt (client_id cl)));
        to_all (lobby s) (server_msg TurnExpired (CInt (client_id cl)));
        to_all (lobby s) (server_msg GameOver (CInt (client_id cw)))]) /\
  (clients (lobby s) !! client_id cl = Some loser ->
   exists s',
     onClientLeave w loser s = Ok tt s' /\
     status (lobby s') = Over /\
     winnersName (lobby s') = client_displayName cw /\
     sent s' = sent s ++
       [to_all (lobby s') (server_msg ClientLeft (CInt (client_id cl)));
        to_all (lobby s') (server_msg GameOver (CInt (client_id cw)))]).
Proof.
  intros Hst Halive Hne Hl Hw. split.
  - intros Hturn [H0 Hlt].
    eexists. split.
    + apply (expire_last_two w s loser winner cl cw); [done| |done..].
      destruct Halive as [Ha|Ha]; rewrite Ha in Hturn, Hlt; unfold len in Hlt; cbn in Hlt.
      * left. split; [done|].
        destruct (Z.to_nat (turnIndex (lobby s))) as [|[|?]] eqn:E; cbn in Hturn;
          [lia|congruence|lia].
      * right. split; [done|].
        destruct (Z.to_nat (turnIndex (lobby s))) as [|[|?]] eqn:E; cbn in Hturn;
          [congruence|lia|lia].
    + by cbn.
  - intros Hq. eexists. split.
    + apply (leave_last_two w s loser cl winner cw); [done|by rewrite Hq|done..].
    + cbn. repeat split. by rewrite <- app_assoc.
Qed.

(** ** Advancing the turn *)

Lemma wrap_small z : min_int <= z <= max_int -> wrap z = z.
Proof.
  unfold wrap, min_int, max_int.
  change (2 ^ 63) with 9223372036854775808.
  change (2 ^ 64) with 18446744073709551616.
  intros H. rewrite Z.mod_small by lia. lia.
Qed.

Ltac int_lia :=
  unfold min_int, max_int in *;
  change (2 ^ 63) with 9223372036854775808 in *;
  lia.

Lemma advanced_spec l :
  -1 <= turnIndex l < len (aliveClients l) ->
  0 < len (aliveClients l) ->
  turnIndex l < max_int ->
  aliveClients (advanced l) = aliveClients l /\
  turnIndex (advanced l) = (turnIndex l + 1) mod len (aliveClients l) /\
  valid_turn (advanced l).
Proof.
  intros Ht Hpos Hfit. unfold advanced, valid_turn. cbn.
  rewrite wrap_small by int_lia.
  rewrite Z.rem_mod_nonneg by lia.
  pose proof (Z.mod_pos_bound (turnIndex l + 1) (len (aliveClients l)) ltac:(lia)).
  repeat split; lia.
Qed.

Lemma move_advance_ok s :
  -1 <= turnIndex (lobby s) < len (aliveClients (lobby s)) ->
  0 < len (aliveClients (lobby s)) ->
  turnIndex (lobby s) < max_int ->
  move_pointer false s =
  Ok tt {| heap := heap s; lobby := advanced (lobby s); sent := sent s |}.
Proof.
  intros Ht Hpos Hfit.
  destruct (advanced_spec _ Ht Hpos Hfit) as (_ & _ & Hv). unfold advanced in Hv. cbn in Hv.
  destruct (lookup_lt_len _ _ Hv) as [x Hx].
  unfold move_pointer. cbn [negb]. mstep.
  destruct (Z.eqb_spec (len (aliveClients (lobby s))) 0); [lia|].
  destruct (Z.gtb_spec (turnIndex (lobby s)) (-1)).
  - destruct (lookup_lt_len (aliveClients (lobby s)) (turnIndex (lobby s))) as [y Hy]; [lia|].
    erewrite bind_ok.
    2:{ erewrite bind_ok by (apply index_ok; [lia|done]).
        apply index_ok; [apply Hv|done]. }
    reflexivity.
  - erewrite bind_ok by (apply index_ok; [apply Hv|done]). reflexivity.
Qed.

Lemma changeTurn_advance_ok w s :
  Forall (fun p => is_Some (heap s !! p)) (aliveClients (lobby s)) ->
  -1 <= turnIndex (lobby s) < len (aliveClients (lobby s)) ->
  0 < len (aliveClients (lobby s)) ->
  turnIndex (lobby s) < max_int ->
  exists p c,
    aliveClients (lobby s) !! Z.to_nat (turnIndex (advanced (lobby s))) = Some p /\
    heap s !! p = Some c /\
    changeTurn w false s = Ok tt (announced w s (advanced (lobby s)) c).
Proof.
  intros Hall Ht Hpos Hfit.
  destruct (advanced_spec _ Ht Hpos Hfit) as (Ha & _ & Hv).
  destruct (lookup_lt_len _ _ Hv) as [p Hp]. rewrite Ha in Hp.
  assert (is_Some (heap s !! p)) as [c Hc].
  { eapply Forall_forall in Hall; [done|]. by eapply list_elem_of_lookup_2. }
  exists p, c. repeat split; [done..|].
  rewrite changeTurn_halves.
  erewrite bind_ok by (by apply move_advance_ok).
  by erewrite announce_ok by (cbn [lobby heap]; first [apply Hv | done]).
Qed.

(** ** Answers *)

Lemma prefix_spec (p s : string) :
  String.prefix p s = true <-> exists post, s = String.append p post.
Proof.
  revert s. induction p as [|a p IH]; intros [|b s]; cbn.
  - split; [eauto|done].
  - split; [eauto|done].
  - split; [done|]. intros [post H]. discriminate.
  - destruct (Ascii.ascii_dec a b) as [->|Hne].
    + rewrite IH. split; intros [post H]; exists post.
      * subst s. reflexivity.
      * change (String b s = String b (String.append p post)) in H. congruence.
    + split; [done|]. intros [post H].
      change (String b s = String a (String.append p post)) in H. congruence.
Qed.

(** [Contains] is the substring test. *)
Lemma Contains_spec (s sub : string) :
  Contains s sub = true <->
  exists pre post, s = String.append pre (String.append sub post).
Proof.
  induction s as [|a s IH]; cbn [Contains]; rewrite orb_true_iff, prefix_spec.
  - split.
    + intros [[post H]|?]; [|done]. by exists EmptyString, post.
    + intros (pre & post & H). left. destruct pre; [by exists post|discriminate].
  - rewrite IH. split.
    + intros [[post H]|(pre & post & H)].
      * by exists EmptyString, post.
      * exists (String a pre), post. subst s. reflexivity.
    + intros (pre & post & H). destruct pre as [|b pre].
      * left. by exists post.
      * right. exists pre, post.
        change (String a s = String b (String.append pre (String.append sub post))) in H.
        congruence.
Qed.

Lemma from_turn_holder_ok m s cur c :
  status (lobby s) = InProgress ->
  0 <= turnIndex (lobby s) ->
  aliveClients (lobby s) !! Z.to_nat (turnIndex (lobby s)) = Some cur ->
  heap s !! cur = Some c ->
  from_turn_holder m s = Ok (From m =? client_id c) s.
Proof.
  intros Hst H0 Hcur Hc. unfold from_turn_holder. mstep.
  rewrite Hst. cbn [is_InProgress negb]. by repeat mstep.
Qed.

(** C5.  An answer that is processed (game in progress, sent by the turn
    holder, string payload) is checked in this order: not a dictionary word,
    equal to the challenge, not containing the challenge.  The first check
    that fails broadcasts answer_rejected with the submitted text and
    changes nothing else.  An answer that passes all three is broadcast as
    accepted with its text, and the turn advances without removing
    anyone. *)
Theorem C5_answer_validation_order w s m cur c answer :
  status (lobby s) = InProgress ->
  valid_turn (lobby s) ->
  alive_wf s ->
  aliveClients (lobby s) !! Z.to_nat (turnIndex (lobby s)) = Some cur ->
  heap s !! cur = Some c ->
  From m = client_id c ->
  Content_ m = CString answer ->
  (IsValidWord w answer = false ->
   onAnswerSubmitted w m s =
   Ok tt (told (server_msg AnswerRejected (CString answer)) s)) /\
  (IsValidWord w answer = true ->
   answer = currentChallenge (lobby s) ->
   onAnswerSubmitted w m s =
   Ok tt (told (server_msg AnswerRejected (CString answer)) s)) /\
  (IsValidWord w answer = true ->
   answer <> currentChallenge (lobby s) ->
   Contains answer (currentChallenge (lobby s)) = false ->
   onAnswerSubmitted w m s =
   Ok tt (told (server_msg AnswerRejected (CString answer)) s)) /\
  (IsValidWord w answer = true ->
   answer <> currentChallenge (lobby s) ->
   Contains answer (currentChallenge (lobby s)) = true ->
   exists s' turn,
     onAnswerSubmitted w m s = Ok tt s' /\
     sent s' = sent s ++ [to_all (lobby s) (server_msg AnswerAccepted (CString answer));
                          to_all (lobby s) turn] /\
     Type_ turn = ClientsTurn /\
     aliveClients (lobby s') = aliveClients (lobby s) /\
     turnIndex (lobby s') = (turnIndex (lobby s) + 1) mod len (aliveClients (lobby s))).
Proof.
  intros Hst [H0 Hlt] Hwf Hcur Hc Hfrom Hcontent.
  assert (forall k : bool -> M unit, (do ok <- from_turn_holder m; k ok) s = k true s) as Hguard.
  { intros k. erewrite bind_ok by (by eapply from_turn_holder_ok).
    by rewrite Hfrom, Z.eqb_refl. }
  unfold onAnswerSubmitted. rewrite Hguard, Hcontent. mstep.
  repeat split.
  - intros ->. cbn [negb]. apply broadcast_ok.
  - intros -> ->. cbn [negb]. rewrite String.eqb_refl. apply broadcast_ok.
  - intros -> Hne ->. cbn [negb].
    destruct (String.eqb_spec answer (currentChallenge (lobby s))); [done|].
    apply broadcast_ok.
  - intros -> Hne ->. cbn [negb].
    destruct (String.eqb_spec answer (currentChallenge (lobby s))); [done|].
    mstep.
    destruct (changeTurn_advance_ok w
                (told (server_msg AnswerAccepted (CString answer)) s))
      as (p & cp & _ & _ & Hrun); [apply Hwf|cbn; lia|cbn; lia|cbn; destruct Hwf as (_ & _ & ?); lia|].
    eexists _, _. split; [exact Hrun|].
    destruct Hwf as (_ & _ & Hfit).
    destruct (advanced_spec (lobby s)) as (Ha & Ht & _); [lia|lia|lia|].
    destruct (announced_frame w (told (server_msg AnswerAccepted (CString answer)) s)
                (advanced (lobby s)) cp) as (Fa & Ft & _).
    cbn [lobby told] in *. rewrite Fa, Ft, Ha, Ht.
    repeat split; [cbn; by rewrite <- app_assoc|reflexivity].
Qed.

(** ** Sorting the roster *)

Lemma by_id_neg c1 c2 :
  fits c1 -> fits c2 -> (by_id c1 c2 <? 0) = (client_id c1 <? client_id c2).
Proof.
  unfold fits, by_id. intros H1 H2.
  rewrite wrap_small by int_lia.
  destruct (Z.ltb_spec (client_id c1 - client_id c2) 0),
           (Z.ltb_spec (client_id c1) (client_id c2)); lia.
Qed.

Lemma insert_client_perm x l : insert_client x l ≡ₚ x :: l.
Proof.
  induction l as [|y l IH]; [done|]. cbn.
  destruct (by_id x.2 y.2 <? 0); [done|].
  rewrite IH. apply Permutation_swap.
Qed.

Lemma SortedFunc_perm l : SortedFunc l ≡ₚ l.
Proof.
  induction l as [|x l IH]; [done|]. cbn.
  by rewrite insert_client_perm, IH.
Qed.

Lemma insert_client_sorted x l :
  fits x.2 -> Forall (fun y => fits y.2) l ->
  StronglySorted id_le l -> StronglySorted id_le (insert_client x l).
Proof.
  intros Hx Hall Hs. induction Hs as [|y l Hs IH Hy]; cbn.
  - by repeat constructor.
  - apply Forall_cons in Hall as [Hfy Hall].
    rewrite by_id_neg by done.
    destruct (Z.ltb_spec (client_id x.2) (client_id y.2)) as [Hlt|Hge].
    + constructor; [by constructor|].
      constructor; [unfold id_le; lia|].
      eapply Forall_impl; [exact Hy|]. unfold id_le. intros; lia.
    + constructor; [by apply IH|].
      rewrite insert_client_perm. constructor; [done|done].
Qed.

Lemma SortedFunc_sorted l :
  Forall (fun y => fits y.2) l -> StronglySorted id_le (SortedFunc l).
Proof.
  induction 1 as [|x l Hx Hall IH]; cbn; [constructor|].
  apply insert_client_sorted; [done| |done].
  by rewrite SortedFunc_perm.
Qed.

Lemma attach_cons h p c ps :
  h !! p = Some c -> attach h (p :: ps) = (p, c) :: attach h ps.
Proof. intros H. unfold attach. cbn. by rewrite H. Qed.

Lemma attach_spec h ps :
  Forall (fun p => is_Some (h !! p)) ps ->
  (attach h ps).*1 = ps /\
  Forall (fun pc => h !! pc.1 = Some pc.2) (attach h ps).
Proof.
  induction 1 as [|p ps [c Hc] _ [IH1 IH2]]; [done|].
  rewrite (attach_cons _ _ _ _ Hc). cbn. split; [by f_equal|by constructor].
Qed.

Lemma deref_all_ok ps s :
  Forall (fun p => is_Some (heap s !! p)) ps ->
  deref_all ps s = Ok (attach (heap s) ps) s.
Proof.
  induction 1 as [|p ps [c Hc] _ IH]; [done|].
  cbn [deref_all]. rewrite (attach_cons _ _ _ _ Hc).
  by do 2 (erewrite bind_ok by first [by apply deref_ok | done]).
Qed.

(** ** The roster in canonical order *)

Lemma clients_wf_values s :
  clients_wf s ->
  Forall (fun p => exists c, heap s !! p = Some c /\ fits c) (Values (clients (lobby s))) /\
  id_of (heap s) <$> Values (clients (lobby s)) =
    Some <$> (map_to_list (clients (lobby s))).*1.
Proof.
  unfold clients_wf, Values. rewrite map_Forall_to_list.
  induction 1 as [|[k p] l [Hid Hk] _ [IH1 IH2]]; [done|].
  cbn in *. split.
  - constructor; [|done]. unfold id_of in Hid.
    destruct (heap s !! p) as [c|] eqn:E; [|done].
    exists c. split; [done|]. unfold fits. cbn in Hid. injection Hid as ->. done.
  - by rewrite Hid, IH2.
Qed.

Lemma sorted_asc h (l : list (ptr * Client)) :
  Forall (fun pc => h !! pc.1 = Some pc.2) l ->
  StronglySorted id_le l ->
  NoDup ((fun pc => client_id pc.2) <$> l) ->
  StronglySorted (asc h) l.*1.
Proof.
  intros Hh Hs. induction Hs as [|x l Hs IH Hx]; cbn; [constructor|].
  apply Forall_cons in Hh as [Hhx Hh].
  intros [Hnx Hnd]%NoDup_cons. constructor; [by apply IH|].
  apply Forall_fmap, Forall_forall. intros y Hy. cbn.
  exists (client_id x.2), (client_id y.2).
  rewrite (id_of_Some _ _ _ Hhx).
  rewrite (id_of_Some h y.1 y.2) by (by eapply Forall_forall in Hh).
  repeat split.
  assert (client_id x.2 <> client_id y.2).
  { intros Heq. apply Hnx. rewrite Heq. apply list_elem_of_fmap. by exists y. }
  eapply Forall_forall in Hx; [|done]. unfold id_le in Hx. lia.
Qed.

(** What [resetAliveClients] computes: the clients of the lobby, in
    ascending order of their ids. *)
Lemma resetAliveClients_ok s :
  clients_wf s ->
  resetAliveClients s =
    Ok tt {| heap := heap s;
             lobby := with_aliveClients (roster (heap s) (clients (lobby s))) (lobby s);
             sent := sent s |} /\
  roster (heap s) (clients (lobby s)) ≡ₚ Values (clients (lobby s)) /\
  StronglySorted (asc (heap s)) (roster (heap s) (clients (lobby s))).
Proof.
  intros Hwf. destruct (clients_wf_values s Hwf) as [Hall Hids].
  assert (Forall (fun p => is_Some (heap s !! p)) (Values (clients (lobby s)))) as Halloc.
  { eapply Forall_impl; [exact Hall|]. intros p (c & Hc & _). by exists c. }
  destruct (attach_spec (heap s) _ Halloc) as [Hfst Hcs].
  set (cs := attach (heap s) (Values (clients (lobby s)))) in *.
  assert (Forall (fun pc => heap s !! pc.1 = Some pc.2) (SortedFunc cs)) as Hsorted_heap
    by (by rewrite SortedFunc_perm).
  assert (Forall (fun y : ptr * Client => fits y.2) cs) as Hfits.
  { apply Forall_forall. intros pc Hpc.
    assert (pc.1 ∈ Values (clients (lobby s))) as Hin.
    { rewrite <- Hfst. apply list_elem_of_fmap. by exists pc. }
    eapply Forall_forall in Hall as (c & Hc & Hf); [|exact Hin].
    eapply Forall_forall in Hcs; [|exact Hpc]. cbn in Hcs. congruence. }
  unfold roster. fold cs. split; [|split].
  - unfold resetAliveClients, sortedClients.
    erewrite bind_ok; [reflexivity|].
    mstep. by erewrite bind_ok by (by apply deref_all_ok).
  - by rewrite SortedFunc_perm, Hfst.
  - apply sorted_asc; [done|by apply SortedFunc_sorted|].
    rewrite SortedFunc_perm.
    apply (NoDup_fmap_1 Some).
    assert (Some <$> ((fun pc : ptr * Client => client_id pc.2) <$> cs) =
            id_of (heap s) <$> cs.*1) as ->.
    { rewrite <- !list_fmap_compose. apply Forall_fmap_ext.
      eapply Forall_impl; [exact Hcs|]. intros pc Hpc. cbn.
      by rewrite (id_of_Some _ _ _ Hpc). }
    rewrite Hfst, Hids. apply NoDup_fmap_2; [apply _|].
    apply NoDup_fst_map_to_list.
Qed.

(** ** Starting and restarting a game *)

Lemma wrap_0 : wrap 0 = 0.
Proof. reflexivity. Qed.

Lemma first_turn_ok w s :
  Forall (fun p => is_Some (heap s !! p)) (aliveClients (lobby s)) ->
  0 < len (aliveClients (lobby s)) ->
  turnIndex (lobby s) = -1 ->
  exists first c,
    aliveClients (lobby s) !! 0%nat = Some first /\
    heap s !! first = Some c /\
    changeTurn w false s = Ok tt (announced w s (with_turnIndex 0 (lobby s)) c).
Proof.
  intros Hall Hpos Hti.
  destruct (changeTurn_advance_ok w s Hall) as (p & c & Hp & Hc & Hrun);
    [lia|done|rewrite Hti; int_lia|].
  assert (advanced (lobby s) = with_turnIndex 0 (lobby s)) as Hadv.
  { unfold advanced. rewrite Hti. change (-1 + 1) with 0. rewrite wrap_0.
    by rewrite Z.rem_0_l by lia. }
  rewrite Hadv in Hp, Hrun. by exists p, c.
Qed.

Lemma size_Values (m : gmap Z ptr) : len (Values m) = Z.of_nat (size m).
Proof. unfold len, Values. by rewrite length_fmap, length_map_to_list. Qed.

Lemma start_guard_false (g : gameStatus -> bool) l :
  g (status l) = false \/ Z.of_nat (size (clients l)) < 2 ->
  g (status l) && (Z.of_nat (size (clients l)) >=? 2) = false.
Proof.
  intros [->|Hlt]; [done|]. apply andb_false_iff. right.
  destruct (Z.geb_spec (Z.of_nat (size (clients l))) 2); [lia|done].
Qed.

Lemma start_guard_true (g : gameStatus -> bool) l :
  g (status l) = true -> 2 <= Z.of_nat (size (clients l)) ->
  g (status l) && (Z.of_nat (size (clients l)) >=? 2) = true.
Proof.
  intros -> Hge. destruct (Z.geb_spec (Z.of_nat (size (clients l))) 2); [done|lia].
Qed.

(** The lowest id of the roster sits at the head of the sorted list. *)
Lemma sorted_head_least s alive first c :
  clients_wf s ->
  alive ≡ₚ Values (clients (lobby s)) ->
  StronglySorted (asc (heap s)) alive ->
  alive !! 0%nat = Some first ->
  heap s !! first = Some c ->
  forall k p, clients (lobby s) !! k = Some p -> client_id c <= k.
Proof.
  intros Hwf Hperm Hs Hfirst Hc k p Hkp.
  assert (id_of (heap s) p = Some k) as Hidp by (by destruct (Hwf k p Hkp)).
  assert (p ∈ alive) as Hin.
  { rewrite Hperm. unfold Values. apply list_elem_of_fmap. exists (k, p).
    split; [done|]. by apply elem_of_map_to_list. }
  destruct alive as [|x rest]; [done|]. injection Hfirst as ->.
  apply StronglySorted_inv in Hs as [_ Hlt].
  apply elem_of_cons in Hin as [->|Hin].
  - rewrite (id_of_Some _ _ _ Hc) in Hidp. injection Hidp as ->. lia.
  - eapply Forall_forall in Hlt as (i & j & Hi & Hj & Hij); [|exact Hin].
    rewrite (id_of_Some _ _ _ Hc) in Hi. rewrite Hidp in Hj.
    injection Hi as <-. injection Hj as <-. lia.
Qed.

(** The state in which the first turn of a game is announced. *)
Lemma onStartGame_ok w m s :
  status (lobby s) = WaitingForPlayers ->
  2 <= Z.of_nat (size (clients (lobby s))) ->
  clients_wf s ->
  turnIndex (lobby s) = -1 ->
  exists first c,
    roster (heap s) (clients (lobby s)) !! 0%nat = Some first /\
    heap s !! first = Some c /\
    onStartGame w m s =
    Ok tt (announced w s
             (with_turnIndex 0
                (with_aliveClients (roster (heap s) (clients (lobby s)))
                   (with_status InProgress (lobby s)))) c).
Proof.
  intros Hst Hsize Hwf Hti.
  destruct (resetAliveClients_ok
              {| heap := heap s; lobby := with_status InProgress (lobby s); sent := sent s |})
    as (Hreset & Hperm & Hsorted); [done|].
  cbn [heap lobby sent with_status clients] in *.
  set (alive := roster (heap s) (clients (lobby s))) in *.
  set (s1 := {| heap := heap s;
                lobby := with_aliveClients alive (with_status InProgress (lobby s));
                sent := sent s |}).
  destruct (first_turn_ok w s1) as (first & c & Hfirst & Hc & Hrun).
  { cbn. rewrite Hperm. destruct (clients_wf_values s Hwf) as [Hall _].
    eapply Forall_impl; [exact Hall|]. intros p (cp & Hcp & _). by exists cp. }
  { cbn. unfold len. rewrite Hperm. fold (len (Values (clients (lobby s)))).
    rewrite size_Values. lia. }
  { done. }
  exists first, c. split; [done|]. split; [done|].
  unfold onStartGame. mstep. rewrite start_guard_true by (by rewrite ?Hst).
  mstep. erewrite bind_ok by exact Hreset. exact Hrun.
Qed.

(** The state a restart advances the turn from, and the state it ends
    in. *)
Lemma onRestartGame_ok w m s :
  status (lobby s) = Over ->
  2 <= Z.of_nat (size (clients (lobby s))) ->
  clients_wf s ->
  exists first c,
    roster (heap s) (clients (lobby s)) !! 0%nat = Some first /\
    heap s !! first = Some c /\
    onRestartGame w m s =
      changeTurn w false (told (server_msg RestartGame CNil)
        {| heap := heap s;
           lobby := with_turnRounds 0
                      (with_turnIndex (-1)
                         (with_status InProgress
                            (with_aliveClients (roster (heap s) (clients (lobby s)))
                               (lobby s))));
           sent := sent s |}) /\
    onRestartGame w m s =
    Ok tt (announced w (told (server_msg RestartGame CNil) s)
             (with_turnIndex 0
                (with_turnRounds 0
                   (with_status InProgress
                      (with_aliveClients (roster (heap s) (clients (lobby s)))
                         (lobby s))))) c).
Proof.
  intros Hst Hsize Hwf.
  destruct (resetAliveClients_ok s Hwf) as (Hreset & Hperm & Hsorted).
  set (alive := roster (heap s) (clients (lobby s))) in *.
  set (s1 := told (server_msg RestartGame CNil)
               {| heap := heap s;
                  lobby := with_turnRounds 0
                             (with_turnIndex (-1)
                                (with_status InProgress
                                   (with_aliveClients alive (lobby s))));
                  sent := sent s |}).
  destruct (first_turn_ok w s1) as (first & c & Hfirst & Hc & Hrun).
  { cbn. rewrite Hperm. destruct (clients_wf_values s Hwf) as [Hall _].
    eapply Forall_impl; [exact Hall|]. intros p (cp & Hcp & _). by exists cp. }
  { cbn. unfold len. rewrite Hperm. fold (len (Values (clients (lobby s)))).
    rewrite size_Values. lia. }
  { done. }
  exists first, c. split; [done|]. split; [done|].
  assert (onRestartGame w m s = changeTurn w false s1) as Heq.
  { unfold onRestartGame. mstep. rewrite start_guard_true by (by rewrite ?Hst).
    erewrite bind_ok by exact Hreset. by repeat mstep. }
  split; [done|]. by rewrite Heq, Hrun.
Qed.

(** C7.  A start_game message is ignored, leaving the state as it was,
    unless the lobby is waiting for players and holds at least two
    clients.  On a valid start the game is in progress, the alive list is
    the whole roster in ascending order of id, and the first turn goes to
    the client with the lowest id, which the clients_turn broadcast
    names. *)
Theorem C7_start_game w m s :
  (status (lobby s) <> WaitingForPlayers \/ Z.of_nat (size (clients (lobby s))) < 2 ->
   onStartGame w m s = Ok tt s) /\
  (status (lobby s) = WaitingForPlayers ->
   2 <= Z.of_nat (size (clients (lobby s))) ->
   clients_wf s ->
   turnIndex (lobby s) = -1 ->
   exists s' first c turn,
     onStartGame w m s = Ok tt s' /\
     status (lobby s') = InProgress /\
     aliveClients (lobby s') = roster (heap s) (clients (lobby s)) /\
     aliveClients (lobby s') ≡ₚ Values (clients (lobby s)) /\
     StronglySorted (asc (heap s)) (aliveClients (lobby s')) /\
     turnIndex (lobby s') = 0 /\
     aliveClients (lobby s') !! 0%nat = Some first /\
     heap s !! first = Some c /\
     (forall k p, clients (lobby s) !! k = Some p -> client_id c <= k) /\
     sent s' = sent s ++ [to_all (lobby s) turn] /\
     Type_ turn = ClientsTurn /\
     (exists t, Content_ turn = CTurn t /\ turn_ClientId t = client_id c)).
Proof.
  split.
  - intros Hno. unfold onStartGame. mstep.
    rewrite start_guard_false; [done|].
    destruct Hno as [Hst|Hlt]; [left; by destruct (status (lobby s))|by right].
  - intros Hst Hsize Hwf Hti.
    destruct (onStartGame_ok w m s Hst Hsize Hwf Hti) as (first & c & Hfirst & Hc & Hrun).
    destruct (resetAliveClients_ok s Hwf) as (_ & Hperm & Hsorted).
    eexists _, first, c, _. split; [exact Hrun|].
    match goal with
    | |- context [announced w s ?l c] =>
      destruct (announced_frame w s l c) as (Fa & Ft & _ & Fs & _)
    end.
    rewrite Fa, Ft, Fs. cbn.
    repeat split; try done.
    + by eapply sorted_head_least.
    + by eexists.
Qed.

(** C8.  A restart_game message is ignored, leaving the state as it was,
    unless the game is over and the lobby holds at least two clients.  A
    valid restart resets the alive list to the roster of the clients now
    connected, in ascending order of id and whatever the old alive list
    held, sets the status to InProgress, the turn pointer to -1 and the
    round counter to 0, broadcasts the restart notice, and only then
    advances the turn once: the first client is on turn, in round 1, and
    the clients_turn broadcast follows the restart notice. *)
Theorem C8_restart_game w m s :
  (status (lobby s) <> Over \/ Z.of_nat (size (clients (lobby s))) < 2 ->
   onRestartGame w m s = Ok tt s) /\
  (status (lobby s) = Over ->
   2 <= Z.of_nat (size (clients (lobby s))) ->
   clients_wf s ->
   exists s1 s' turn,
     onRestartGame w m s = changeTurn w false s1 /\
     status (lobby s1) = InProgress /\
     turnRounds (lobby s1) = 0 /\
     turnIndex (lobby s1) = -1 /\
     aliveClients (lobby s1) = roster (heap s) (clients (lobby s)) /\
     sent s1 = sent s ++ [to_all (lobby s) (server_msg RestartGame CNil)] /\
     changeTurn w false s1 = Ok tt s' /\
     status (lobby s') = InProgress /\
     aliveClients (lobby s') = roster (heap s) (clients (lobby s)) /\
     aliveClients (lobby s') ≡ₚ Values (clients (lobby s)) /\
     StronglySorted (asc (heap s)) (aliveClients (lobby s')) /\
     turnIndex (lobby s') = 0 /\
     turnRounds (lobby s') = 1 /\
     sent s' = sent s ++ [to_all (lobby s) (server_msg RestartGame CNil);
                          to_all (lobby s) turn] /\
     Type_ turn = ClientsTurn).
Proof.
  split.
  - intros Hno. unfold onRestartGame. mstep.
    rewrite start_guard_false; [done|].
    destruct Hno as [Hst|Hlt]; [left; by destruct (status (lobby s))|by right].
  - intros Hst Hsize Hwf.
    destruct (onRestartGame_ok w m s Hst Hsize Hwf)
      as (first & c & Hfirst & Hc & Heq & Hrun).
    destruct (resetAliveClients_ok s Hwf) as (_ & Hperm & Hsorted).
    eexists _, _, _. split; [exact Heq|].
    rewrite <- Heq, Hrun.
    match goal with
    | |- context [announced w ?s0 ?l c] =>
      destruct (announced_frame w s0 l c) as (Fa & Ft & _ & Fs & _)
    end.
    rewrite Fa, Ft, Fs. cbn.
    repeat split; try done; [rewrite <- app_assoc; reflexivity|reflexivity].
Qed.

(** ** What a handler leaves alone *)

Section keeps.
Context (R : State -> State -> Prop) `{!PreOrder R}.

Lemma keeps_ret {A} (a : A) : keeps R (ret a).
Proof. intros s. cbn. reflexivity. Qed.

Lemma keeps_panic {A} : keeps R (@panic A).
Proof. intros s. cbn. reflexivity. Qed.

Lemma keeps_get : keeps R get.
Proof. intros s. cbn. reflexivity. Qed.

Lemma keeps_deref p : keeps R (deref p).
Proof. intros s. unfold deref. destruct (heap s !! p); reflexivity. Qed.

Lemma keeps_bind {A B} (m : M A) (k : A -> M B) :
  keeps R m -> (forall a, keeps R (k a)) -> keeps R (bind m k).
Proof.
  intros Hm Hk s. unfold bind. specialize (Hm s).
  destruct (m s) as [a s1|s1]; [|done].
  specialize (Hk a s1). destruct (k a s1); by etrans.
Qed.

Lemma keeps_index {A} (l : list A) i : keeps R (index l i).
Proof.
  intros s. unfold index.
  destruct (_ && _); [|cbn; reflexivity]. destruct (l !! _); cbn; reflexivity.
Qed.

Lemma keeps_if {A} (b : bool) (m1 m2 : M A) :
  keeps R m1 -> keeps R m2 -> keeps R (if b then m1 else m2).
Proof. by destruct b. Qed.

Lemma keeps_without_id i cs : keeps R (without_id i cs).
Proof.
  induction cs as [|c cs IH]; cbn [without_id]; [apply keeps_ret|].
  apply keeps_bind; [apply keeps_deref|]. intros cl.
  apply keeps_bind; [done|]. intros r. apply keeps_ret.
Qed.

Lemma keeps_deref_all ps : keeps R (deref_all ps).
Proof.
  induction ps as [|p ps IH]; cbn [deref_all]; [apply keeps_ret|].
  apply keeps_bind; [apply keeps_deref|]. intros c.
  apply keeps_bind; [done|]. intros r. apply keeps_ret.
Qed.

Lemma keeps_sortedClients : keeps R sortedClients.
Proof.
  apply keeps_bind; [apply keeps_get|]. intros l.
  apply keeps_bind; [apply keeps_deref_all|]. intros cs. apply keeps_ret.
Qed.

(** Where [R] ignores the log and the fields a step writes. *)
Context (R_sent : forall s o, R s {| heap := heap s; lobby := lobby s; sent := o |}).

Lemma keeps_send to m : keeps R (send to m).
Proof. intros s. apply R_sent. Qed.

Lemma keeps_BroadcastMessage m : keeps R (BroadcastMessage m).
Proof. apply keeps_bind; [apply keeps_get|]. intros l. apply keeps_send. Qed.

Lemma keeps_modify f :
  (forall s, R s {| heap := heap s; lobby := f (lobby s); sent := sent s |}) ->
  keeps R (modify f).
Proof. intros Hf s. apply Hf. Qed.
End keeps.

Ltac keeps_auto :=
  repeat first
    [ apply keeps_ret; solve [apply _]
    | apply keeps_panic; solve [apply _]
    | apply keeps_get; solve [apply _]
    | apply keeps_deref; solve [apply _]
    | apply keeps_index; solve [apply _]
    | apply keeps_without_id; solve [apply _]
    | apply keeps_sortedClients; solve [apply _]
    | apply keeps_BroadcastMessage; [solve [apply _]|solve [done]]
    | apply keeps_send; solve [done]
    | apply keeps_bind; [solve [apply _]| |intros ?]
    | apply keeps_if
    | match goal with
      | |- keeps _ (match ?x with _ => _ end) => destruct x
      | |- keeps _ (let _ := _ in _) => cbv zeta
      end ].

Global Instance same_preview_preorder : PreOrder same_preview.
Proof.
  split; [by intros s|]. unfold same_preview. intros s1 s2 s3 H1 H2. congruence.
Qed.

Lemma changeTurn_same_preview w b : keeps same_preview (changeTurn w b).
Proof.
  unfold changeTurn. keeps_auto.
  all: try (apply keeps_modify; done).
Qed.

Lemma bind_inv {A B} (m : M A) (k : A -> M B) s b s' :
  bind m k s = Ok b s' -> exists a s1, m s = Ok a s1 /\ k a s1 = Ok b s'.
Proof. unfold bind. destruct (m s) as [a s1|]; [eauto|done]. Qed.

(** A catch-up snapshot carries the preview stored in the lobby. *)
Lemma BuildClientDetails_preview j s d s' :
  BuildClientDetails j s = Ok d s' ->
  details_CurrentAnswerPrev d = currentAnswerPrev (lobby s).
Proof.
  unfold BuildClientDetails. rewrite get_bind.
  intros (cs & s1 & _ & (t & s2 & _ & H)%bind_inv)%bind_inv.
  unfold ret in H. by injection H as <- _.
Qed.

Lemma keeps_store_displayName p n : keeps same_preview (store_displayName p n).
Proof. intros s. unfold store_displayName. by destruct (heap s !! p). Qed.

Lemma resetAliveClients_same_preview : keeps same_preview resetAliveClients.
Proof. unfold resetAliveClients. keeps_auto. by apply keeps_modify. Qed.

Lemma BuildClientDetails_pure j : keeps eq (BuildClientDetails j).
Proof. unfold BuildClientDetails. keeps_auto. Qed.

Lemma from_turn_holder_pure m : keeps eq (from_turn_holder m).
Proof. unfold from_turn_holder. keeps_auto. Qed.

Lemma keeps_weaken {A} (R : State -> State -> Prop) `{!Reflexive R} (m : M A) :
  keeps eq m -> keeps R m.
Proof. intros H s. specialize (H s). by destruct (m s); subst. Qed.

Ltac keeps_preview :=
  keeps_auto;
  repeat first
    [ apply keeps_modify; solve [done]
    | apply keeps_store_displayName
    | apply resetAliveClients_same_preview
    | apply changeTurn_same_preview
    | apply keeps_weaken;
      [solve [apply _]|first [apply BuildClientDetails_pure | apply from_turn_holder_pure]]
    | progress keeps_auto ].

Lemma onClientJoin_same_preview p : keeps same_preview (onClientJoin p).
Proof. unfold onClientJoin. keeps_preview. Qed.

Lemma onClientLeave_same_preview w p : keeps same_preview (onClientLeave w p).
Proof. unfold onClientLeave. keeps_preview. Qed.

Lemma onTurnExpired_same_preview w : keeps same_preview (onTurnExpired w).
Proof. unfold onTurnExpired. keeps_preview. Qed.

Lemma onStartGame_same_preview w m : keeps same_preview (onStartGame w m).
Proof. unfold onStartGame. keeps_preview. Qed.

Lemma onRestartGame_same_preview w m : keeps same_preview (onRestartGame w m).
Proof. unfold onRestartGame. keeps_preview. Qed.

Lemma onNameChange_same_preview m : keeps same_preview (onNameChange m).
Proof. unfold onNameChange. keeps_preview. Qed.

Lemma onAnswerSubmitted_same_preview w m : keeps same_preview (onAnswerSubmitted w m).
Proof. unfold onAnswerSubmitted. keeps_preview. Qed.

(** The only event that changes the stored preview is an answer_preview
    message with a string payload, which stores that string. *)
Lemma handle_preview w e s s' :
  handle w e s = Ok tt s' ->
  currentAnswerPrev (lobby s') <> currentAnswerPrev (lobby s) ->
  exists m text,
    e = Read m /\ Type_ m = AnswerPreview /\ Content_ m = CString text /\
    currentAnswerPrev (lobby s') = text.
Proof.
  intros Hrun Hne.
  assert (forall h : M unit, keeps same_preview h -> h s = Ok tt s' -> False) as Hkeep.
  { intros h Hh Hs. specialize (Hh s). rewrite Hs in Hh. by apply Hne. }
  destruct e as [p|p|m|]; cbn [handle] in Hrun.
  - exfalso. eapply Hkeep; [apply onClientJoin_same_preview|done].
  - exfalso. eapply Hkeep; [apply onClientLeave_same_preview|done].
  - unfold onMessage in Hrun. destruct (Type_ m) eqn:Ht;
      try (exfalso; eapply Hkeep; [|exact Hrun];
           first [ apply onStartGame_same_preview | apply onRestartGame_same_preview
                 | apply onAnswerSubmitted_same_preview | apply onNameChange_same_preview
                 | apply keeps_ret; apply _ ]).
    unfold onAnswerPreview in Hrun.
    apply bind_inv in Hrun as (ok & s1 & Hg & Hrun).
    pose proof (from_turn_holder_pure m s) as Hpure. rewrite Hg in Hpure. subst s1.
    destruct ok; [|by injection Hrun as <-].
    destruct (Content_ m) as [|text| | | | | |] eqn:Hc; try by injection Hrun as <-.
    exists m, text. repeat split; try done.
    cbn in Hrun. by injection Hrun as <-.
  - exfalso. eapply Hkeep; [|exact Hrun].
    apply keeps_bind; [apply _|by apply keeps_modify|intros ?; apply onTurnExpired_same_preview].
Qed.

Lemma deref_inv p c s s' : deref p s = Ok c s' -> s' = s /\ heap s !! p = Some c.
Proof. unfold deref. destruct (heap s !! p); [|done]. by intros [= <- <-]. Qed.

(** A joining client is first sent its snapshot, then announced. *)
Lemma onClientJoin_inv p s s' :
  onClientJoin p s = Ok tt s' ->
  exists c d,
    heap s !! p = Some c /\
    BuildClientDetails (client_id c) s = Ok d s /\
    heap s' = heap s /\
    lobby s' = with_clients (<[client_id c := p]> (clients (lobby s))) (lobby s) /\
    exists joined,
      sent s' = sent s ++ [{| rcpt := [p];
                              payload := server_msg ClientDetails (CDetails d) |};
                           to_all (lobby s') joined] /\
      Type_ joined = ClientJoined.
Proof.
  unfold onClientJoin.
  intros (c & s1 & [-> Hc]%deref_inv & Hrun)%bind_inv.
  apply bind_inv in Hrun as (d & s2 & Hd & Hrun).
  pose proof (BuildClientDetails_pure (client_id c) s) as Hpure.
  rewrite Hd in Hpure. subst s2.
  exists c, d. split; [done|]. split; [done|].
  injection Hrun as <-. cbn. split; [done|]. split; [done|].
  eexists. split; [rewrite <- app_assoc; reflexivity|reflexivity].
Qed.

(** C9.  A turn change, in either mode, leaves [currentAnswerPrev] as it
    was: the text a previous turn holder typed stays in the lobby, is
    copied as it is into the catch-up snapshot of a client that joins
    after the turn changed, and is only replaced when an answer_preview
    message stores a new text. *)
Theorem C9_turn_change_keeps_preview w b s :
  (alive_wf s -> valid_turn (lobby s) -> 2 <= len (aliveClients (lobby s)) ->
   exists s', changeTurn w b s = Ok tt s') /\
  (forall s',
     changeTurn w b s = Ok tt s' ->
     currentAnswerPrev (lobby s') = currentAnswerPrev (lobby s) /\
     (forall j d s'',
        BuildClientDetails j s' = Ok d s'' ->
        details_CurrentAnswerPrev d = currentAnswerPrev (lobby s)) /\
     (forall p s'',
        onClientJoin p s' = Ok tt s'' ->
        exists d,
          sent s'' !! length (sent s') =
            Some {| rcpt := [p]; payload := server_msg ClientDetails (CDetails d) |} /\
          details_CurrentAnswerPrev d = currentAnswerPrev (lobby s)) /\
     (forall w' e s'',
        handle w' e s' = Ok tt s'' ->
        currentAnswerPrev (lobby s'') <> currentAnswerPrev (lobby s') ->
        exists m text,
          e = Read m /\ Type_ m = AnswerPreview /\ Content_ m = CString text /\
          currentAnswerPrev (lobby s'') = text)).
Proof.
  split.
  - intros Hwf Hv Hlen. destruct b.
    + destruct (changeTurn_eliminate_ok w s Hwf Hv Hlen) as (p & c & _ & _ & Hrun). eauto.
    + destruct Hv as [H0 Hlt]. pose proof Hwf as (Hall & _ & Hfit).
      destruct (changeTurn_advance_ok w s Hall) as (p & c & _ & _ & Hrun);
        [lia..|]. eauto.
  - intros s' Hrun.
    pose proof (changeTurn_same_preview w b s) as Hkeep. rewrite Hrun in Hkeep.
    unfold same_preview in Hkeep. repeat split.
    + done.
    + intros j d s'' Hd. rewrite <- Hkeep. by eapply BuildClientDetails_preview.
    + intros p s'' (c & d & _ & Hd & _ & _ & joined & Hsent & _)%onClientJoin_inv.
      exists d. split.
      * rewrite Hsent. by rewrite lookup_app_r, Nat.sub_diag by lia.
      * rewrite <- Hkeep. by eapply BuildClientDetails_preview.
    + intros w' e s''. apply handle_preview.
Qed.

(** ** Leaving twice *)

(** Leave is idempotent in the lobby with the guard (src/unnamed/part_002).
    For a client whose id is not, or no longer, registered in [clients],
    the handler returns without a broadcast and without a panic, and the
    state -- the clients, the alive list, the turn pointer, the status, the
    log of deliveries -- is exactly what it was.  In particular the second
    of two leave events for the same client changes nothing. *)
Theorem onClientLeave_idempotent w s p c :
  heap s !! p = Some c ->
  (clients (lobby s) !! client_id c = None -> onClientLeave w p s = Ok tt s) /\
  (clients (lobby s) !! client_id c = Some p ->
   alive_wf s -> running_wf (lobby s) ->
   exists s1,
     onClientLeave w p s = Ok tt s1 /\
     forall w', onClientLeave w' p s1 = Ok tt s1).
Proof.
  intros Hc. split; [by apply leave_absent|].
  intros Hq Hwf Hrun.
  destruct (onClientLeave_present w s p c Hc (mk_is_Some _ _ Hq) Hwf Hrun)
    as (s1 & H & Hheap & _ & Hgone & _).
  exists s1. split; [done|]. intros w'.
  apply (leave_absent w' s1 p c); [by rewrite Hheap|done].
Qed.

(** C6.  Leave is idempotent.  A leave event for a client whose id is
    not a key of [clients] is a no-op: the handler returns at its guard, it
    does not panic, and the state it returns is the state it was given, so
    the roster, the alive list, the turn pointer and the status are
    unchanged and nothing is broadcast.  In particular, once the leave of a
    registered client has been handled, a second leave event for the same
    client returns the lobby and the log of broadcasts exactly as the first
    one left them. *)
Theorem C6_leave_is_idempotent w s p c :
  heap s !! p = Some c ->
  (clients (lobby s) !! client_id c = None ->
   exists s',
     onClientLeave w p s = Ok tt s' /\
     s' = s /\
     sent s' = sent s /\
     clients (lobby s') = clients (lobby s) /\
     aliveClients (lobby s') = aliveClients (lobby s) /\
     turnIndex (lobby s') = turnIndex (lobby s) /\
     status (lobby s') = status (lobby s)) /\
  (clients (lobby s) !! client_id c = Some p ->
   alive_wf s -> running_wf (lobby s) ->
   exists s1 s2,
     onClientLeave w p s = Ok tt s1 /\
     clients (lobby s1) !! client_id c = None /\
     onClientLeave w p s1 = Ok tt s2 /\
     s2 = s1 /\
     sent s2 = sent s1).
Proof.
  intros Hc. split.
  - intros Habs. exists s. split; [by apply leave_absent with c|]. done.
  - intros Hq Hwf Hrun.
    destruct (onClientLeave_present w s p c Hc (mk_is_Some _ _ Hq) Hwf Hrun)
      as (s1 & H1 & Hheap & _ & Hgone & _).
    exists s1, s1. split; [done|]. split; [done|].
    split; [apply (leave_absent w s1 p c); [by rewrite Hheap|done]|]. done.
Qed.

(** ** Broadcasts of a turn expiry *)

(** C10.  When the timer fires in a running game with exactly two alive
    clients, turn_expired with the turn holder's id is broadcast twice --
    before the branch on the number of alive clients and again inside the
    two-alive branch -- and then game_over with the winner's id, once.
    With more than two alive clients turn_expired is broadcast once, and
    the next broadcast announces the new turn. *)
Theorem C10_turn_expired_broadcasts w s cur c :
  status (lobby s) = InProgress ->
  valid_turn (lobby s) ->
  alive_wf s ->
  aliveClients (lobby s) !! Z.to_nat (turnIndex (lobby s)) = Some cur ->
  heap s !! cur = Some c ->
  (len (aliveClients (lobby s)) = 2 ->
   exists s' winner cw,
     onTurnExpired w s = Ok tt s' /\
     winner ∈ aliveClients (lobby s) /\ winner <> cur /\
     heap s !! winner = Some cw /\
     sent s' = sent s ++
       [to_all (lobby s) (server_msg TurnExpired (CInt (client_id c)));
        to_all (lobby s) (server_msg TurnExpired (CInt (client_id c)));
        to_all (lobby s) (server_msg GameOver (CInt (client_id cw)))]) /\
  (2 < len (aliveClients (lobby s)) ->
   exists s' turn,
     onTurnExpired w s = Ok tt s' /\
     sent s' = sent s ++
       [to_all (lobby s) (server_msg TurnExpired (CInt (client_id c)));
        to_all (lobby s) turn] /\
     Type_ turn = ClientsTurn).
Proof.
  intros Hst Hv Hwf Hcur Hc. split.
  - intros H2.
    assert (cur ∈ aliveClients (lobby s)) as Hin by (by eapply list_elem_of_lookup_2).
    destruct (two_alive _ _ H2 Hin (alive_wf_NoDup _ Hwf)) as (q & Hpq & Hne).
    assert (q ∈ aliveClients (lobby s)) as Hq
      by (destruct Hpq as [E|E]; rewrite E, !elem_of_cons; tauto).
    destruct (alive_wf_lookup s q Hwf Hq) as [cq Hcq].
    eexists _, q, cq. split.
    { apply (expire_last_two w s cur q c cq); [done| |done..].
      destruct Hv as [H0 Hlt]. rewrite H2 in Hlt.
      destruct Hpq as [E|E]; rewrite E in Hcur; [left|right]; (split; [done|]).
      + destruct (Z.to_nat (turnIndex (lobby s))) as [|[|?]] eqn:En; cbn in Hcur;
          [lia|congruence|lia].
      + destruct (Z.to_nat (turnIndex (lobby s))) as [|[|?]] eqn:En; cbn in Hcur;
          [congruence|lia|lia]. }
    repeat split; try done.
  - intros Hlen.
    set (s1 := told (server_msg TurnExpired (CInt (client_id c))) s).
    destruct (changeTurn_eliminate_ok w s1) as (p & cp & _ & _ & Hrun);
      [done|done|cbn; lia|].
    eexists _, _. split.
    + rewrite (expire_many w s cur c) by (first [apply Hv | done]). exact Hrun.
    + cbn. split; [rewrite <- app_assoc; reflexivity|reflexivity].
Qed.

(** ** The invariant of the event loop *)

Lemma NoDup_bounded_length (zs : list Z) :
  NoDup zs -> Forall (fun z => 0 < z <= max_int) zs -> len zs <= max_int.
Proof.
  intros Hnd Hall.
  assert (zs ⊆+ seqZ 1 max_int) as Hsub.
  { apply NoDup_submseteq; [done|]. intros x Hx.
    eapply Forall_forall in Hall; [|exact Hx]. apply elem_of_seqZ. lia. }
  apply submseteq_length in Hsub. rewrite length_seqZ in Hsub.
  unfold len. assert (0 <= max_int) by int_lia. lia.
Qed.

Lemma alive_fit_wf s : alive_fit s -> alive_wf s.
Proof.
  intros [Hall Hnd]. split; [|split; [done|]].
  - eapply Forall_impl; [exact Hall|]. intros p (c & Hc & _). by exists c.
  - set (zs := omap (id_of (heap s)) (aliveClients (lobby s))).
    assert (id_of (heap s) <$> aliveClients (lobby s) = Some <$> zs /\
            Forall (fun z => 0 < z <= max_int) zs) as [Heq Hzs].
    { subst zs. induction Hall as [|p l (c & Hc & Hf) _ IH]; [done|].
      rewrite fmap_cons in Hnd. apply NoDup_cons in Hnd as [_ Hnd].
      destruct (IH Hnd) as [IH1 IH2]. cbn.
      rewrite (id_of_Some _ _ _ Hc). cbn. split; [by f_equal|by constructor]. }
    rewrite Heq in Hnd. apply NoDup_fmap in Hnd; [|apply _].
    pose proof (NoDup_bounded_length zs Hnd Hzs) as Hlen.
    assert (length zs = length (aliveClients (lobby s))) as Hl.
    { apply (f_equal length) in Heq. by rewrite !length_fmap in Heq. }
    unfold len in *. lia.
Qed.

(** The invariant reads the store, the roster, the alive list, the status
    and the turn pointer. *)
Lemma lobby_inv_core s s' :
  heap s' = heap s ->
  clients (lobby s') = clients (lobby s) ->
  aliveClients (lobby s') = aliveClients (lobby s) ->
  status (lobby s') = status (lobby s) ->
  turnIndex (lobby s') = turnIndex (lobby s) ->
  lobby_inv s -> lobby_inv s'.
Proof.
  unfold lobby_inv, clients_wf, alive_fit, running_wf, valid_turn.
  by intros -> -> -> -> ->.
Qed.

Lemma lobby_inv_new h icons :
  lobby_inv {| heap := h; lobby := NewLobby icons; sent := [] |}.
Proof.
  split; [apply map_Forall_empty|].
  split; [split; constructor|].
  split; [by intros ?|done].
Qed.

Lemma lobby_inv_announced w s l c :
  lobby_inv {| heap := heap s; lobby := l; sent := sent s |} ->
  lobby_inv (announced w s l c).
Proof.
  apply lobby_inv_core; cbn; unfold timed, bump_round; by destruct (turnIndex l =? 0).
Qed.

Lemma alive_fit_delete s k l' :
  alive_fit s ->
  heap l' = heap s ->
  aliveClients (lobby l') = delete k (aliveClients (lobby s)) ->
  alive_fit l'.
Proof.
  intros [Hall Hnd] Hh Ha. unfold alive_fit. rewrite Hh, Ha. split.
  - by apply Forall_delete.
  - rewrite list_fmap_delete. eapply sublist_NoDup; [exact Hnd|]. apply sublist_delete.
Qed.

Lemma inv_eliminated s :
  lobby_inv s ->
  status (lobby s) = InProgress ->
  3 <= len (aliveClients (lobby s)) ->
  lobby_inv {| heap := heap s; lobby := eliminated (lobby s); sent := sent s |}.
Proof.
  intros (Hc & Hfit & Hrun & Hwait) Hst Hlen.
  destruct (Hrun Hst) as [Hv _].
  destruct (eliminated_spec (lobby s) Hv ltac:(lia)) as (Ha & Hl & Hv' & _).
  split; [done|]. split; [by eapply alive_fit_delete|].
  split; [intros _; split; [done|cbn [lobby]; lia]|].
  cbn. congruence.
Qed.

Lemma inv_changeTurn_eliminate w s :
  lobby_inv s ->
  status (lobby s) = InProgress ->
  3 <= len (aliveClients (lobby s)) ->
  exists s', changeTurn w true s = Ok tt s' /\ lobby_inv s'.
Proof.
  intros Hinv Hst Hlen. pose proof Hinv as (_ & Hfit & Hrun & _).
  destruct (Hrun Hst) as [Hv _].
  destruct (changeTurn_eliminate_ok w s (alive_fit_wf _ Hfit) Hv ltac:(lia))
    as (p & c & _ & _ & Hct).
  eexists. split; [exact Hct|].
  by apply lobby_inv_announced, inv_eliminated.
Qed.

Lemma inv_changeTurn_advance w s :
  lobby_inv s ->
  status (lobby s) = InProgress ->
  exists s', changeTurn w false s = Ok tt s' /\ lobby_inv s'.
Proof.
  intros Hinv Hst. pose proof Hinv as (Hc & Hfit & Hrun & Hwait).
  destruct (Hrun Hst) as [[H0 Hlt] Hlen].
  pose proof (alive_fit_wf _ Hfit) as (Hall & _ & Hmax).
  destruct (changeTurn_advance_ok w s Hall) as (p & c & _ & _ & Hct); [lia..|].
  eexists. split; [exact Hct|].
  apply lobby_inv_announced.
  destruct (advanced_spec (lobby s)) as (Ha & _ & Hv); [lia..|].
  split; [done|]. split; [by unfold alive_fit; cbn|].
  split; [intros _; split; [done|exact Hlen]|].
  cbn. congruence.
Qed.

Lemma inv_told m s : lobby_inv s -> lobby_inv (told m s).
Proof. by apply lobby_inv_core. Qed.

Lemma inv_departed s id : lobby_inv s -> lobby_inv (departed s id).
Proof.
  intros (Hc & Hrest). split; [|done].
  unfold clients_wf. cbn. by apply map_Forall_delete.
Qed.

Lemma dropped_frame p l :
  clients (dropped p l) = clients l /\
  status (dropped p l) = status l /\
  aliveClients (dropped p l) =
    delete (Z.to_nat (Index (aliveClients l) p)) (aliveClients l).
Proof. unfold dropped. by destruct (_ <? _). Qed.

(** A leave event keeps the invariant. *)
Lemma inv_onClientLeave w p s s' :
  lobby_inv s -> onClientLeave w p s = Ok tt s' -> lobby_inv s'.
Proof.
  intros Hinv Hleave.
  destruct (heap s !! p) as [c|] eqn:Hc.
  2:{ unfold onClientLeave in Hleave. apply bind_inv in Hleave as (? & ? & Hd & _).
      unfold deref in Hd. by rewrite Hc in Hd. }
  destruct (clients (lobby s) !! client_id c) as [q|] eqn:Hq.
  2:{ rewrite (leave_absent w s p c Hc Hq) in Hleave. by injection Hleave as <-. }
  assert (is_Some (clients (lobby s) !! client_id c)) as Hsome by done.
  pose proof (inv_departed s (client_id c) Hinv) as Hdep.
  destruct (decide (status (lobby s) = InProgress /\ p ∈ aliveClients (lobby s)))
    as [[Hst Hin]|Hidle].
  2:{ rewrite (leave_idle w s p c) in Hleave; [|done..|apply not_and_l in Hidle; tauto].
      by injection Hleave as <-. }
  pose proof Hinv as (_ & Hfit & Hrun & _).
  pose proof (alive_fit_wf _ Hfit) as Hwf.
  destruct (Hrun Hst) as [Hv Hlen].
  destruct (decide (len (aliveClients (lobby s)) = 2)) as [H2|H2].
  { destruct (two_alive _ _ H2 Hin (alive_wf_NoDup _ Hwf)) as (q' & Hpq & Hne).
    assert (is_Some (heap s !! q')) as [cq Hcq].
    { apply alive_wf_lookup; [done|]. destruct Hpq as [E|E]; rewrite E, !elem_of_cons; tauto. }
    rewrite (leave_last_two w s p c q' cq) in Hleave by done.
    injection Hleave as <-.
    destruct Hdep as (Dc & Dfit & _ & _).
    split; [done|]. split; [done|]. split; [by intros ?|done]. }
  destruct (decide (Index (aliveClients (lobby s)) p = turnIndex (lobby s))) as [Hon|Hoff].
  - rewrite (leave_on_turn w s p c) in Hleave by done.
    destruct (inv_changeTurn_eliminate w (departed s (client_id c))) as (s1 & Hct & Hs1);
      [done|done|cbn; lia|].
    rewrite Hct in Hleave. by injection Hleave as <-.
  - rewrite (leave_off_turn w s p c) in Hleave by done.
    injection Hleave as <-.
    destruct (proj1 (Index_spec _ _) Hin) as [Hr Hl].
    destruct Hdep as (Dc & Dfit & _ & Dwait).
    pose proof (fun l0 => proj1 (dropped_frame p l0)) as Hdc.
    pose proof (fun l0 => proj1 (proj2 (dropped_frame p l0))) as Hds.
    pose proof (fun l0 => proj2 (proj2 (dropped_frame p l0))) as Hda.
    split; [unfold clients_wf; cbn [lobby heap]; by rewrite Hdc|].
    split; [eapply (alive_fit_delete (departed s (client_id c))); [done|done|apply Hda]|].
    split.
    + intros _. unfold valid_turn. cbn [lobby]. rewrite Hda.
      cbn [departed lobby aliveClients with_clients].
      rewrite len_delete by done.
      destruct Hv as [H0 Hlt]. destruct Hwf as (_ & _ & Hmax).
      unfold dropped. cbn [departed lobby aliveClients turnIndex with_clients].
      destruct (Z.ltb_spec (Index (aliveClients (lobby s)) p) (turnIndex (lobby s))).
      * cbn. rewrite wrap_small by int_lia. lia.
      * cbn. lia.
    + cbn [lobby]. rewrite Hds. cbn. congruence.
Qed.

(** A timer expiry keeps the invariant. *)
Lemma inv_onTurnExpired w s s' :
  lobby_inv s -> onTurnExpired w s = Ok tt s' -> lobby_inv s'.
Proof.
  intros Hinv Hexp.
  destruct (decide (status (lobby s) = InProgress)) as [Hst|Hst].
  2:{ rewrite expire_idle in Hexp by done. by injection Hexp as <-. }
  pose proof Hinv as (Hc & Hfit & Hrun & _).
  pose proof (alive_fit_wf _ Hfit) as Hwf.
  destruct (Hrun Hst) as [Hv Hlen].
  destruct (lookup_lt_len _ _ Hv) as [cur Hcur].
  assert (cur ∈ aliveClients (lobby s)) as Hin by (by eapply list_elem_of_lookup_2).
  destruct (alive_wf_lookup s cur Hwf Hin) as [c Hcc].
  destruct (decide (len (aliveClients (lobby s)) = 2)) as [H2|H2].
  - destruct (two_alive _ _ H2 Hin (alive_wf_NoDup _ Hwf)) as (q & Hpq & Hne).
    assert (q ∈ aliveClients (lobby s)) as Hq
      by (destruct Hpq as [E|E]; rewrite E, !elem_of_cons; tauto).
    destruct (alive_wf_lookup s q Hwf Hq) as [cq Hcq].
    rewrite (expire_last_two w s cur q c cq) in Hexp; [|done| |done..].
    2:{ destruct Hv as [H0 Hlt]. rewrite H2 in Hlt.
        destruct Hpq as [E|E]; rewrite E in Hcur; [left|right]; (split; [done|]).
        - destruct (Z.to_nat (turnIndex (lobby s))) as [|[|?]] eqn:En; cbn in Hcur;
            [lia|congruence|lia].
        - destruct (Z.to_nat (turnIndex (lobby s))) as [|[|?]] eqn:En; cbn in Hcur;
            [congruence|lia|lia]. }
    injection Hexp as <-.
    split; [done|]. split; [|split; [by intros ?|done]].
    destruct Hfit as [Hall _]. split; cbn.
    + constructor; [|constructor]. by eapply Forall_forall in Hall.
    + apply NoDup_singleton.
  - rewrite (expire_many w s cur c) in Hexp by (first [apply Hv | done | lia]).
    destruct (inv_changeTurn_eliminate w (told (server_msg TurnExpired (CInt (client_id c))) s))
      as (s1 & Hct & Hs1); [by apply inv_told|done|cbn; lia|].
    rewrite Hct in Hexp. by injection Hexp as <-.
Qed.

(** A join keeps the invariant, for a client with a proper id. *)
Lemma inv_onClientJoin p s s' :
  lobby_inv s -> admissible (Join p) s -> onClientJoin p s = Ok tt s' -> lobby_inv s'.
Proof.
  intros (Hc & Hfit & Hrun & Hwait) Hadm
         (c & d & Hpc & _ & Hheap & Hlobby & _)%onClientJoin_inv.
  unfold lobby_inv, clients_wf, alive_fit, running_wf, valid_turn.
  rewrite Hheap, Hlobby. cbn.
  split; [|done].
  apply map_Forall_insert_2; [|done].
  split; [by apply id_of_Some|]. by apply Hadm.
Qed.

Lemma alive_fit_roster s s' :
  clients_wf s ->
  heap s' = heap s ->
  aliveClients (lobby s') = roster (heap s) (clients (lobby s)) ->
  alive_fit s'.
Proof.
  intros Hwf Hh Ha. unfold alive_fit. rewrite Hh, Ha.
  destruct (resetAliveClients_ok s Hwf) as (_ & Hperm & _).
  destruct (clients_wf_values s Hwf) as [Hall Hids].
  rewrite Hperm. split; [done|].
  rewrite Hids. apply NoDup_fmap_2; [apply _|]. apply NoDup_fst_map_to_list.
Qed.

Lemma len_roster s :
  clients_wf s ->
  len (roster (heap s) (clients (lobby s))) = Z.of_nat (size (clients (lobby s))).
Proof.
  intros Hwf. destruct (resetAliveClients_ok s Hwf) as (_ & Hperm & _).
  unfold len. rewrite Hperm. apply size_Values.
Qed.

Lemma onStartGame_idle w m s :
  status (lobby s) <> WaitingForPlayers \/ Z.of_nat (size (clients (lobby s))) < 2 ->
  onStartGame w m s = Ok tt s.
Proof.
  intros Hno. unfold onStartGame. mstep.
  rewrite start_guard_false; [done|].
  destruct Hno as [Hst|Hlt]; [left; by destruct (status (lobby s))|by right].
Qed.

Lemma onRestartGame_idle w m s :
  status (lobby s) <> Over \/ Z.of_nat (size (clients (lobby s))) < 2 ->
  onRestartGame w m s = Ok tt s.
Proof.
  intros Hno. unfold onRestartGame. mstep.
  rewrite start_guard_false; [done|].
  destruct Hno as [Hst|Hlt]; [left; by destruct (status (lobby s))|by right].
Qed.

Lemma inv_onStartGame w m s s' :
  lobby_inv s -> onStartGame w m s = Ok tt s' -> lobby_inv s'.
Proof.
  intros Hinv Hstart. pose proof Hinv as (Hc & Hfit & Hrun & Hwait).
  destruct (decide (status (lobby s) = WaitingForPlayers /\
                    2 <= Z.of_nat (size (clients (lobby s))))) as [[Hst Hsize]|Hno].
  2:{ rewrite onStartGame_idle in Hstart by (apply not_and_l in Hno as [?|?]; [by left|right; lia]).
      by injection Hstart as <-. }
  destruct (onStartGame_ok w m s Hst Hsize Hc (Hwait Hst)) as (first & c & _ & _ & Hok).
  rewrite Hok in Hstart. injection Hstart as <-.
  apply lobby_inv_announced.
  split; [done|]. split; [by eapply alive_fit_roster|].
  split; [|done]. intros _. unfold valid_turn. cbn. rewrite len_roster by done. lia.
Qed.

Lemma inv_onRestartGame w m s s' :
  lobby_inv s -> onRestartGame w m s = Ok tt s' -> lobby_inv s'.
Proof.
  intros Hinv Hstart. pose proof Hinv as (Hc & Hfit & Hrun & Hwait).
  destruct (decide (status (lobby s) = Over /\
                    2 <= Z.of_nat (size (clients (lobby s))))) as [[Hst Hsize]|Hno].
  2:{ rewrite onRestartGame_idle in Hstart by (apply not_and_l in Hno as [?|?]; [by left|right; lia]).
      by injection Hstart as <-. }
  destruct (onRestartGame_ok w m s Hst Hsize Hc) as (first & c & _ & _ & _ & Hok).
  rewrite Hok in Hstart. injection Hstart as <-.
  apply lobby_inv_announced.
  split; [done|]. split; [by eapply alive_fit_roster|].
  split; [|done]. intros _. unfold valid_turn. cbn. rewrite len_roster by done. lia.
Qed.

Global Instance keeps_inv_preorder : PreOrder keeps_inv.
Proof.
  split.
  - intros s H. exact H.
  - intros s1 s2 s3 H1 H2 H. apply H2, H1, H.
Qed.

Lemma keeps_inv_sent s o :
  keeps_inv s {| heap := heap s; lobby := lobby s; sent := o |}.
Proof. unfold keeps_inv. by apply lobby_inv_core. Qed.

(** Renaming a client changes no id. *)
Lemma keeps_inv_store_displayName p n : keeps keeps_inv (store_displayName p n).
Proof.
  intros s. unfold store_displayName.
  destruct (heap s !! p) as [c|] eqn:Hc; [|done].
  assert (forall q, id_of (<[p := set_displayName n c]> (heap s)) q = id_of (heap s) q) as Hid.
  { intros q. unfold id_of. destruct (decide (p = q)) as [<-|Hne].
    - by rewrite lookup_insert_eq, Hc.
    - by rewrite lookup_insert_ne. }
  intros (Hcl & [Hall Hnd] & Hrun & Hwait).
  split; [|split; [split|done]].
  - unfold clients_wf. cbn. eapply map_Forall_impl; [exact Hcl|].
    intros k q [Hq Hk]. by rewrite Hid.
  - cbn. eapply Forall_impl; [exact Hall|]. intros q (cq & Hq & Hf).
    destruct (decide (p = q)) as [<-|Hne].
    + exists (set_displayName n c). rewrite lookup_insert_eq. split; [done|].
      rewrite Hc in Hq. by injection Hq as <-.
    + exists cq. by rewrite lookup_insert_ne.
  - cbn. erewrite list_fmap_ext; [exact Hnd|]. intros ? q _. apply Hid.
Qed.

Ltac keeps_inv_auto :=
  repeat first
    [ apply keeps_BroadcastMessage; [solve [apply _]|intros; apply keeps_inv_sent]
    | apply keeps_send; intros; apply keeps_inv_sent
    | apply keeps_inv_store_displayName
    | apply keeps_weaken; [solve [apply _]|apply from_turn_holder_pure]
    | apply keeps_modify; intros; unfold keeps_inv; apply lobby_inv_core; solve [done]
    | apply keeps_ret; solve [apply _]
    | apply keeps_panic; solve [apply _]
    | apply keeps_get; solve [apply _]
    | apply keeps_deref; solve [apply _]
    | apply keeps_bind; [solve [apply _]| |intros ?]
    | apply keeps_if
    | match goal with
      | |- keeps _ (match ?x with _ => _ end) => destruct x
      end ].

Lemma inv_onNameChange m : keeps keeps_inv (onNameChange m).
Proof. unfold onNameChange. keeps_inv_auto. Qed.

Lemma inv_onAnswerPreview m : keeps keeps_inv (onAnswerPreview m).
Proof. unfold onAnswerPreview. keeps_inv_auto. Qed.

Lemma from_turn_holder_inv m s s' :
  from_turn_holder m s = Ok true s' -> s' = s /\ status (lobby s) = InProgress.
Proof.
  intros H. pose proof (from_turn_holder_pure m s) as Hpure. rewrite H in Hpure.
  split; [done|]. unfold from_turn_holder in H. rewrite get_bind in H.
  by destruct (status (lobby s)).
Qed.

Lemma inv_onAnswerSubmitted w m s s' :
  lobby_inv s -> onAnswerSubmitted w m s = Ok tt s' -> lobby_inv s'.
Proof.
  intros Hinv H. unfold onAnswerSubmitted in H.
  apply bind_inv in H as (ok & s1 & Hg & H).
  destruct ok.
  2:{ pose proof (from_turn_holder_pure m s) as Hpure. rewrite Hg in Hpure.
      injection H as <-. by subst. }
  apply from_turn_holder_inv in Hg as [-> Hst].
  destruct (Content_ m) as [|answer| | | | | |]; try by injection H as <-.
  rewrite get_bind in H.
  destruct (IsValidWord w answer); cbn [negb] in H;
    [|rewrite broadcast_ok in H; injection H as <-; by apply inv_told].
  destruct (String.eqb answer (currentChallenge (lobby s)));
    [rewrite broadcast_ok in H; injection H as <-; by apply inv_told|].
  destruct (Contains answer (currentChallenge (lobby s))); cbn [negb] in H;
    [|rewrite broadcast_ok in H; injection H as <-; by apply inv_told].
  rewrite broadcast_bind in H.
  destruct (inv_changeTurn_advance w (told (server_msg AnswerAccepted (CString answer)) s))
    as (s2 & Hct & Hs2); [by apply inv_told|done|].
  unfold told, to_all in Hct. rewrite Hct in H. by injection H as <-.
Qed.

Lemma keeps_Ok {A} (R : State -> State -> Prop) (m : M A) s a s' :
  keeps R m -> m s = Ok a s' -> R s s'.
Proof. intros H Hs. specialize (H s). by rewrite Hs in H. Qed.

(** Every event the environment can deliver keeps the invariant. *)
Lemma inv_handle w e s s' :
  lobby_inv s -> admissible e s -> handle w e s = Ok tt s' -> lobby_inv s'.
Proof.
  intros Hinv Hadm H. destruct e as [p|p|m|]; cbn [handle] in H.
  - by eapply inv_onClientJoin.
  - by eapply inv_onClientLeave.
  - unfold onMessage in H.
    destruct (Type_ m); try (by injection H as <-).
    + by eapply inv_onStartGame.
    + by eapply inv_onRestartGame.
    + by eapply (keeps_Ok _ _ _ _ _ (inv_onAnswerPreview m)).
    + by eapply inv_onAnswerSubmitted.
    + by eapply (keeps_Ok _ _ _ _ _ (inv_onNameChange m)).
  - rewrite modify_bind in H. eapply inv_onTurnExpired; [|exact H].
    revert Hinv. by apply lobby_inv_core.
Qed.

Lemma inv_step w e s s' :
  lobby_inv s -> admissible e s -> step w e s = Running s' -> lobby_inv s'.
Proof.
  intros Hinv Hadm. unfold step.
  destruct (handle w e s) as [[] s1|s1] eqn:H; [|done].
  intros Hrun. eapply (inv_handle w e s s'); [done..|].
  rewrite H. f_equal.
  destruct e; try (by injection Hrun).
  destruct (_ =? _); [done|by injection Hrun].
Qed.

(** Every state the event loop reaches satisfies the invariant. *)
Lemma reachable_inv s : reachable s -> lobby_inv s.
Proof.
  induction 1 as [h icons|w e s s' _ IH Hadm Hstep].
  - apply lobby_inv_new.
  - by eapply inv_step.
Qed.

(** ** The invariant, for the claims' hypotheses *)

(** The conditions the theorems above assume of a lobby -- a roster
    registered under the clients' own positive ids, an alive list of
    existing clients with pairwise distinct ids that fits an [int], at
    least two alive clients and a valid turn pointer while the game is in
    progress, and the pointer -1 while the lobby waits for players -- hold
    in every state the event loop reaches from a new lobby. *)
Theorem reachable_lobby_wf s :
  reachable s ->
  clients_wf s /\ alive_wf s /\ running_wf (lobby s) /\
  (status (lobby s) = WaitingForPlayers -> turnIndex (lobby s) = -1).
Proof.
  intros (Hc & Hfit & Hrun & Hwait)%reachable_inv.
  split; [done|]. split; [by apply alive_fit_wf|]. by split.
Qed.

Lemma demo_opening_reachable : reachable (demo_after demo_opening).
Proof.
  assert (forall p c, demo_heap !! p = Some c -> fits c) as Hfits.
  { intros p c Hc. apply (map_Forall_lookup_1 (fun _ c => fits c) demo_heap p c); [|done].
    compute_done. }
  eapply (reachable_step demo_world (Read (demo_request StartGame))
            (demo_after (take 3 demo_opening))); [|done|by vm_compute].
  eapply (reachable_step demo_world (Join 3%positive)
            (demo_after (take 2 demo_opening)));
    [|intros c Hc; by apply (Hfits 3%positive c)|by vm_compute].
  eapply (reachable_step demo_world (Join 2%positive)
            (demo_after (take 1 demo_opening)));
    [|intros c Hc; by apply (Hfits 2%positive c)|by vm_compute].
  eapply (reachable_step demo_world (Join 1%positive) demo_new);
    [|intros c Hc; by apply (Hfits 1%positive c)|by vm_compute].
  apply reachable_new.
Qed.

(** ** A leave off turn *)

(** When an alive client that is not on turn leaves a running game with
    at least three alive clients, the handler returns; the leaver is
    removed from the roster and its entry is deleted from the alive list;
    the turn pointer is decremented when the leaver sat before the client
    on turn and is left as it is otherwise, so that it stays valid and
    denotes the same client as before; the game goes on and the one
    message sent is client_left, to the clients that remain. *)
Theorem leave_off_turn_keeps_holder w s p c :
  heap s !! p = Some c ->
  is_Some (clients (lobby s) !! client_id c) ->
  status (lobby s) = InProgress ->
  alive_wf s ->
  valid_turn (lobby s) ->
  3 <= len (aliveClients (lobby s)) ->
  p ∈ aliveClients (lobby s) ->
  aliveClients (lobby s) !! Z.to_nat (turnIndex (lobby s)) <> Some p ->
  exists s',
    onClientLeave w p s = Ok tt s' /\
    valid_turn (lobby s') /\
    aliveClients (lobby s') !! Z.to_nat (turnIndex (lobby s')) =
    aliveClients (lobby s) !! Z.to_nat (turnIndex (lobby s)) /\
    turnIndex (lobby s') =
      (if Index (aliveClients (lobby s)) p <? turnIndex (lobby s)
       then turnIndex (lobby s) - 1 else turnIndex (lobby s)) /\
    aliveClients (lobby s') =
      delete (Z.to_nat (Index (aliveClients (lobby s)) p)) (aliveClients (lobby s)) /\
    (p ∉ aliveClients (lobby s')) /\
    clients (lobby s') = delete (client_id c) (clients (lobby s)) /\
    status (lobby s') = InProgress /\
    heap s' = heap s /\
    sent s' = sent s ++
      [{| rcpt := Values (delete (client_id c) (clients (lobby s)));
          payload := server_msg ClientLeft (CInt (client_id c)) |}].
Proof.
  intros Hc Hsome Hst Hwf [H0 Hlt] Hlen Hin Hturn.
  destruct (proj1 (Index_spec _ _) Hin) as [Hr Hl].
  assert (Index (aliveClients (lobby s)) p <> turnIndex (lobby s)) as Hoff
    by (intros Heq; by rewrite <- Heq in Hturn).
  eexists. split; [apply (leave_off_turn w s p c); try done; lia|].
  pose proof Hwf as (_ & _ & Hmax).
  destruct (dropped_frame p (lobby (departed s (client_id c)))) as (Dc & Ds & Da).
  assert (turnIndex (dropped p (lobby (departed s (client_id c)))) =
          (if Index (aliveClients (lobby s)) p <? turnIndex (lobby s)
           then turnIndex (lobby s) - 1 else turnIndex (lobby s))) as Hti.
  { unfold dropped. cbn [departed lobby aliveClients turnIndex with_clients].
    destruct (Z.ltb_spec (Index (aliveClients (lobby s)) p) (turnIndex (lobby s)));
      cbn; [by rewrite wrap_small by int_lia|done]. }
  unfold valid_turn. cbn [lobby heap sent]. rewrite Dc, Ds, !Da, !Hti.
  cbn [departed lobby aliveClients clients status with_clients sent heap].
  rewrite len_delete by done.
  split; [|split; [|split; [done|split; [done|split; [|done]]]]].
  - destruct (Z.ltb_spec (Index (aliveClients (lobby s)) p) (turnIndex (lobby s))); lia.
  - destruct (Z.ltb_spec (Index (aliveClients (lobby s)) p) (turnIndex (lobby s))).
    + rewrite list_lookup_delete_ge by lia. f_equal. lia.
    + by rewrite list_lookup_delete_lt by lia.
  - apply not_elem_of_delete; [by apply alive_wf_NoDup|done].
Qed.

(** ** The leave handler of the earlier revision *)

Lemma with_clients_same l : with_clients (clients l) l = l.
Proof. by destruct l. Qed.

(** The earlier revision of [onClientLeave] has no guard on the id: for a
    client that is no longer registered it deletes nothing, but it
    broadcasts client_left again before it returns. *)
Lemma rev1_leave_absent challenge s p c :
  heap s !! p = Some c ->
  clients (lobby s) !! client_id c = None ->
  status (lobby s) <> InProgress \/ p ∉ aliveClients (lobby s) ->
  Rev1.onClientLeave challenge p s =
  Ok tt (told (server_msg ClientLeft (CInt (client_id c))) s).
Proof.
  intros Hc Habs Hidle. unfold Rev1.onClientLeave.
  repeat mstep. rewrite delete_id by done. rewrite with_clients_same.
  replace (negb (is_InProgress (status (lobby s))) ||
           negb (Contains_ptr (aliveClients (lobby s)) p)) with true.
  - unfold told, to_all. by destruct s.
  - symmetry. apply orb_true_iff. destruct Hidle as [Hst|Hout].
    + left. by destruct (status (lobby s)).
    + right. unfold Contains_ptr. by rewrite bool_decide_eq_false_2.
Qed.

(** On the earlier revision (src/unnamed/part_001) the second of two
    leave events for client 1 is broadcast like the first, where the
    handler with the guard returns the state unchanged. *)
Lemma rev1_second_leave_is_broadcast :
  exists s1 s2,
    Rev1.onClientLeave "atr" 1%positive (demo WaitingForPlayers [] (-1)) = Ok tt s1 /\
    clients (lobby s1) !! 1 = None /\
    Rev1.onClientLeave "atr" 1%positive s1 = Ok tt s2 /\
    payload <$> sent s1 = [server_msg ClientLeft (CInt 1)] /\
    payload <$> sent s2 = [server_msg ClientLeft (CInt 1); server_msg ClientLeft (CInt 1)] /\
    onClientLeave demo_world 1%positive s1 = Ok tt s1.
Proof.
  eexists _, _. split; [reflexivity|]. split; [compute_done|].
  split; [reflexivity|]. repeat split; compute_done.
Qed.

(** ** Joining *)

Lemma sortedClients_ok s :
  clients_wf s ->
  sortedClients s = Ok (SortedFunc (attach (heap s) (Values (clients (lobby s))))) s.
Proof.
  intros Hwf. destruct (clients_wf_values s Hwf) as [Hall _].
  unfold sortedClients. mstep.
  erewrite bind_ok; [reflexivity|]. apply deref_all_ok.
  eapply Forall_impl; [exact Hall|]. intros p (c & Hc & _). by exists c.
Qed.

Lemma BuildClientDetails_returns j s :
  lobby_inv s -> exists d, BuildClientDetails j s = Ok d s.
Proof.
  intros (Hc & Hfit & Hrun & _). unfold BuildClientDetails. mstep.
  erewrite bind_ok by (by apply sortedClients_ok).
  destruct (status (lobby s)) eqn:Hst; cbn [is_InProgress]; try (by eexists).
  destruct (Hrun Hst) as [Hv _].
  destruct (lookup_lt_len _ _ Hv) as [cur Hcur].
  destruct (alive_wf_lookup s cur (alive_fit_wf _ Hfit)) as [c Hcc];
    [by eapply list_elem_of_lookup_2|].
  erewrite bind_ok; [by eexists|].
  erewrite bind_ok by (apply index_ok; [apply Hv|done]).
  by erewrite bind_ok by (by apply deref_ok).
Qed.

(** A join, step by step: the joiner is sent its snapshot of the lobby
    as it was before the join, then it is registered under its id, then
    the join is broadcast to every client including the joiner, with the
    alive flag set unless a game is in progress.  The alive list, the
    status and the turn pointer are not touched.  In a state the event loop
    reaches, the join of an existing client returns. *)
Theorem onClientJoin_spec p s :
  (forall s',
     onClientJoin p s = Ok tt s' ->
     exists c d,
       heap s !! p = Some c /\
       BuildClientDetails (client_id c) s = Ok d s /\
       heap s' = heap s /\
       lobby s' = with_clients (<[client_id c := p]> (clients (lobby s))) (lobby s) /\
       sent s' = sent s ++
         [{| rcpt := [p]; payload := server_msg ClientDetails (CDetails d) |};
          to_all (lobby s')
            (server_msg ClientJoined
               (CJoined {| joined_ClientId := client_id c;
                           joined_DisplayName := client_displayName c;
                           joined_IconName := client_iconName c;
                           joined_Alive := negb (is_InProgress (status (lobby s))) |}))]) /\
  (lobby_inv s -> is_Some (heap s !! p) -> exists s', onClientJoin p s = Ok tt s').
Proof.
  split.
  - unfold onClientJoin.
    intros s' (c & s1 & [-> Hc]%deref_inv & Hrun)%bind_inv.
    apply bind_inv in Hrun as (d & s2 & Hd & Hrun).
    pose proof (BuildClientDetails_pure (client_id c) s) as Hpure.
    rewrite Hd in Hpure. subst s2.
    exists c, d. split; [done|]. split; [done|].
    injection Hrun as <-. cbn. split; [done|]. split; [done|].
    by rewrite <- app_assoc.
  - intros Hinv [c Hc]. destruct (BuildClientDetails_returns (client_id c) s Hinv) as [d Hd].
    unfold onClientJoin. erewrite bind_ok by (by apply deref_ok).
    erewrite bind_ok by exact Hd. by eexists.
Qed.

(** ** Renaming *)

(** A name_change message with a payload that is no string, or a string
    longer than [MaxDisplayName] bytes, is dropped: the state is unchanged.
    Otherwise the sender's client object gets the new name and the id and
    the name are broadcast. *)
Theorem onNameChange_spec m s :
  (forall name,
     Content_ m = CString name ->
     MaxDisplayName < Z.of_nat (String.length name) ->
     onNameChange m s = Ok tt s) /\
  ((forall name, Content_ m <> CString name) -> onNameChange m s = Ok tt s) /\
  (forall name p c,
     Content_ m = CString name ->
     Z.of_nat (String.length name) <= MaxDisplayName ->
     clients (lobby s) !! From m = Some p ->
     heap s !! p = Some c ->
     onNameChange m s =
     Ok tt {| heap := <[p := set_displayName name c]> (heap s);
              lobby := lobby s;
              sent := sent s ++
                [to_all (lobby s)
                   (server_msg NameChange
                      (CRename {| rename_ClientId := client_id c;
                                  rename_NewDisplayName := name |}))] |}).
Proof.
  unfold onNameChange. repeat split.
  - intros name -> Hlong.
    by destruct (Z.gtb_spec (Z.of_nat (String.length name)) MaxDisplayName); [|lia].
  - intros Hno. destruct (Content_ m) as [|name| | | | | |]; try done.
    by destruct (Hno name).
  - intros name p c -> Hshort Hp Hc.
    destruct (Z.gtb_spec (Z.of_nat (String.length name)) MaxDisplayName); [lia|].
    mstep. rewrite Hp. unfold store_displayName.
    rewrite bind_unfold, Hc. cbn [heap lobby sent].
    erewrite bind_ok by (apply deref_ok; cbn; apply lookup_insert_eq).
    by rewrite broadcast_ok.
Qed.

(** ** Rules for [returns] *)

Lemma returns_ret {A} (a : A) s (Q : A -> State -> Prop) : Q a s -> returns (ret a) s Q.
Proof. intros H a' s' [= <- <-]. exact H. Qed.

Lemma returns_panic {A} s (Q : A -> State -> Prop) : returns panic s Q.
Proof. intros a s' [=]. Qed.

Lemma returns_bind {A B} (m : M A) (k : A -> M B) s (Q : B -> State -> Prop) :
  returns m s (fun a s1 => returns (k a) s1 Q) -> returns (bind m k) s Q.
Proof.
  intros H b s' Hrun. apply bind_inv in Hrun as (a & s1 & Hm & Hk).
  exact (H a s1 Hm b s' Hk).
Qed.

Lemma returns_get s (Q : Lobby -> State -> Prop) : Q (lobby s) s -> returns get s Q.
Proof. intros H a s' [= <- <-]. exact H. Qed.

Lemma returns_modify f s (Q : unit -> State -> Prop) :
  Q tt {| heap := heap s; lobby := f (lobby s); sent := sent s |} ->
  returns (modify f) s Q.
Proof. intros H [] s' [= <-]. exact H. Qed.

Lemma returns_send to m s (Q : unit -> State -> Prop) :
  Q tt {| heap := heap s; lobby := lobby s;
          sent := sent s ++ [{| rcpt := to; payload := m |}] |} ->
  returns (send to m) s Q.
Proof. intros H [] s' [= <-]. exact H. Qed.

Lemma returns_BroadcastMessage m s (Q : unit -> State -> Prop) :
  Q tt {| heap := heap s; lobby := lobby s;
          sent := sent s ++ [to_all (lobby s) m] |} ->
  returns (BroadcastMessage m) s Q.
Proof. intros H [] s'. rewrite broadcast_ok. intros [= <-]. exact H. Qed.

Lemma returns_deref p s (Q : Client -> State -> Prop) :
  (forall c, heap s !! p = Some c -> Q c s) -> returns (deref p) s Q.
Proof. intros H c s' [-> Hc]%deref_inv. by apply H. Qed.

Lemma index_inv {A} (l : list A) i x s s' :
  index l i s = Ok x s' -> s' = s /\ 0 <= i < len l /\ l !! Z.to_nat i = Some x.
Proof.
  unfold index.
  destruct (Z.leb_spec 0 i), (Z.ltb_spec i (len l)); cbn; try discriminate.
  destruct (l !! Z.to_nat i); [|discriminate]. intros [= <- <-]. auto.
Qed.

Lemma returns_index {A} (l : list A) i s (Q : A -> State -> Prop) :
  (forall x, 0 <= i < len l -> l !! Z.to_nat i = Some x -> Q x s) ->
  returns (index l i) s Q.
Proof. intros H x s' (-> & Hi & Hx)%index_inv. by apply H. Qed.

Lemma returns_store_displayName p n s (Q : unit -> State -> Prop) :
  (forall c, heap s !! p = Some c ->
             Q tt {| heap := <[p := set_displayName n c]> (heap s);
                     lobby := lobby s; sent := sent s |}) ->
  returns (store_displayName p n) s Q.
Proof.
  intros H [] s'. unfold store_displayName.
  destruct (heap s !! p) as [c|] eqn:Hc; [|discriminate].
  intros [= <-]. by apply H.
Qed.

Lemma without_id_alloc i cs r s s' :
  without_id i cs s = Ok r s' -> Forall (fun p => is_Some (heap s !! p)) cs.
Proof.
  revert r s'. induction cs as [|p cs IH]; intros r s'; cbn [without_id]; [done|].
  intros (c & s1 & [-> Hc]%deref_inv & Hrun)%bind_inv.
  apply bind_inv in Hrun as (r' & s2 & Hr' & _).
  constructor; [by eexists|]. by eapply IH.
Qed.

Lemma without_id_inv i cs r s s' :
  without_id i cs s = Ok r s' ->
  s' = s /\ Forall (fun p => is_Some (heap s !! p)) cs /\
  r = filter (fun p => id_of (heap s) p <> Some i) cs.
Proof.
  intros Hrun. pose proof (without_id_alloc _ _ _ _ _ Hrun) as Hall.
  rewrite (without_id_ok _ _ _ Hall) in Hrun. by injection Hrun as <- <-.
Qed.

Lemma returns_without_id i cs s (Q : list ptr -> State -> Prop) :
  (Forall (fun p => is_Some (heap s !! p)) cs ->
   Q (filter (fun p => id_of (heap s) p <> Some i) cs) s) ->
  returns (without_id i cs) s Q.
Proof. intros H r s' (-> & Hall & ->)%without_id_inv. by apply H. Qed.

Lemma returns_weaken {A} (m : M A) s (Q Q' : A -> State -> Prop) :
  returns m s Q -> (forall a s', Q a s' -> Q' a s') -> returns m s Q'.
Proof. intros H HQ a s' Hrun. by apply HQ, H. Qed.

Lemma returns_keeps {A} (R : State -> State -> Prop) (m : M A) s :
  keeps R m -> returns m s (fun _ s' => R s s').
Proof. intros H a s' Hrun. by eapply keeps_Ok. Qed.

(** One step of a handler, read backwards from its postcondition. *)
Ltac wp_step :=
  first
    [ apply returns_bind
    | apply returns_get
    | apply returns_modify
    | apply returns_ret
    | apply returns_panic
    | apply returns_send
    | apply returns_BroadcastMessage
    | apply returns_deref; intros ? ?
    | apply returns_index; intros ? ? ?
    | apply returns_without_id; intros ?
    | apply returns_store_displayName; intros ? ? ];
  cbv beta; cbn [heap lobby sent].

Ltac wp := repeat wp_step.

(** The same, entering both branches of every conditional on the way. *)
Ltac wp_all :=
  repeat first
    [ wp_step
    | match goal with
      | |- returns (if ?c then _ else _) _ _ => destruct c eqn:?
      end ].

Lemma deref_all_alloc ps r s s' :
  deref_all ps s = Ok r s' -> Forall (fun p => is_Some (heap s !! p)) ps.
Proof.
  revert r s'. induction ps as [|p ps IH]; intros r s'; cbn [deref_all]; [done|].
  intros (c & s1 & [-> Hc]%deref_inv & Hrun)%bind_inv.
  apply bind_inv in Hrun as (r' & s2 & Hr' & _).
  constructor; [by eexists|]. by eapply IH.
Qed.

Lemma returns_deref_all ps s (Q : list (ptr * Client) -> State -> Prop) :
  (Forall (fun p => is_Some (heap s !! p)) ps -> Q (attach (heap s) ps) s) ->
  returns (deref_all ps) s Q.
Proof.
  intros H r s' Hrun. pose proof (deref_all_alloc _ _ _ _ Hrun) as Hall.
  rewrite (deref_all_ok _ _ Hall) in Hrun. injection Hrun as <- <-. by apply H.
Qed.

Lemma returns_sortedClients s (Q : list (ptr * Client) -> State -> Prop) :
  (Forall (fun p => is_Some (heap s !! p)) (Values (clients (lobby s))) ->
   Q (SortedFunc (attach (heap s) (Values (clients (lobby s))))) s) ->
  returns sortedClients s Q.
Proof.
  intros H. unfold sortedClients. apply returns_bind, returns_get, returns_bind.
  apply returns_deref_all. intros Hall. wp. auto.
Qed.

Lemma returns_resetAliveClients s (Q : unit -> State -> Prop) :
  (Forall (fun p => is_Some (heap s !! p)) (Values (clients (lobby s))) ->
   Q tt {| heap := heap s;
           lobby := with_aliveClients (roster (heap s) (clients (lobby s))) (lobby s);
           sent := sent s |}) ->
  returns resetAliveClients s Q.
Proof.
  intros H. unfold resetAliveClients. apply returns_bind, returns_sortedClients.
  intros Hall. wp. by apply H.
Qed.

Lemma returns_pure {A} (m : M A) s (Q : A -> State -> Prop) :
  keeps eq m -> (forall a, Q a s) -> returns m s Q.
Proof. intros Hm H a s' Hrun. by rewrite <- (keeps_Ok eq m _ _ _ Hm Hrun). Qed.

Lemma returns_unit (m : M unit) s (P : State -> Prop) :
  returns m s (fun _ s' => P s') -> forall s', m s = Ok tt s' -> P s'.
Proof. intros H s' Hrun. exact (H tt s' Hrun). Qed.

Lemma returns_elim {A} (m : M A) s (Q : A -> State -> Prop) :
  returns m s Q -> forall a s', m s = Ok a s' -> Q a s'.
Proof. intros H. exact H. Qed.

(** ** What every turn change does *)

Lemma sublist_filter {A} (P : A -> Prop) `{forall x, Decision (P x)} (l : list A) :
  filter P l `sublist_of` l.
Proof.
  induction l as [|x l IH]; [done|].
  rewrite filter_cons. destruct (decide (P x)); by constructor.
Qed.

Lemma changeTurn_effect w b s :
  returns (changeTurn w b) s (fun _ s' => turn_changed w b s s').
Proof.
  unfold changeTurn. destruct b; cbn [negb].
  all: wp_all.
  all: unfold turn_changed, valid_turn; cbn in *.
  all: repeat match goal with |- _ /\ _ => split end.
  all: try reflexivity; try apply sublist_filter; try discriminate; try lia.
  all: try (by intros _).
  all: try (match goal with H : (_ =? 0) = _ |- _ => by rewrite H end).
  all: eauto.
Qed.

(** ** Handlers, case by case *)

(** Through a whole handler: every conditional is entered, a turn change
    is replaced by what it is known to do. *)
Ltac wp_handler :=
  repeat first
    [ match goal with
      | |- returns (changeTurn _ _) _ _ =>
        eapply returns_weaken; [apply changeTurn_effect|intros [] ? ?]
      | |- returns (BuildClientDetails _) _ _ =>
        apply returns_pure; [apply BuildClientDetails_pure|intros ?]
      | |- returns resetAliveClients _ _ =>
        apply returns_resetAliveClients; intros ?
      | |- returns sortedClients _ _ =>
        apply returns_sortedClients; intros ?
      | |- returns (if ?c then _ else _) _ _ => destruct c eqn:?
      | |- returns (match ?x with _ => _ end) _ _ => destruct x eqn:?
      | |- returns (bind (changeTurn _ _) _) _ _ => apply returns_bind
      | |- returns (bind (BuildClientDetails _) _) _ _ => apply returns_bind
      | |- returns (bind resetAliveClients _) _ _ => apply returns_bind
      | |- returns (bind sortedClients _) _ _ => apply returns_bind
      end
    | wp_step ].

(** The guards of the handlers, as propositions. *)
Ltac guards :=
  repeat match goal with
    | H : _ || _ = false |- _ => apply orb_false_iff in H as [? ?]
    | H : _ && _ = true |- _ => apply andb_true_iff in H as [? ?]
    | H : negb _ = false |- _ => apply negb_false_iff in H
    | H : negb _ = true |- _ => apply negb_true_iff in H
    | H : is_InProgress ?st = true |- _ =>
      destruct st eqn:?; cbn in H; try discriminate H; clear H
    | H : is_Waiting ?st = true |- _ =>
      destruct st eqn:?; cbn in H; try discriminate H; clear H
    | H : is_Over ?st = true |- _ =>
      destruct st eqn:?; cbn in H; try discriminate H; clear H
    | H : Contains_ptr _ _ = true |- _ => apply bool_decide_eq_true in H
    | H : Contains_ptr _ _ = false |- _ => apply bool_decide_eq_false in H
    | H : (_ =? _) = true |- _ => apply Z.eqb_eq in H
    | H : (_ =? _) = false |- _ => apply Z.eqb_neq in H
    | H : (_ >=? _) = true |- _ => apply Z.geb_le in H
    | H : (_ >? _) = true |- _ => apply Z.gtb_lt in H
    | H : (_ >? _) = false |- _ => rewrite Z.gtb_ltb in H; apply Z.ltb_ge in H
    | H : (_ <? _) = true |- _ => apply Z.ltb_lt in H
    | H : (_ <? _) = false |- _ => apply Z.ltb_ge in H
    end.

Ltac game_facts :=
  try match goal with
      | H : turn_changed _ _ _ _ |- _ => destruct H as (_ & _ & ? & ? & _)
      end;
  guards; cbn in *.

(** ** Turn changes and the life cycle of a game *)

(** Whatever state a turn change is run in, if it returns it has touched
    neither the client objects nor the roster, the status or the winner's
    name; the alive list has only lost entries (none in advance mode); a
    new round is counted exactly when the pointer ends at position 0; the
    timer is armed with the limit of the round now current, the deadline
    and the challenge are set from it; the pointer denotes an alive client
    and the one message sent is the [clients_turn] notice naming that
    client, the new challenge and the new deadline. *)
Theorem changeTurn_post w b s s' :
  changeTurn w b s = Ok tt s' ->
  heap s' = heap s /\
  clients (lobby s') = clients (lobby s) /\
  status (lobby s') = status (lobby s) /\
  winnersName (lobby s') = winnersName (lobby s) /\
  aliveClients (lobby s') `sublist_of` aliveClients (lobby s) /\
  (b = false -> aliveClients (lobby s') = aliveClients (lobby s)) /\
  turnRounds (lobby s') =
    (if turnIndex (lobby s') =? 0 then wrap (turnRounds (lobby s) + 1)
     else turnRounds (lobby s)) /\
  turnExpired (lobby s') = Some (getTurnLimitDuration (lobby s')) /\
  currentTurnEnd (lobby s') = (now w + getTurnLimitDuration (lobby s')) / 1000000 /\
  currentChallenge (lobby s') = GetChallenge w (getTurnDifficulty (lobby s')) /\
  valid_turn (lobby s') /\
  exists cur c,
    aliveClients (lobby s') !! Z.to_nat (turnIndex (lobby s')) = Some cur /\
    heap s !! cur = Some c /\
    sent s' = sent s ++
      [{| rcpt := Values (clients (lobby s'));
          payload := server_msg ClientsTurn
                       (CTurn {| turn_ClientId := client_id c;
                                 turn_Challenge := currentChallenge (lobby s');
                                 turn_TurnEnd := currentTurnEnd (lobby s') |}) |}].
Proof.
  revert s'. apply returns_unit. eapply returns_weaken; [apply changeTurn_effect|].
  intros [] s' Hpost. exact Hpost.
Qed.

(** The status of a lobby moves only along three edges: from
    WaitingForPlayers to InProgress by a start_game message, from InProgress
    to Over when a timer expiry or the leave of an alive client finds
    exactly two clients alive, and from Over to InProgress by a
    restart_game message; start and restart need two clients in the lobby.
    No event leads back to WaitingForPlayers.  The winner's name is written
    only on the edge to Over, and then it is the display name of an alive
    client. *)
Theorem status_lifecycle w e s s' :
  handle w e s = Ok tt s' ->
  (status (lobby s') = status (lobby s) /\
   winnersName (lobby s') = winnersName (lobby s)) \/
  (status (lobby s) = WaitingForPlayers /\ status (lobby s') = InProgress /\
   winnersName (lobby s') = winnersName (lobby s) /\
   2 <= Z.of_nat (size (clients (lobby s))) /\
   exists m, e = Read m /\ Type_ m = StartGame) \/
  (status (lobby s) = Over /\ status (lobby s') = InProgress /\
   winnersName (lobby s') = winnersName (lobby s) /\
   2 <= Z.of_nat (size (clients (lobby s))) /\
   exists m, e = Read m /\ Type_ m = RestartGame) \/
  (status (lobby s) = InProgress /\ status (lobby s') = Over /\
   len (aliveClients (lobby s)) = 2 /\
   (e = TimerFired \/ exists p, e = Leave p /\ p ∈ aliveClients (lobby s)) /\
   exists winner cw,
     winner ∈ aliveClients (lobby s) /\ heap s !! winner = Some cw /\
     winnersName (lobby s') = client_displayName cw).
Proof.
  revert s'. apply returns_unit.
  destruct e as [p|p|m|]; cbn [handle].
  - unfold onClientJoin. wp_handler. by left.
  - unfold onClientLeave. wp_handler.
    all: try (left; split; reflexivity).
    all: game_facts.
    all: try (left; split; congruence).
    all: repeat right.
    all: repeat split; eauto.
    all: do 2 eexists; split; [eapply list_elem_of_lookup_2; eassumption|by split].
  - unfold onMessage.
    destruct (Type_ m) eqn:Hty; try (wp; by left).
    + unfold onStartGame. wp_handler.
      all: try (left; split; reflexivity).
      game_facts.
      right; left. repeat split; eauto; congruence.
    + unfold onRestartGame. wp_handler.
      all: try (left; split; reflexivity).
      game_facts.
      right; right; left. repeat split; eauto; congruence.
    + unfold onAnswerPreview, from_turn_holder. wp_handler.
      all: left; split; reflexivity.
    + unfold onAnswerSubmitted, from_turn_holder. wp_handler.
      all: try (left; split; reflexivity).
      all: game_facts; left; split; congruence.
    + unfold onNameChange. wp_handler.
      all: left; split; reflexivity.
  - wp. unfold onTurnExpired. wp_handler.
    all: try (left; split; reflexivity).
    all: game_facts.
    all: try (left; split; congruence).
    all: repeat right.
    all: repeat split; eauto; try lia.
    all: do 2 eexists; split; [eapply list_elem_of_lookup_2; eassumption|by split].
Qed.

(** ** Who is alive, and who may play *)

Lemma sublist_singleton {A} (x : A) (l : list A) i :
  l !! i = Some x -> [x] `sublist_of` l.
Proof.
  intros (l1 & l2 & -> & _)%list_elem_of_split_length.
  apply sublist_inserts_l. constructor. apply sublist_nil_l.
Qed.

(** While a game is in progress the alive list only loses entries: after
    any event it is a sublist of what it was, and a join or a message
    leaves it as it is.  Clients go out by leaving or by a timer expiry
    only, and nobody comes back in before the game is over. *)
Theorem alive_only_shrinks w e s s' :
  handle w e s = Ok tt s' ->
  status (lobby s) = InProgress ->
  aliveClients (lobby s') `sublist_of` aliveClients (lobby s) /\
  ((exists p, e = Join p) \/ (exists m, e = Read m) ->
   aliveClients (lobby s') = aliveClients (lobby s)).
Proof.
  intros Hrun Hst. revert s' Hrun. apply returns_unit.
  destruct e as [p|p|m|]; cbn [handle].
  - unfold onClientJoin. wp_handler. done.
  - unfold onClientLeave. wp_handler.
    all: try match goal with
             | H : turn_changed _ _ _ _ |- _ => destruct H as (_ & _ & _ & _ & ? & _)
             end.
    all: cbn in *.
    all: (split; [first [done | apply sublist_filter]|]).
    all: by intros [[? [=]]|[? [=]]].
  - unfold onMessage.
    destruct (Type_ m) eqn:Hty; try (wp; done).
    + unfold onStartGame. wp_handler; [|done].
      guards. congruence.
    + unfold onRestartGame. wp_handler; [|done].
      guards. congruence.
    + unfold onAnswerPreview, from_turn_holder. wp_handler; done.
    + unfold onAnswerSubmitted, from_turn_holder. wp_handler; try done.
      match goal with
      | H : turn_changed _ _ _ _ |- _ => destruct H as (_ & _ & _ & _ & _ & Hsame & _)
      end.
      cbn in *. by rewrite Hsame.
    + unfold onNameChange. wp_handler; done.
  - wp. unfold onTurnExpired. wp_handler.
    all: try match goal with
             | H : turn_changed _ _ _ _ |- _ => destruct H as (_ & _ & _ & _ & ? & _)
             end.
    all: cbn in *.
    all: (split; [first [done | by eapply sublist_singleton]|]).
    all: by intros [[? [=]]|[? [=]]].
Qed.

Ltac by_the_holder :=
  guards;
  split;
    [ intros _ ? ? Hcur Hc Hne;
      match goal with
      | Hx : aliveClients _ !! _ = Some _ |- _ =>
        rewrite Hx in Hcur; injection Hcur as <-
      end;
      congruence
    | intros Hst; congruence ].

(** In a running game a message from anyone but the client on turn
    changes nothing about the lobby: start_game, restart_game,
    answer_preview and submit_answer are dropped without a reply, and a
    name_change touches the sender's client object only.  Outside a running
    game previews and answers are dropped whoever sends them. *)
Theorem only_the_turn_holder_plays w m s s' :
  onMessage w m s = Ok tt s' ->
  (status (lobby s) = InProgress ->
   forall cur c,
     aliveClients (lobby s) !! Z.to_nat (turnIndex (lobby s)) = Some cur ->
     heap s !! cur = Some c ->
     From m <> client_id c ->
     lobby s' = lobby s /\ (Type_ m <> NameChange -> s' = s)) /\
  (status (lobby s) <> InProgress ->
   Type_ m = SubmitAnswer \/ Type_ m = AnswerPreview ->
   s' = s).
Proof.
  revert s'. apply returns_unit. unfold onMessage.
  destruct (Type_ m) eqn:Hty.
  all: try (wp; split; [by destruct s|by intros ? [[=]|[=]]]).
  - unfold onStartGame. wp_handler.
    + guards. split; [congruence|]. by intros ? [[=]|[=]].
    + split; [by destruct s|by intros ? [[=]|[=]]].
  - unfold onRestartGame. wp_handler.
    + guards. split; [congruence|]. by intros ? [[=]|[=]].
    + split; [by destruct s|by intros ? [[=]|[=]]].
  - unfold onAnswerPreview, from_turn_holder. wp_handler.
    all: try (split; [by destruct s|by destruct s]).
    by_the_holder.
  - unfold onAnswerSubmitted, from_turn_holder. wp_handler.
    all: try (split; [by destruct s|by destruct s]).
    all: by_the_holder.
  - unfold onNameChange. wp_handler.
    all: split; [by destruct s|by intros ? [[=]|[=]]].
Qed.

(** ** No handler panics *)

Lemma onTurnExpired_returns w s :
  lobby_inv s -> exists s', onTurnExpired w s = Ok tt s'.
Proof.
  intros Hinv.
  destruct (decide (status (lobby s) = InProgress)) as [Hst|Hst].
  2:{ exists s. by apply expire_idle. }
  pose proof Hinv as (Hc & Hfit & Hrun & _).
  pose proof (alive_fit_wf _ Hfit) as Hwf.
  destruct (Hrun Hst) as [Hv Hlen].
  destruct (lookup_lt_len _ _ Hv) as [cur Hcur].
  assert (cur ∈ aliveClients (lobby s)) as Hin by (by eapply list_elem_of_lookup_2).
  destruct (alive_wf_lookup s cur Hwf Hin) as [c Hcc].
  destruct (decide (len (aliveClients (lobby s)) = 2)) as [H2|H2].
  - destruct (two_alive _ _ H2 Hin (alive_wf_NoDup _ Hwf)) as (q & Hpq & Hne).
    assert (q ∈ aliveClients (lobby s)) as Hq
      by (destruct Hpq as [E|E]; rewrite E, !elem_of_cons; tauto).
    destruct (alive_wf_lookup s q Hwf Hq) as [cq Hcq].
    eexists. apply (expire_last_two w s cur q c cq); [done| |done..].
    destruct Hv as [H0 Hlt]. rewrite H2 in Hlt.
    destruct Hpq as [E|E]; rewrite E in Hcur; [left|right]; (split; [done|]).
    + destruct (Z.to_nat (turnIndex (lobby s))) as [|[|?]] eqn:En; cbn in Hcur;
        [lia|congruence|lia].
    + destruct (Z.to_nat (turnIndex (lobby s))) as [|[|?]] eqn:En; cbn in Hcur;
        [congruence|lia|lia].
  - rewrite (expire_many w s cur c) by (first [done | apply Hv | lia]).
    destruct (changeTurn_eliminate_ok w
                (told (server_msg TurnExpired (CInt (client_id c))) s))
      as (p' & c' & _ & _ & Hrun'); [done..|].
    eauto.
Qed.

Lemma from_turn_holder_returns m s :
  lobby_inv s -> exists b, from_turn_holder m s = Ok b s.
Proof.
  intros (Hc & Hfit & Hrun & _). unfold from_turn_holder. mstep.
  destruct (status (lobby s)) eqn:Hst; cbn [is_InProgress negb]; try (by eexists).
  destruct (Hrun Hst) as [Hv _].
  destruct (lookup_lt_len _ _ Hv) as [cur Hcur].
  destruct (alive_wf_lookup s cur (alive_fit_wf _ Hfit)) as [c Hcc];
    [by eapply list_elem_of_lookup_2|].
  erewrite bind_ok by (apply index_ok; [apply Hv|done]).
  erewrite bind_ok by (by apply deref_ok). by eexists.
Qed.

Lemma onAnswerSubmitted_returns w m s :
  lobby_inv s -> exists s', onAnswerSubmitted w m s = Ok tt s'.
Proof.
  intros Hinv. unfold onAnswerSubmitted.
  destruct (from_turn_holder_returns m s Hinv) as [b Hb].
  pose proof Hb as Hb'. erewrite bind_ok by exact Hb.
  destruct b; [|by eexists].
  apply from_turn_holder_inv in Hb' as [_ Hst].
  destruct (Content_ m) as [|answer| | | | | |]; try (by eexists).
  mstep.
  destruct (negb (IsValidWord w answer)); [rewrite broadcast_ok; by eexists|].
  destruct (String.eqb answer (currentChallenge (lobby s)));
    [rewrite broadcast_ok; by eexists|].
  destruct (negb (Contains answer (currentChallenge (lobby s))));
    [rewrite broadcast_ok; by eexists|].
  mstep.
  destruct (inv_changeTurn_advance w
              (told (server_msg AnswerAccepted (CString answer)) s))
    as (s' & Hrun & _); [by apply inv_told|done|].
  by exists s'.
Qed.

Lemma onNameChange_returns m s :
  lobby_inv s -> is_Some (clients (lobby s) !! From m) ->
  exists s', onNameChange m s = Ok tt s'.
Proof.
  intros (Hc & _) [p Hp]. unfold onNameChange.
  destruct (Content_ m) as [|name| | | | | |]; try (by eexists).
  destruct (Z.of_nat (String.length name) >? MaxDisplayName); [by eexists|].
  mstep. rewrite Hp.
  destruct (Hc _ _ Hp) as [Hid _]. unfold id_of in Hid.
  destruct (heap s !! p) as [c|] eqn:Hcp; [|done].
  unfold store_displayName. rewrite bind_unfold, Hcp. cbn [heap lobby sent].
  erewrite bind_ok by (apply deref_ok; cbn; apply lookup_insert_eq).
  rewrite broadcast_ok. by eexists.
Qed.

Lemma onMessage_returns w m s :
  lobby_inv s -> deliverable (Read m) s -> exists s', onMessage w m s = Ok tt s'.
Proof.
  intros Hinv Hd. pose proof Hinv as (Hc & Hfit & Hrun & Hwait).
  unfold onMessage. destruct (Type_ m) eqn:Hty; try (by eexists).
  - destruct (decide (status (lobby s) = WaitingForPlayers)) as [Hst|Hst].
    + destruct (Z_lt_le_dec (Z.of_nat (size (clients (lobby s)))) 2) as [Hn|Hn].
      * exists s. apply onStartGame_idle. by right.
      * destruct (onStartGame_ok w m s) as (? & ? & _ & _ & Hgo); auto. eauto.
    + exists s. apply onStartGame_idle. by left.
  - destruct (decide (status (lobby s) = Over)) as [Hst|Hst].
    + destruct (Z_lt_le_dec (Z.of_nat (size (clients (lobby s)))) 2) as [Hn|Hn].
      * exists s. apply onRestartGame_idle. by right.
      * destruct (onRestartGame_ok w m s) as (? & ? & _ & _ & _ & Hgo); auto. eauto.
    + exists s. apply onRestartGame_idle. by left.
  - unfold onAnswerPreview.
    destruct (from_turn_holder_returns m s Hinv) as [b Hb].
    erewrite bind_ok by exact Hb.
    destruct b; [|by eexists].
    destruct (Content_ m); by eexists.
  - by apply onAnswerSubmitted_returns.
  - apply onNameChange_returns; [done|]. by apply Hd.
Qed.

Lemma handle_returns w e s :
  lobby_inv s -> deliverable e s -> exists s', handle w e s = Ok tt s'.
Proof.
  intros Hinv Hd. destruct e as [p|p|m|]; cbn [handle].
  - destruct Hd as [c Hc].
    destruct (BuildClientDetails_returns (client_id c) s Hinv) as [d Hdet].
    unfold onClientJoin. erewrite bind_ok by (by apply deref_ok).
    erewrite bind_ok by exact Hdet. by eexists.
  - destruct Hd as [c Hc]. pose proof Hinv as (_ & Hfit & Hrun & _).
    destruct (clients (lobby s) !! client_id c) as [q|] eqn:Hq.
    + destruct (onClientLeave_present w s p c) as (s' & Hgo & _);
        [done|by rewrite Hq|by apply alive_fit_wf|done|].
      by exists s'.
    + exists s. by apply leave_absent with c.
  - by apply onMessage_returns.
  - mstep. apply onTurnExpired_returns.
    revert Hinv. by apply lobby_inv_core.
Qed.

(** In a state the event loop has reached, no handler panics: no index
    out of range, no nil dereference, no division by zero, whatever the
    event, as long as it carries an actual client and, for a name change,
    the id of a client that is in the lobby.  The loop goes on (or, after
    the leave of the last client, ends) and never takes the recover
    branch. *)
Theorem handlers_never_panic w e s :
  reachable s -> deliverable e s ->
  exists s', handle w e s = Ok tt s' /\
             (step w e s = Running s' \/ step w e s = Ended s').
Proof.
  intros Hr Hd.
  destruct (handle_returns w e s (reachable_inv s Hr) Hd) as [s' Hgo].
  exists s'. split; [done|]. unfold step. rewrite Hgo.
  destruct e; auto.
  destruct (Z.of_nat (size (clients (lobby s'))) =? 0); auto.
Qed.

(** A name_change message with an acceptable name whose sender's id is not
    in the lobby (the client has left, or never joined) makes the handler
    dereference a nil pointer: it panics before anything is changed or
    sent, and the loop ends through its recover branch. *)
Theorem stale_rename_crashes w m s name :
  Type_ m = NameChange ->
  Content_ m = CString name ->
  Z.of_nat (String.length name) <= MaxDisplayName ->
  clients (lobby s) !! From m = None ->
  onNameChange m s = Panic s /\ step w (Read m) s = Crashed s.
Proof.
  intros Hty Hc Hlen Hfrom.
  assert (onNameChange m s = Panic s) as Hpanic.
  { unfold onNameChange. rewrite Hc.
    destruct (Z.gtb_spec (Z.of_nat (String.length name)) MaxDisplayName); [lia|].
    mstep. by rewrite Hfrom. }
  split; [done|]. unfold step. cbn [handle]. unfold onMessage. by rewrite Hty, Hpanic.
Qed.

(** ** The turn timer *)

Lemma step_Running w e s s' : step w e s = Running s' -> handle w e s = Ok tt s'.
Proof.
  unfold step. destruct (handle w e s) as [[] s1|s1] eqn:Hrun; [|done].
  destruct e; try (by intros [= ->]).
  destruct (Z.of_nat (size (clients (lobby s1))) =? 0); [done|by intros [= ->]].
Qed.

Lemma handle_timer w e s :
  timer_pending (lobby s) ->
  returns (handle w e) s (fun _ s' => timer_pending (lobby s')).
Proof.
  intros Hp. unfold timer_pending in *.
  destruct e as [p|p|m|]; cbn [handle].
  - unfold onClientJoin. wp_handler. done.
  - unfold onClientLeave. wp_handler.
    all: try match goal with
             | H : turn_changed _ _ _ _ |- _ =>
               destruct H as (_ & _ & _ & _ & _ & _ & _ & ? & _)
             end.
    all: cbn in *; done.
  - unfold onMessage.
    destruct (Type_ m) eqn:Hty; try (wp; done).
    + unfold onStartGame. wp_handler; [|done].
      match goal with
      | H : turn_changed _ _ _ _ |- _ =>
        destruct H as (_ & _ & _ & _ & _ & _ & _ & ? & _)
      end. done.
    + unfold onRestartGame. wp_handler; [|done].
      match goal with
      | H : turn_changed _ _ _ _ |- _ =>
        destruct H as (_ & _ & _ & _ & _ & _ & _ & ? & _)
      end. done.
    + unfold onAnswerPreview, from_turn_holder. wp_handler; done.
    + unfold onAnswerSubmitted, from_turn_holder. wp_handler; try done.
      match goal with
      | H : turn_changed _ _ _ _ |- _ =>
        destruct H as (_ & _ & _ & _ & _ & _ & _ & ? & _)
      end. done.
    + unfold onNameChange. wp_handler; done.
  - wp. unfold onTurnExpired. wp_handler.
    all: try match goal with
             | H : turn_changed _ _ _ _ |- _ =>
               destruct H as (_ & _ & _ & _ & _ & _ & _ & ? & _)
             end.
    all: guards; cbn in *; try done.
    intros Hst. destruct (status (lobby s)); done.
Qed.

(** In every state the event loop reaches, a game in progress has a turn
    timer pending, and the timer is set to the limit of the round being
    played: no turn is left untimed, whichever events led there. *)
Theorem running_game_has_timer s :
  reachable s ->
  status (lobby s) = InProgress ->
  turnExpired (lobby s) = Some (getTurnLimitDuration (lobby s)).
Proof.
  induction 1 as [h icons|w e s s' Hr IH Hadm Hstep]; [done|].
  apply step_Running in Hstep.
  exact (handle_timer w e s IH tt s' Hstep).
Qed.

(** ** The snapshot for a joining client *)

(** The snapshot [BuildClientDetails] builds lists every client of the
    lobby exactly once, in ascending order of the ids, each with the name
    and icon its client object holds at that moment; a client is flagged
    alive when the lobby still waits for players or the client is in the
    alive list.  The current turn id is the id of the client on turn while
    a game runs and 0 otherwise.  Building the snapshot changes nothing. *)
Theorem snapshot_lists_every_client j s d s' :
  clients_wf s ->
  BuildClientDetails j s = Ok d s' ->
  s' = s /\
  details_ClientId d = j /\
  details_Status d = status (lobby s) /\
  roster (heap s) (clients (lobby s)) ≡ₚ Values (clients (lobby s)) /\
  StronglySorted (asc (heap s)) (roster (heap s) (clients (lobby s))) /\
  Forall2 (fun p e => exists c,
             heap s !! p = Some c /\
             e = {| cc_Id := client_id c;
                    cc_DisplayName := client_displayName c;
                    cc_IconName := client_iconName c;
                    cc_Alive := is_Waiting (status (lobby s)) ||
                                Contains_ptr (aliveClients (lobby s)) p |})
          (roster (heap s) (clients (lobby s))) (details_Clients d) /\
  (status (lobby s) <> InProgress -> details_CurrentTurnId d = 0) /\
  (status (lobby s) = InProgress ->
   exists cur c,
     aliveClients (lobby s) !! Z.to_nat (turnIndex (lobby s)) = Some cur /\
     heap s !! cur = Some c /\
     details_CurrentTurnId d = client_id c).
Proof.
  intros Hwf.
  destruct (resetAliveClients_ok s Hwf) as (_ & Hperm & Hsorted).
  assert (Forall2 (fun p e => exists c,
             heap s !! p = Some c /\
             e = {| cc_Id := client_id c;
                    cc_DisplayName := client_displayName c;
                    cc_IconName := client_iconName c;
                    cc_Alive := is_Waiting (status (lobby s)) ||
                                Contains_ptr (aliveClients (lobby s)) p |})
            (roster (heap s) (clients (lobby s)))
            (map (fun pc : ptr * Client =>
                    {| cc_Id := client_id pc.2;
                       cc_DisplayName := client_displayName pc.2;
                       cc_IconName := client_iconName pc.2;
                       cc_Alive := match status (lobby s) with
                                   | WaitingForPlayers => true
                                   | _ => Contains_ptr (aliveClients (lobby s)) pc.1
                                   end |})
                 (SortedFunc (attach (heap s) (Values (clients (lobby s))))))) as Hlist.
  { unfold roster. apply Forall2_fmap, Forall_Forall2_diag.
    destruct (clients_wf_values s Hwf) as [Hall _].
    assert (Forall (fun p => is_Some (heap s !! p)) (Values (clients (lobby s)))) as Halloc.
    { eapply Forall_impl; [exact Hall|]. intros p (c & Hc & _). by exists c. }
    destruct (attach_spec (heap s) _ Halloc) as [_ Hcs].
    rewrite SortedFunc_perm. eapply Forall_impl; [exact Hcs|].
    intros [p c] Hpc. cbn in *. exists c. split; [done|].
    by destruct (status (lobby s)). }
  revert d s'. apply returns_elim.
  unfold BuildClientDetails. wp_handler.
  all: guards; cbn.
  all: repeat match goal with |- _ /\ _ => split end; try done.
  all: intros Hst; first [congruence | by eauto | by rewrite Hst in *].
Qed.

(** ** Ids and icons of new clients *)

Lemma GetNextClientId_ok s :
  GetNextClientId s =
  Ok (wrap (lastClientId (lobby s) + 1))
     {| heap := heap s;
        lobby := with_lastClientId (wrap (lastClientId (lobby s) + 1)) (lobby s);
        sent := sent s |}.
Proof. reflexivity. Qed.

Lemma with_lastClientId_twice a b l :
  with_lastClientId a (with_lastClientId b l) = with_lastClientId a l.
Proof. reflexivity. Qed.

Lemma draw_ids_ok n s :
  min_int <= lastClientId (lobby s) ->
  lastClientId (lobby s) + Z.of_nat n <= max_int ->
  draw_ids n s =
  Ok (seqZ (lastClientId (lobby s) + 1) (Z.of_nat n))
     {| heap := heap s;
        lobby := with_lastClientId (lastClientId (lobby s) + Z.of_nat n) (lobby s);
        sent := sent s |}.
Proof.
  revert s. induction n as [|n IH]; intros s Hlo Hhi.
  - cbn. unfold ret. rewrite Z.add_0_r. by destruct s as [h [] o].
  - cbn [draw_ids].
    erewrite bind_ok by apply GetNextClientId_ok.
    rewrite wrap_small by int_lia.
    erewrite bind_ok by (apply IH; cbn; int_lia).
    cbn [heap lobby sent lastClientId with_lastClientId]. unfold ret.
    rewrite with_lastClientId_twice.
    rewrite (seqZ_cons (lastClientId (lobby s) + 1) (Z.of_nat (S n))) by lia.
    replace (Z.pred (Z.of_nat (S n))) with (Z.of_nat n) by lia.
    replace (lastClientId (lobby s) + Z.of_nat (S n))
      with (lastClientId (lobby s) + 1 + Z.of_nat n) by lia.
    reflexivity.
Qed.

(** The lobby's counter hands out consecutive ids: [n] draws in a row
    return lastClientId + 1, ..., lastClientId + n and leave the counter at
    the last of them, so the ids are pairwise distinct and each is larger
    than every id drawn before, as long as the counter stays within [int].
    At the largest [int] the increment wraps around and the next id is the
    smallest [int]. *)
Theorem client_ids_are_consecutive n s :
  (0 <= lastClientId (lobby s) ->
   lastClientId (lobby s) + Z.of_nat n <= max_int ->
   exists ids s',
     draw_ids n s = Ok ids s' /\
     ids = seqZ (lastClientId (lobby s) + 1) (Z.of_nat n) /\
     lastClientId (lobby s') = lastClientId (lobby s) + Z.of_nat n /\
     NoDup ids /\
     Forall (fun id => lastClientId (lobby s) < id <= lastClientId (lobby s')) ids) /\
  (lastClientId (lobby s) = max_int ->
   exists s', GetNextClientId s = Ok min_int s' /\ lastClientId (lobby s') = min_int).
Proof.
  split.
  - intros Hlo Hhi. eexists _, _. split; [apply draw_ids_ok; [int_lia|done]|].
    split; [done|]. split; [done|]. split; [apply NoDup_seqZ|].
    apply Forall_forall. intros id Hid%elem_of_seqZ. cbn. lia.
  - intros Hmax. eexists. rewrite GetNextClientId_ok, Hmax. split; reflexivity.
Qed.

Lemma GetDefaultIconName_unfold id s :
  GetDefaultIconName id s =
  (if len (iconNames (lobby s)) =? 0 then panic
   else index (iconNames (lobby s))
              (Z.rem (wrap (id - 1)) (len (iconNames (lobby s))))) s.
Proof. reflexivity. Qed.

(** The default icon of a client is the icon at position
    (id - 1) mod len(iconNames): for every id from 1 on and a non-empty
    icon list the lookup is in range, and two ids that differ by the length
    of the list get the same icon.  With an empty icon list the lookup
    panics (division by zero), and so it does for an id below 1 whenever
    (id - 1) is not a multiple of the length (negative index). *)
Theorem default_icon_cycles id s :
  (iconNames (lobby s) = [] -> GetDefaultIconName id s = Panic s) /\
  (iconNames (lobby s) <> [] -> 1 <= id <= max_int ->
   exists icon,
     iconNames (lobby s) !! Z.to_nat ((id - 1) mod len (iconNames (lobby s))) = Some icon /\
     GetDefaultIconName id s = Ok icon s /\
     (id + len (iconNames (lobby s)) <= max_int ->
      GetDefaultIconName (id + len (iconNames (lobby s))) s = Ok icon s)) /\
  (iconNames (lobby s) <> [] -> min_int < id <= 0 ->
   Z.rem (id - 1) (len (iconNames (lobby s))) <> 0 ->
   GetDefaultIconName id s = Panic s).
Proof.
  rewrite !GetDefaultIconName_unfold.
  assert (iconNames (lobby s) <> [] -> 0 < len (iconNames (lobby s))) as Hpos.
  { unfold len. destruct (iconNames (lobby s)); [done|cbn; lia]. }
  split; [|split].
  - intros ->. reflexivity.
  - intros Hne Hid. specialize (Hpos Hne).
    set (n := len (iconNames (lobby s))) in *.
    destruct (Z.eqb_spec n 0); [lia|].
    rewrite wrap_small by int_lia.
    rewrite Z.rem_mod_nonneg by lia.
    destruct (lookup_lt_len (iconNames (lobby s)) ((id - 1) mod n)) as [icon Hicon].
    { fold n. apply Z.mod_pos_bound. lia. }
    exists icon. split; [done|].
    pose proof (Z.mod_pos_bound (id - 1) n ltac:(lia)) as Hb.
    split; [by apply index_ok; [lia|]|].
    intros Hfit.
    rewrite wrap_small by int_lia.
    rewrite Z.rem_mod_nonneg by lia.
    replace (id + n - 1) with (id - 1 + 1 * n) by lia.
    rewrite Z.mod_add by lia. by apply index_ok; [lia|].
  - intros Hne Hid Hrem. specialize (Hpos Hne).
    set (n := len (iconNames (lobby s))) in *.
    destruct (Z.eqb_spec n 0); [lia|].
    rewrite wrap_small by int_lia.
    unfold index.
    pose proof (Z.rem_nonpos (id - 1) n ltac:(lia) ltac:(lia)) as Hle.
    destruct (Z.leb_spec 0 (Z.rem (id - 1) n)); [lia|]. reflexivity.
Qed.

(** ** Round robin *)

Lemma announced_rounds w s l c :
  turnRounds (lobby (announced w s l c)) =
  if turnIndex l =? 0 then wrap (turnRounds l + 1) else turnRounds l.
Proof. unfold announced, timed, bump_round. cbn. by destruct (turnIndex l =? 0). Qed.

Lemma advance_turns_ok ws s :
  alive_wf s ->
  valid_turn (lobby s) ->
  0 <= turnRounds (lobby s) ->
  turnRounds (lobby s) + Z.of_nat (length ws) <= max_int ->
  exists s',
    advance_turns ws s = Ok tt s' /\
    heap s' = heap s /\
    aliveClients (lobby s') = aliveClients (lobby s) /\
    turnIndex (lobby s') =
      (turnIndex (lobby s) + Z.of_nat (length ws)) mod len (aliveClients (lobby s)) /\
    turnRounds (lobby s') =
      turnRounds (lobby s) +
      (turnIndex (lobby s) + Z.of_nat (length ws)) / len (aliveClients (lobby s)).
Proof.
  revert s. induction ws as [|w ws IH]; intros s Hwf Hv Hr Hk.
  - exists s. unfold valid_turn in Hv. cbn. rewrite Z.add_0_r.
    rewrite Z.mod_small, Z.div_small by lia. repeat split; lia.
  - cbn [advance_turns length] in *.
    pose proof Hwf as (Halloc & Hnd & Hlen).
    unfold valid_turn in Hv.
    destruct (changeTurn_advance_ok w s) as (p & c & _ & _ & Hgo);
      [done|lia|lia|lia|].
    erewrite bind_ok by exact Hgo.
    destruct (announced_frame w s (advanced (lobby s)) c)
      as (Ha & Ht & _ & _ & _ & _ & Hh).
    destruct (advanced_spec (lobby s)) as (Ha' & Ht' & Hv'); [lia..|].
    pose proof (announced_rounds w s (advanced (lobby s)) c) as Hrounds.
    set (s1 := announced w s (advanced (lobby s)) c) in *.
    set (n := len (aliveClients (lobby s))) in *.
    set (t := turnIndex (lobby s)) in *.
    assert (turnRounds (lobby s1) =
            turnRounds (lobby s) + (if (t + 1) mod n =? 0 then 1 else 0)) as Hr1.
    { rewrite Hrounds, Ht'.
      change (turnRounds (advanced (lobby s))) with (turnRounds (lobby s)).
      destruct ((t + 1) mod n =? 0); [|lia].
      rewrite wrap_small; [lia|]. int_lia. }
    destruct (IH s1) as (s' & Hrun & Hh' & Halive & Hti & Hro).
    { destruct Hwf as (? & ? & ?). unfold alive_wf. by rewrite Hh, Ha, Ha'. }
    { unfold valid_turn. rewrite Ha, Ht, Ha'. exact Hv'. }
    { rewrite Hr1. destruct ((t + 1) mod n =? 0); lia. }
    { rewrite Hr1. destruct ((t + 1) mod n =? 0); lia. }
    exists s'. split; [exact Hrun|].
    rewrite Hh', Halive, Hti, Hro, Ha, Ht, Ha', Ht', Hr1, Hh. fold n.
    split; [done|]. split; [done|].
    replace (t + Z.of_nat (S (length ws))) with (t + 1 + Z.of_nat (length ws)) by lia.
    split; [by rewrite Z.add_mod_idemp_l by lia|].
    destruct (Z.eq_dec (t + 1) n) as [E|E].
    + rewrite E, Z_mod_same_full. change (0 =? 0) with true. cbn iota.
      rewrite Z.add_0_l.
      replace (n + Z.of_nat (length ws)) with (Z.of_nat (length ws) + 1 * n) by lia.
      rewrite Z.div_add by lia. lia.
    + rewrite (Z.mod_small (t + 1) n) by lia.
      destruct (Z.eqb_spec (t + 1) 0); lia.
Qed.

(** Accepted answers pass the turn round robin: after [k] plain turn
    changes in a row the alive list is untouched, the pointer has moved
    [k] positions onward modulo the number of alive clients, and the round
    counter has grown by the number of times the pointer came back to
    position 0.  After one answer from each alive client it is the same
    client's turn again, one round later. *)
Theorem turns_rotate ws s :
  alive_wf s ->
  valid_turn (lobby s) ->
  0 <= turnRounds (lobby s) ->
  turnRounds (lobby s) + Z.of_nat (length ws) <= max_int ->
  exists s',
    advance_turns ws s = Ok tt s' /\
    aliveClients (lobby s') = aliveClients (lobby s) /\
    turnIndex (lobby s') =
      (turnIndex (lobby s) + Z.of_nat (length ws)) mod len (aliveClients (lobby s)) /\
    turnRounds (lobby s') =
      turnRounds (lobby s) +
      (turnIndex (lobby s) + Z.of_nat (length ws)) / len (aliveClients (lobby s)) /\
    (Z.of_nat (length ws) = len (aliveClients (lobby s)) ->
     turnIndex (lobby s') = turnIndex (lobby s) /\
     turnRounds (lobby s') = turnRounds (lobby s) + 1).
Proof.
  intros Hwf Hv Hr Hk.
  destruct (advance_turns_ok ws s Hwf Hv Hr Hk) as (s' & Hrun & _ & Ha & Ht & Hro).
  exists s'. split; [done|]. split; [done|]. split; [done|]. split; [done|].
  intros Hall. unfold valid_turn in Hv. rewrite Ht, Hro, Hall.
  replace (turnIndex (lobby s) + len (aliveClients (lobby s)))
    with (turnIndex (lobby s) + 1 * len (aliveClients (lobby s))) by lia.
  rewrite Z.mod_add, Z.div_add by lia.
  rewrite Z.mod_small, Z.div_small by lia. split; lia.
Qed.

(** ** Who is written to *)

Lemma elem_of_Values (m : gmap Z ptr) p :
  p ∈ Values m <-> exists k, m !! k = Some p.
Proof.
  unfold Values. rewrite list_elem_of_fmap. split.
  - intros ([k q] & -> & Hin%elem_of_map_to_list). by exists k.
  - intros [k Hk]. exists (k, p). split; [done|]. by apply elem_of_map_to_list.
Qed.

Lemma leaver_not_in_Values s p c :
  clients_wf s -> heap s !! p = Some c ->
  p ∉ Values (delete (client_id c) (clients (lobby s))).
Proof.
  intros Hwf Hc [k Hk]%elem_of_Values.
  apply lookup_delete_Some in Hk as [Hne Hk].
  destruct (Hwf _ _ Hk) as [Hid _].
  rewrite (id_of_Some _ _ _ Hc) in Hid. congruence.
Qed.

(** Nothing is written to a client that leaves: whatever branch the leave
    handler takes, every message it sends (client_left, game_over,
    clients_turn) goes to the clients that remain registered, and the
    leaver is not among them. *)
Theorem leaver_is_not_written_to w p s s' :
  clients_wf s ->
  onClientLeave w p s = Ok tt s' ->
  exists new,
    sent s' = sent s ++ new /\
    Forall (fun x => (p ∉ rcpt x) /\
                     rcpt x = Values (clients (lobby s'))) new.
Proof.
  intros Hwf. revert s'. apply returns_unit.
  unfold onClientLeave. wp_handler.
  all: try match goal with
           | H : turn_changed _ _ _ _ |- _ =>
             destruct H as (_ & Hcl & _ & _ & _ & _ & _ & _ & _ & _ & _ &
                            ? & ? & _ & _ & Hsent);
             rewrite Hsent; unfold to_all; rewrite !Hcl
           end.
  all: cbn.
  all: try (exists []; split; [by rewrite app_nil_r|constructor]).
  all: rewrite <- ?app_assoc; eexists; (split; [reflexivity|]).
  all: match goal with
       | Hc : heap _ !! ?q = Some ?c |- _ =>
         pose proof (leaver_not_in_Values _ q c Hwf Hc); by repeat constructor
       end.
Qed.

(** ** The last turn notice *)

Lemma last_turn_notice_other log x :
  turn_notice x = None -> last_turn_notice (log ++ [x]) = last_turn_notice log.
Proof.
  intros Hx. unfold last_turn_notice. rewrite omap_app. cbn. rewrite Hx.
  by rewrite app_nil_r.
Qed.

Lemma last_turn_notice_turn log x t :
  turn_notice x = Some t -> last_turn_notice (log ++ [x]) = Some t.
Proof.
  intros Hx. unfold last_turn_notice. rewrite omap_app. cbn. rewrite Hx.
  by rewrite last_snoc.
Qed.

Lemma turn_changed_known w b s s' : turn_changed w b s s' -> turn_known s'.
Proof.
  intros (Hh & _ & _ & _ & _ & _ & _ & _ & _ & _ & _ & cur & c & Hcur & Hc & Hsent) _.
  exists cur, c. split; [done|]. split; [by rewrite Hh|].
  rewrite Hsent. by apply last_turn_notice_turn.
Qed.

(** A step that neither moves the turn nor sends a turn notice. *)
Lemma turn_known_frame s s' :
  turn_known s ->
  (status (lobby s') = InProgress -> status (lobby s) = InProgress) ->
  aliveClients (lobby s') = aliveClients (lobby s) ->
  turnIndex (lobby s') = turnIndex (lobby s) ->
  currentChallenge (lobby s') = currentChallenge (lobby s) ->
  currentTurnEnd (lobby s') = currentTurnEnd (lobby s) ->
  (forall p c, heap s !! p = Some c ->
               exists c', heap s' !! p = Some c' /\ client_id c' = client_id c) ->
  last_turn_notice (sent s') = last_turn_notice (sent s) ->
  turn_known s'.
Proof.
  intros Hk Hst Ha Ht Hch He Hh Hs Hrun.
  destruct (Hk (Hst Hrun)) as (cur & c & Hcur & Hc & Hlast).
  destruct (Hh _ _ Hc) as (c' & Hc' & Hid).
  exists cur, c'. rewrite Ha, Ht, Hch, He, Hs, Hid. auto.
Qed.

Lemma heap_same_ids (h : gmap ptr Client) :
  forall p c, h !! p = Some c -> exists c', h !! p = Some c' /\ client_id c' = client_id c.
Proof. eauto. Qed.

Lemma heap_renamed_ids (h : gmap ptr Client) q n cq :
  h !! q = Some cq ->
  forall p c, h !! p = Some c ->
    exists c', <[q := set_displayName n cq]> h !! p = Some c' /\ client_id c' = client_id c.
Proof.
  intros Hq p c Hc. destruct (decide (q = p)) as [->|Hne].
  - rewrite lookup_insert_eq. eexists. split; [done|].
    rewrite Hq in Hc. by injection Hc as ->.
  - rewrite lookup_insert_ne by done. eauto.
Qed.

Ltac no_turn_moved :=
  eapply turn_known_frame; [eassumption|cbn; try done..];
  [ first [ apply heap_same_ids | by apply heap_renamed_ids ]
  | by rewrite ?last_turn_notice_other by reflexivity ].

Lemma dropped_holder p l :
  p ∈ aliveClients l ->
  valid_turn l ->
  len (aliveClients l) <= max_int ->
  Index (aliveClients l) p <> turnIndex l ->
  aliveClients (dropped p l) !! Z.to_nat (turnIndex (dropped p l)) =
  aliveClients l !! Z.to_nat (turnIndex l).
Proof.
  intros Hin [H0 Hlt] Hmax Hoff.
  destruct (proj1 (Index_spec _ _) Hin) as [Hr Hl].
  unfold dropped.
  destruct (Z.ltb_spec (Index (aliveClients l) p) (turnIndex l)); cbn.
  - rewrite wrap_small by int_lia.
    rewrite list_lookup_delete_ge by lia. f_equal. lia.
  - by rewrite list_lookup_delete_lt by lia.
Qed.

Lemma leave_turn_known w p s s' :
  lobby_inv s -> turn_known s -> onClientLeave w p s = Ok tt s' -> turn_known s'.
Proof.
  intros Hinv Hk Hleave.
  destruct (heap s !! p) as [c|] eqn:Hc.
  2:{ unfold onClientLeave in Hleave. apply bind_inv in Hleave as (? & ? & Hd & _).
      unfold deref in Hd. by rewrite Hc in Hd. }
  destruct (clients (lobby s) !! client_id c) as [q|] eqn:Hq.
  2:{ rewrite (leave_absent w s p c Hc Hq) in Hleave. by injection Hleave as <-. }
  assert (is_Some (clients (lobby s) !! client_id c)) as Hsome by done.
  destruct (decide (status (lobby s) = InProgress /\ p ∈ aliveClients (lobby s)))
    as [[Hst Hin]|Hidle].
  2:{ rewrite (leave_idle w s p c) in Hleave; [|done..|apply not_and_l in Hidle; tauto].
      injection Hleave as <-. unfold departed. no_turn_moved. }
  pose proof Hinv as (_ & Hfit & Hrun & _).
  pose proof (alive_fit_wf _ Hfit) as Hwf.
  destruct (Hrun Hst) as [Hv Hlen].
  destruct (decide (len (aliveClients (lobby s)) = 2)) as [H2|H2].
  { destruct (two_alive _ _ H2 Hin (alive_wf_NoDup _ Hwf)) as (q' & Hpq & Hne).
    assert (is_Some (heap s !! q')) as [cq Hcq].
    { apply alive_wf_lookup; [done|]. destruct Hpq as [E|E]; rewrite E, !elem_of_cons; tauto. }
    rewrite (leave_last_two w s p c q' cq) in Hleave by done.
    injection Hleave as <-. by intros [=]. }
  destruct (decide (Index (aliveClients (lobby s)) p = turnIndex (lobby s))) as [Hon|Hoff].
  - rewrite (leave_on_turn w s p c) in Hleave by done.
    eapply turn_changed_known. by eapply changeTurn_effect.
  - rewrite (leave_off_turn w s p c) in Hleave by done.
    injection Hleave as <-. intros _.
    destruct (Hk Hst) as (cur & cc & Hcur & Hcc & Hlast).
    exists cur, cc. cbn [lobby heap sent].
    split.
    { rewrite dropped_holder; cbn; try done. by destruct Hwf as (_ & _ & ?). }
    split; [done|].
    unfold departed. cbn [sent]. rewrite last_turn_notice_other by reflexivity.
    rewrite Hlast. unfold dropped. cbn.
    by destruct (Index (aliveClients (lobby s)) p <? turnIndex (lobby s)).
Qed.

Lemma handle_turn_known w e s s' :
  lobby_inv s -> turn_known s -> handle w e s = Ok tt s' -> turn_known s'.
Proof.
  intros Hinv Hk. destruct e as [p|p|m|]; cbn [handle].
  - revert s'. apply returns_unit. unfold onClientJoin. wp_handler. no_turn_moved.
  - by apply leave_turn_known.
  - revert s'. apply returns_unit. unfold onMessage.
    destruct (Type_ m) eqn:Hty; try (wp; done).
    + unfold onStartGame. wp_handler; [by eapply turn_changed_known|done].
    + unfold onRestartGame. wp_handler; [by eapply turn_changed_known|done].
    + unfold onAnswerPreview, from_turn_holder. wp_handler; try done.
      no_turn_moved.
    + unfold onAnswerSubmitted, from_turn_holder. wp_handler; try done.
      all: first [by eapply turn_changed_known | no_turn_moved].
    + unfold onNameChange. wp_handler; try done.
      no_turn_moved.
  - revert s'. apply returns_unit. wp. unfold onTurnExpired. wp_handler.
    all: try (by eapply turn_changed_known).
    + intros Hst. cbn in Hst.
      match goal with
      | H : negb _ = true |- _ => cbn in H; by rewrite Hst in H
      end.
    + by intros [=].
    + by intros [=].
Qed.

(** In every state the event loop reaches, while a game runs the most
    recent clients_turn message that was broadcast names the client the
    turn pointer denotes, together with the challenge and the deadline the
    lobby holds: what the clients were last told about the turn is the
    lobby's own view of it, also after joins, renames, rejected answers and
    leaves of clients that were not on turn. *)
Theorem last_turn_notice_is_current s :
  reachable s ->
  status (lobby s) = InProgress ->
  exists cur c,
    aliveClients (lobby s) !! Z.to_nat (turnIndex (lobby s)) = Some cur /\
    heap s !! cur = Some c /\
    last_turn_notice (sent s) =
      Some {| turn_ClientId := client_id c;
              turn_Challenge := currentChallenge (lobby s);
              turn_TurnEnd := currentTurnEnd (lobby s) |}.
Proof.
  induction 1 as [h icons|w e s s' Hr IH Hadm Hstep]; [done|].
  apply step_Running in Hstep.
  exact (handle_turn_known w e s s' (reachable_inv s Hr) IH Hstep).
Qed.

(** ** A visit *)

(** A client that joins and leaves again without having played leaves no
    trace in the lobby: for a client whose id is not registered and who is
    not in the alive list, the join followed by the leave both return, the
    lobby ends as it began, and exactly three messages have gone out: the
    snapshot to the visitor, client_joined to everyone including the
    visitor, and client_left to the others. *)
Theorem join_then_leave_restores_the_lobby w p c s :
  lobby_inv s ->
  heap s !! p = Some c ->
  clients (lobby s) !! client_id c = None ->
  p ∉ aliveClients (lobby s) ->
  exists d s1 s2,
    BuildClientDetails (client_id c) s = Ok d s /\
    onClientJoin p s = Ok tt s1 /\
    onClientLeave w p s1 = Ok tt s2 /\
    heap s2 = heap s /\
    lobby s2 = lobby s /\
    sent s2 = sent s ++
      [{| rcpt := [p]; payload := server_msg ClientDetails (CDetails d) |};
       {| rcpt := Values (<[client_id c := p]> (clients (lobby s)));
          payload := server_msg ClientJoined
                       (CJoined {| joined_ClientId := client_id c;
                                   joined_DisplayName := client_displayName c;
                                   joined_IconName := client_iconName c;
                                   joined_Alive :=
                                     negb (is_InProgress (status (lobby s))) |}) |};
       {| rcpt := Values (clients (lobby s));
          payload := server_msg ClientLeft (CInt (client_id c)) |}].
Proof.
  intros Hinv Hc Hfree Hout.
  destruct (BuildClientDetails_returns (client_id c) s Hinv) as [d Hd].
  exists d. eexists. eexists. split; [exact Hd|].
  split.
  { unfold onClientJoin. erewrite bind_ok by (by apply deref_ok).
    erewrite bind_ok by exact Hd. reflexivity. }
  split.
  { apply (leave_idle w _ p c); cbn; [done|by rewrite lookup_insert_eq|by right]. }
  cbn. rewrite delete_insert_id by done.
  split; [done|]. split; [by destruct s as [h [] o]|].
  by rewrite <- !app_assoc.
Qed.

(** * Properties of the lobby registry *)

Lemma registry_lookup (cs : list Main.Change) (lobbies : gmap Main.UUID ptr) Id :
  foldl Main.change lobbies cs !! Id =
  match last (filter (fun c => Main.about c = Id) cs) with
  | Some (Main.Create _ lobby) => Some lobby
  | Some (Main.End_ _) => None
  | None => lobbies !! Id
  end.
Proof.
  induction cs as [|c cs IH] using rev_ind; [done|].
  rewrite foldl_app, filter_app. cbn [foldl].
  rewrite filter_cons, filter_nil.
  destruct (decide (Main.about c = Id)) as [<-|Hne].
  - rewrite last_snoc. destruct c as [Id lobby|Id]; cbn.
    + apply lookup_insert_eq.
    + apply lookup_delete_eq.
  - rewrite app_nil_r, <- IH. destruct c as [Id' lobby|Id']; cbn in *.
    + by apply lookup_insert_ne.
    + by apply lookup_delete_ne.
Qed.

(** A lobby can be opened and joined exactly from its creation until its
    end is reported: after any sequence of creations and reported ends,
    starting from the empty registry, a request for an id whose last change
    was a creation is shown the lobby page and, if the upgrade and the join
    succeed, is handed to that lobby; for any other id the page request is
    answered with the home page and the error Lobby not found, and the join
    request with status 404, before any upgrade is attempted.  A parameter
    that is no UUID is answered with the home page, or with status 400. *)
Theorem lobby_is_served_while_registered env param (cs : list Main.Change) :
  (forall Id lobby,
     Main.Parse env param = inl Id ->
     Main.registered Id cs = Some lobby ->
     Main.openLobby env param (foldl Main.change ∅ cs) =
       Main.HTML 200 "lobby.gohtml" (Main.H_lobby Id (Main.isProd env)) /\
     (Main.Upgrade env = true -> Main.JoinClientToLobby env = true ->
      Main.joinLobby env param (foldl Main.change ∅ cs) = Main.Joined lobby)) /\
  (forall Id,
     Main.Parse env param = inl Id ->
     Main.registered Id cs = None ->
     Main.openLobby env param (foldl Main.change ∅ cs) =
       Main.HTML 200 "home.gohtml" (Main.H_error "Lobby not found") /\
     Main.joinLobby env param (foldl Main.change ∅ cs) =
       Main.JSON 404 (Main.H_message "Lobby not found")) /\
  (forall err,
     Main.Parse env param = inr err ->
     Main.openLobby env param (foldl Main.change ∅ cs) =
       Main.HTML 200 "home.gohtml" (Main.H_error "Invalid lobby Id") /\
     Main.joinLobby env param (foldl Main.change ∅ cs) =
       Main.JSON 400 (Main.H_message (String.append "failed to parse lobbyId: " err))).
Proof.
  unfold Main.openLobby, Main.joinLobby, Main.registered.
  split; [|split].
  - intros Id lobby -> Hreg. rewrite registry_lookup.
    destruct (last _) as [[Id' lobby'|Id']|]; try done.
    injection Hreg as ->. split; [done|]. by intros -> ->.
  - intros Id -> Hreg. rewrite registry_lookup.
    destruct (last _) as [[Id' lobby'|Id']|]; try done.
  - by intros err ->.
Qed.

(** ** The two revisions of the leave handler *)

Lemma changeTurn_moved w b s :
  returns (changeTurn w b) s (fun _ s' => moved b s s').
Proof.
  unfold changeTurn. destruct b; cbn [negb].
  all: wp_all.
  all: unfold moved; cbn in *.
  all: repeat match goal with |- _ /\ _ => split end; try reflexivity.
  all: try (eexists _, _; repeat split; try eassumption;
            match goal with H : (_ =? _) = _ |- _ => by rewrite H end).
Qed.

Lemma rev1_changeTurn_moved challenge b s :
  returns (Rev1.changeTurn challenge b) s (fun _ s' => moved b s s').
Proof.
  unfold Rev1.changeTurn. destruct b; cbn [negb].
  all: wp_all.
  all: unfold moved; cbn in *.
  all: repeat match goal with |- _ /\ _ => split end; try reflexivity.
  all: try (eexists _, _; repeat split; try eassumption;
            match goal with H : (_ =? _) = _ |- _ => by rewrite H end).
Qed.

Lemma moved_same_roster b s s1 s2 : moved b s s1 -> moved b s s2 -> same_roster s1 s2.
Proof.
  intros (Hh1 & Hc1 & Hs1 & H1) (Hh2 & Hc2 & Hs2 & H2).
  unfold same_roster. rewrite Hh1, Hh2, Hc1, Hc2, Hs1, Hs2.
  destruct b.
  - destruct H1 as (e1 & ce1 & He1 & Hce1 & Ha1 & Ht1).
    destruct H2 as (e2 & ce2 & He2 & Hce2 & Ha2 & Ht2).
    rewrite He1 in He2. injection He2 as <-.
    rewrite Hce1 in Hce2. injection Hce2 as <-.
    rewrite Ht1, Ht2, Ha1, Ha2. done.
  - destruct H1 as [-> ->], H2 as [-> ->]. done.
Qed.

Ltac wp_moved :=
  repeat first
    [ match goal with
      | |- returns (changeTurn _ _) _ _ =>
        eapply returns_weaken; [apply changeTurn_moved|intros [] ? ?]
      | |- returns (Rev1.changeTurn _ _) _ _ =>
        eapply returns_weaken; [apply rev1_changeTurn_moved|intros [] ? ?]
      | |- returns (if ?c then _ else _) _ _ => destruct c eqn:?
      | |- returns (match ?x with _ => _ end) _ _ => destruct x eqn:?
      end
    | wp_step ].

Ltac same_lookups :=
  repeat match goal with
    | H1 : ?x = Some _, H2 : ?x = Some _ |- _ => rewrite H1 in H2; injection H2 as <-
    end.

(** For a client that is registered, the leave handler of the earlier
    revision (src/unnamed/part_001) and the current one end with the same
    client objects, roster, alive list, turn pointer and status whenever
    both return: between the revisions the handling of a leave changed in
    the guard against a second leave and in the bookkeeping of rounds,
    deadlines and the winner's name, not in who is in the game or whose
    turn it is. *)
Theorem revisions_agree_on_the_roster w challenge p c s s1 s2 :
  heap s !! p = Some c ->
  is_Some (clients (lobby s) !! client_id c) ->
  onClientLeave w p s = Ok tt s1 ->
  Rev1.onClientLeave challenge p s = Ok tt s2 ->
  heap s2 = heap s1 /\
  clients (lobby s2) = clients (lobby s1) /\
  aliveClients (lobby s2) = aliveClients (lobby s1) /\
  turnIndex (lobby s2) = turnIndex (lobby s1) /\
  status (lobby s2) = status (lobby s1).
Proof.
  intros Hc [q Hq] H1 H2. revert s1 H1. apply returns_unit.
  unfold onClientLeave. wp_moved.
  all: revert s2 H2; apply returns_unit; unfold Rev1.onClientLeave; wp_moved.
  all: cbn in *; same_lookups.
  all: try congruence.
  all: try done.
  eapply moved_same_roster; eassumption.
Qed.

(** ** A game nobody answers in *)

Lemma last_in_line_ext l l' :
  aliveClients l' = aliveClients l -> turnIndex l' = turnIndex l ->
  last_in_line l' = last_in_line l.
Proof. unfold last_in_line. by intros -> ->. Qed.

Lemma mod_once r m : 0 <= r < m -> (m + r) mod m = r.
Proof.
  intros Hr. replace (m + r) with (r + 1 * m) by lia.
  rewrite Z.mod_add by lia. apply Z.mod_small. lia.
Qed.

(** An elimination does not change who is last in line. *)
Lemma last_in_line_eliminated l :
  valid_turn l -> 3 <= len (aliveClients l) ->
  last_in_line (eliminated l) = last_in_line l.
Proof.
  intros [H0 Hlt] Hlen.
  destruct (lookup_lt_len (aliveClients l) (turnIndex l)) as [e He]; [done|].
  pose proof (len_delete (aliveClients l) (Z.to_nat (turnIndex l)) (mk_is_Some _ _ He)) as Hd.
  unfold last_in_line, eliminated.
  cbn [aliveClients turnIndex with_turnIndex with_aliveClients].
  rewrite Hd.
  set (n := len (aliveClients l)) in *. set (t := turnIndex l) in *.
  destruct (Z.eqb_spec t (n - 1)) as [E|E].
  - replace (0 + (n - 1) - 1) with (n - 2) by lia.
    rewrite (Z.mod_small (n - 2)) by lia.
    replace (t + n - 1) with (n + (n - 2)) by lia.
    rewrite mod_once by lia.
    apply list_lookup_delete_lt. lia.
  - destruct (Z.eq_dec t 0) as [E0|E0].
    + rewrite E0. replace (0 + (n - 1) - 1) with (n - 2) by lia.
      rewrite (Z.mod_small (n - 2)) by lia.
      replace (0 + n - 1) with (n - 1) by lia.
      rewrite (Z.mod_small (n - 1)) by lia.
      rewrite list_lookup_delete_ge by lia. f_equal. lia.
    + replace (t + (n - 1) - 1) with ((n - 1) + (t - 1)) by lia.
      rewrite mod_once by lia.
      replace (t + n - 1) with (n + (t - 1)) by lia.
      rewrite mod_once by lia.
      apply list_lookup_delete_lt. lia.
Qed.

Lemma expire_turns_ok ws s :
  lobby_inv s ->
  status (lobby s) = InProgress ->
  Z.of_nat (length ws) = len (aliveClients (lobby s)) - 1 ->
  exists s' winner cw,
    expire_turns ws s = Ok tt s' /\
    last_in_line (lobby s) = Some winner /\
    heap s !! winner = Some cw /\
    heap s' = heap s /\
    status (lobby s') = Over /\
    aliveClients (lobby s') = [winner] /\
    winnersName (lobby s') = client_displayName cw.
Proof.
  revert s. induction ws as [|w ws IH]; intros s Hinv Hst Hk.
  { destruct Hinv as (_ & _ & Hrun & _). destruct (Hrun Hst) as [_ Hlen].
    cbn in Hk. lia. }
  cbn [expire_turns].
  set (s0 := {| heap := heap s; lobby := disarm (lobby s); sent := sent s |}).
  assert (handle w TimerFired s = onTurnExpired w s0) as Hhandle by reflexivity.
  assert (aliveClients (lobby s0) = aliveClients (lobby s)) as Ha0 by reflexivity.
  assert (turnIndex (lobby s0) = turnIndex (lobby s)) as Ht0 by reflexivity.
  assert (lobby_inv s0) as Hinv0 by (revert Hinv; by apply lobby_inv_core).
  pose proof Hinv0 as (Hc & Hfit & Hrun & _).
  pose proof (alive_fit_wf _ Hfit) as Hwf.
  destruct (Hrun Hst) as [Hv Hlen]. rewrite Ha0 in Hlen.
  destruct (lookup_lt_len _ _ Hv) as [cur Hcur].
  assert (cur ∈ aliveClients (lobby s0)) as Hin by (by eapply list_elem_of_lookup_2).
  destruct (alive_wf_lookup s0 cur Hwf Hin) as [c Hcc].
  destruct (decide (len (aliveClients (lobby s)) = 2)) as [H2|H2].
  - destruct ws; [|cbn in Hk; lia].
    destruct (two_alive _ _ H2 Hin (alive_wf_NoDup _ Hwf)) as (q & Hpq & Hne).
    assert (q ∈ aliveClients (lobby s0)) as Hq
      by (destruct Hpq as [E|E]; rewrite Ha0, E, !elem_of_cons; tauto).
    destruct (alive_wf_lookup s0 q Hwf Hq) as [cq Hcq].
    assert ((aliveClients (lobby s0) = [cur; q] /\ turnIndex (lobby s0) = 0) \/
            (aliveClients (lobby s0) = [q; cur] /\ turnIndex (lobby s0) = 1)) as Hcase.
    { destruct Hv as [H0 Hlt]. rewrite Ha0, H2 in Hlt.
      rewrite Ha0 in Hcur |- *.
      destruct Hpq as [E|E]; rewrite E in Hcur; [left|right]; (split; [done|]).
      + destruct (Z.to_nat (turnIndex (lobby s0))) as [|[|?]] eqn:En; cbn in Hcur;
          [lia|congruence|lia].
      + destruct (Z.to_nat (turnIndex (lobby s0))) as [|[|?]] eqn:En; cbn in Hcur;
          [congruence|lia|lia]. }
    erewrite bind_ok
      by (rewrite Hhandle; by apply (expire_last_two w s0 cur q c cq)).
    exists {| heap := heap s0;
              lobby := won_by cq (with_aliveClients [q] (lobby s0));
              sent := sent s0 ++
                [to_all (lobby s0) (server_msg TurnExpired (CInt (client_id c)));
                 to_all (lobby s0) (server_msg TurnExpired (CInt (client_id c)));
                 to_all (lobby s0) (server_msg GameOver (CInt (client_id cq)))] |}, q, cq.
    split; [done|]. split; [|done].
    unfold last_in_line. rewrite <- Ha0, <- Ht0.
    destruct Hcase as [[-> ->]|[-> ->]]; reflexivity.
  - assert (3 <= len (aliveClients (lobby s))) as H3 by lia.
    rewrite (expire_many w s0 cur c) in Hhandle by (first [done | apply Hv | cbn; lia]).
    set (s0' := told (server_msg TurnExpired (CInt (client_id c))) s0).
    assert (lobby_inv s0') as Hinv0' by (by apply inv_told).
    destruct (changeTurn_eliminate_ok w s0') as (p' & c' & _ & _ & Hgo); [done..|].
    erewrite bind_ok by (rewrite Hhandle; exact Hgo).
    destruct (announced_frame w s0' (eliminated (lobby s0')) c')
      as (Ha & Ht & _ & Hs & _ & _ & Hh).
    destruct (eliminated_spec (lobby s0') Hv ltac:(done)) as (_ & Hl & _).
    set (s1 := announced w s0' (eliminated (lobby s0')) c') in *.
    assert (lobby_inv s1) as Hinv1.
    { apply lobby_inv_announced. by apply (inv_eliminated s0'). }
    destruct (IH s1) as (s' & winner & cw & Hrun' & Hlast & Hw & Hh' & Hover & Halive & Hname);
      [done|by rewrite Hs| |].
    { rewrite Ha, Hl. change (aliveClients (lobby s0')) with (aliveClients (lobby s)).
      cbn [length] in Hk. lia. }
    exists s', winner, cw. split; [done|].
    split.
    { rewrite <- Hlast. symmetry.
      etrans; [apply (last_in_line_ext (eliminated (lobby s0')) (lobby s1)); done|].
      by apply (last_in_line_eliminated (lobby s0')). }
    split; [rewrite Hh in Hw; exact Hw|]. split; [by rewrite Hh', Hh|]. done.
Qed.

(** If nobody answers, the game ends by itself: with [n] clients alive,
    [n - 1] timer expiries in a row, handled one after another by the
    loop, all return and leave the game Over, with the client seated just
    before the first turn holder (cyclically) as the only alive client and
    as the winner. *)
Theorem unanswered_game_ends ws s :
  lobby_inv s ->
  status (lobby s) = InProgress ->
  Z.of_nat (length ws) = len (aliveClients (lobby s)) - 1 ->
  exists s' winner cw,
    expire_turns ws s = Ok tt s' /\
    aliveClients (lobby s) !!
      Z.to_nat ((turnIndex (lobby s) + len (aliveClients (lobby s)) - 1)
                mod len (aliveClients (lobby s))) = Some winner /\
    heap s !! winner = Some cw /\
    status (lobby s') = Over /\
    aliveClients (lobby s') = [winner] /\
    winnersName (lobby s') = client_displayName cw.
Proof.
  intros Hinv Hst Hk.
  destruct (expire_turns_ok ws s Hinv Hst Hk)
    as (s' & winner & cw & Hrun & Hlast & Hw & _ & Hover & Halive & Hname).
  by exists s', winner, cw.
Qed.

(** ** Client objects *)

(** The lobby writes to a client object in one place only: whatever the
    event, a client object is afterwards what it was before, unless the
    event is a name_change message sent under that client's own id with a
    name of at most [MaxDisplayName] bytes, which replaces the display name
    and nothing else.  Ids and icons never change, and no client renames
    another. *)
Theorem client_objects_change_only_by_rename w e s s' :
  handle w e s = Ok tt s' ->
  forall p c,
    heap s !! p = Some c ->
    heap s' !! p = Some c \/
    exists m name,
      e = Read m /\ Type_ m = NameChange /\ Content_ m = CString name /\
      Z.of_nat (String.length name) <= MaxDisplayName /\
      clients (lobby s) !! From m = Some p /\
      heap s' !! p = Some (set_displayName name c).
Proof.
  intros Hrun p c Hc. revert s' Hrun. apply returns_unit.
  destruct e as [q|q|m|]; cbn [handle].
  - unfold onClientJoin. wp_handler. by left.
  - unfold onClientLeave. wp_handler.
    all: try match goal with
             | H : turn_changed _ _ _ _ |- _ => destruct H as (-> & _)
             end.
    all: by left.
  - unfold onMessage.
    destruct (Type_ m) eqn:Hty; try (wp; by left).
    + unfold onStartGame. wp_handler.
      all: try match goal with
               | H : turn_changed _ _ _ _ |- _ => destruct H as (-> & _)
               end.
      all: by left.
    + unfold onRestartGame. wp_handler.
      all: try match goal with
               | H : turn_changed _ _ _ _ |- _ => destruct H as (-> & _)
               end.
      all: by left.
    + unfold onAnswerPreview, from_turn_holder. wp_handler; by left.
    + unfold onAnswerSubmitted, from_turn_holder. wp_handler.
      all: try match goal with
               | H : turn_changed _ _ _ _ |- _ => destruct H as (-> & _)
               end.
      all: by left.
    + unfold onNameChange. wp_handler; try (by left).
      guards. cbn.
      match goal with
      | Hq : clients (lobby s) !! From m = Some ?q |- _ =>
        destruct (decide (q = p)) as [->|Hne]
      end.
      * right. exists m. eexists. repeat split; try done.
        rewrite lookup_insert_eq.
        match goal with
        | H1 : heap s !! p = Some ?c1 |- Some (set_displayName _ ?c2) = _ =>
          assert (c2 = c) as -> by congruence
        end.
        done.
      * left. by rewrite lookup_insert_ne.
  - wp. unfold onTurnExpired. wp_handler.
    all: try match goal with
             | H : turn_changed _ _ _ _ |- _ => destruct H as (-> & _)
             end.
    all: by left.
Qed.

(** ** The theorems at work on the small lobby *)

Lemma C1_last_position_wraps :
  exists s',
    changeTurn demo_world true (demo InProgress [1; 2; 3]%positive 2) = Ok tt s' /\
    aliveClients (lobby s') = [1; 2]%positive /\
    turnIndex (lobby s') = 0.
Proof.
  destruct (C1_eliminate_turn_change demo_world (demo InProgress [1; 2; 3]%positive 2))
    as (s' & Hrun & _ & Ha & _ & _ & Hlast & _);
    [reflexivity|compute_done..|].
  exists s'. split; [exact Hrun|]. split; [exact Ha|]. apply Hlast. reflexivity.
Defined.

(** C3 fails where the handler returns without touching the alive list.
    After a game that client 3 has won, client 3 leaves: the handler
    returns at its guard on the status, and client 3 is still in
    [aliveClients].  With clients 1 and 2 alive in a running game, client
    1 leaves: the game is over, and client 1 is still in [aliveClients]. *)
Lemma C3_leaver_stays_listed :
  (exists s',
     clients (lobby (demo Over [3]%positive 0)) !! 3 = Some 3%positive /\
     3%positive ∈ aliveClients (lobby (demo Over [3]%positive 0)) /\
     onClientLeave demo_world 3%positive (demo Over [3]%positive 0) = Ok tt s' /\
     clients (lobby s') !! 3 = None /\
     3%positive ∈ aliveClients (lobby s')) /\
  (exists s',
     clients (lobby (demo InProgress [1; 2]%positive 1)) !! 1 = Some 1%positive /\
     1%positive ∈ aliveClients (lobby (demo InProgress [1; 2]%positive 1)) /\
     onClientLeave demo_world 1%positive (demo InProgress [1; 2]%positive 1) = Ok tt s' /\
     status (lobby s') = Over /\
     clients (lobby s') !! 1 = None /\
     1%positive ∈ aliveClients (lobby s')).
Proof.
  split.
  - eexists. split; [reflexivity|]. split; [compute_done|].
    split; [reflexivity|]. split; compute_done.
  - eexists. split; [reflexivity|]. split; [compute_done|].
    split; [reflexivity|]. repeat split; compute_done.
Qed.

Lemma C3_third_player_leaves :
  exists s',
    onClientLeave demo_world 3%positive (demo InProgress [1; 2; 3]%positive 0) = Ok tt s' /\
    clients (lobby s') !! 3 = None /\
    aliveClients (lobby s') = [1; 2]%positive.
Proof.
  destruct (C3_leave_removes_client demo_world (demo InProgress [1; 2; 3]%positive 0)
              3%positive (demo_client 3 "cyd"))
    as (s' & Hrun & _ & Hgone & Halive & _);
    [reflexivity|reflexivity|compute_done..|].
  exists s'. split; [exact Hrun|]. split; [exact Hgone|].
  destruct Halive as (_ & Ha & _); [reflexivity|compute_done..|]. exact Ha.
Defined.

Lemma C4_bob_wins :
  (exists s',
     onTurnExpired demo_world (demo InProgress [1; 2]%positive 0) = Ok tt s' /\
     status (lobby s') = Over /\ winnersName (lobby s') = "bob"%string) /\
  (exists s',
     onClientLeave demo_world 1%positive (demo InProgress [1; 2]%positive 0) = Ok tt s' /\
     status (lobby s') = Over /\ winnersName (lobby s') = "bob"%string).
Proof.
  destruct (C4_last_two_alive demo_world (demo InProgress [1; 2]%positive 0)
              1%positive 2%positive (demo_client 1 "ann") (demo_client 2 "bob"))
    as [Ht Hl]; [reflexivity|by left|done|reflexivity|reflexivity|].
  split.
  - destruct Ht as (s' & H1 & H2 & H3 & _); [reflexivity|compute_done|].
    exists s'. auto.
  - destruct Hl as (s' & H1 & H2 & H3 & _); [reflexivity|].
    exists s'. auto.
Defined.

Lemma C5_patron_is_accepted :
  exists s',
    onAnswerSubmitted demo_world (demo_answer "patron")
                      (demo InProgress [1; 2; 3]%positive 0) = Ok tt s' /\
    aliveClients (lobby s') = [1; 2; 3]%positive /\
    turnIndex (lobby s') = 1.
Proof.
  destruct (C5_answer_validation_order demo_world (demo InProgress [1; 2; 3]%positive 0)
              (demo_answer "patron") 1%positive (demo_client 1 "ann") "patron")
    as (_ & _ & _ & Hacc);
    [reflexivity|compute_done|compute_done|reflexivity..|].
  destruct Hacc as (s' & turn & Hrun & _ & _ & Ha & Ht);
    [reflexivity|discriminate|reflexivity|].
  exists s'. split; [exact Hrun|]. split; [exact Ha|exact Ht].
Defined.

Lemma C6_second_leave_is_silent :
  exists s1 s2,
    onClientLeave demo_world 3%positive (demo InProgress [1; 2; 3]%positive 0) = Ok tt s1 /\
    onClientLeave demo_world 3%positive s1 = Ok tt s2 /\
    s2 = s1 /\
    sent s2 = sent s1.
Proof.
  destruct (C6_leave_is_idempotent demo_world (demo InProgress [1; 2; 3]%positive 0)
              3%positive (demo_client 3 "cyd"))
    as [_ Htwice]; [reflexivity|].
  destruct Htwice as (s1 & s2 & H1 & _ & H2 & Heq & Hsent); [reflexivity|compute_done..|].
  exists s1, s2. by repeat split.
Defined.

Lemma second_leave_changes_nothing :
  exists s1,
    onClientLeave demo_world 1%positive (demo WaitingForPlayers [] (-1)) = Ok tt s1 /\
    onClientLeave demo_world 1%positive s1 = Ok tt s1.
Proof.
  destruct (onClientLeave_idempotent demo_world (demo WaitingForPlayers [] (-1))
              1%positive (demo_client 1 "ann"))
    as [_ Htwice]; [reflexivity|].
  destruct Htwice as (s1 & H1 & H2); [reflexivity|compute_done..|].
  exists s1. split; [exact H1|apply H2].
Defined.

Lemma C7_lowest_id_starts :
  exists s',
    onStartGame demo_world (demo_request StartGame) (demo WaitingForPlayers [] (-1))
      = Ok tt s' /\
    status (lobby s') = InProgress /\
    aliveClients (lobby s') = [1; 2; 3]%positive /\
    turnIndex (lobby s') = 0.
Proof.
  destruct (C7_start_game demo_world (demo_request StartGame)
              (demo WaitingForPlayers [] (-1))) as [_ Hstart].
  destruct Hstart as (s' & first & c & turn & Hrun & Hst & Ha & _ & _ & Ht & _);
    [reflexivity|compute_done..|reflexivity|].
  exists s'. split; [exact Hrun|]. split; [exact Hst|]. split; [exact Ha|exact Ht].
Defined.

Lemma C8_restart_rebuilds_the_roster :
  exists s',
    onRestartGame demo_world (demo_request RestartGame) (demo Over [3]%positive 0)
      = Ok tt s' /\
    aliveClients (lobby s') = [1; 2; 3]%positive /\
    turnIndex (lobby s') = 0 /\
    turnRounds (lobby s') = 1.
Proof.
  destruct (C8_restart_game demo_world (demo_request RestartGame)
              (demo Over [3]%positive 0)) as [_ Hrestart].
  destruct Hrestart
    as (s1 & s' & turn & Heq & _ & _ & _ & _ & _ & Hrun & _ & Ha & _ & _ & Ht & Hr & _);
    [reflexivity|compute_done..|].
  exists s'. split; [by rewrite Heq|]. split; [exact Ha|]. split; [exact Ht|exact Hr].
Defined.

Lemma C9_preview_after_advance :
  exists s',
    changeTurn demo_world false (demo InProgress [1; 2; 3]%positive 0) = Ok tt s' /\
    currentAnswerPrev (lobby s') = "pat"%string.
Proof.
  destruct (C9_turn_change_keeps_preview demo_world false
              (demo InProgress [1; 2; 3]%positive 0)) as [Hreturns Hkeeps].
  destruct Hreturns as [s' Hrun]; [compute_done..|].
  exists s'. split; [exact Hrun|]. apply (Hkeeps s' Hrun).
Defined.

Lemma C10_two_alive_expiry :
  exists s',
    onTurnExpired demo_world (demo InProgress [1; 2]%positive 0) = Ok tt s' /\
    payload <$> sent s' =
      [server_msg TurnExpired (CInt 1); server_msg TurnExpired (CInt 1);
       server_msg GameOver (CInt 2)].
Proof.
  destruct (C10_turn_expired_broadcasts demo_world (demo InProgress [1; 2]%positive 0)
              1%positive (demo_client 1 "ann")) as [Htwo _];
    [reflexivity|compute_done|compute_done|reflexivity|reflexivity|].
  destruct Htwo as (s' & winner & cw & Hrun & Hin & Hne & Hcw & Hsent); [reflexivity|].
  exists s'. split; [exact Hrun|]. rewrite Hsent.
  assert (winner = 2%positive) as ->.
  { apply elem_of_cons in Hin as [->|Hin]; [done|].
    by apply list_elem_of_singleton in Hin. }
  injection Hcw as <-. reflexivity.
Defined.

Lemma opening_state_is_wf :
  status (lobby (demo_after demo_opening)) = InProgress /\
  alive_wf (demo_after demo_opening) /\
  valid_turn (lobby (demo_after demo_opening)).
Proof.
  destruct (reachable_lobby_wf _ demo_opening_reachable) as (_ & Hwf & Hrun & _).
  assert (status (lobby (demo_after demo_opening)) = InProgress) as Hst by compute_done.
  split; [exact Hst|]. split; [exact Hwf|]. apply (Hrun Hst).
Defined.

Lemma bob_leaves_while_ann_is_on_turn :
  (exists s',
     onClientLeave demo_world 2%positive (demo InProgress [1; 2; 3]%positive 0) = Ok tt s' /\
     aliveClients (lobby s') = [1; 3]%positive /\
     turnIndex (lobby s') = 0 /\
     aliveClients (lobby s') !! Z.to_nat (turnIndex (lobby s')) = Some 1%positive) /\
  (exists s',
     onClientLeave demo_world 1%positive (demo InProgress [1; 2; 3]%positive 2) = Ok tt s' /\
     aliveClients (lobby s') = [2; 3]%positive /\
     turnIndex (lobby s') = 1 /\
     aliveClients (lobby s') !! Z.to_nat (turnIndex (lobby s')) = Some 3%positive).
Proof.
  split.
  - destruct (leave_off_turn_keeps_holder demo_world (demo InProgress [1; 2; 3]%positive 0)
                2%positive (demo_client 2 "bob"))
      as (s' & Hrun & _ & Hsame & Hti & Halive & _);
      [reflexivity|by eexists|reflexivity|compute_done..|discriminate|].
    exists s'. split; [exact Hrun|]. split; [by rewrite Halive|].
    split; [by rewrite Hti|]. etrans; [exact Hsame|reflexivity].
  - destruct (leave_off_turn_keeps_holder demo_world (demo InProgress [1; 2; 3]%positive 2)
                1%positive (demo_client 1 "ann"))
      as (s' & Hrun & _ & Hsame & Hti & Halive & _);
      [reflexivity|by eexists|reflexivity|compute_done..|discriminate|].
    exists s'. split; [exact Hrun|]. split; [by rewrite Halive|].
    split; [by rewrite Hti|]. etrans; [exact Hsame|reflexivity].
Defined.

Lemma cyd_joins_a_running_game :
  exists s',
    onClientJoin 3%positive
      {| heap := demo_heap;
         lobby := with_clients (delete 3 demo_clients) (demo_lobby InProgress [1; 2]%positive 0);
         sent := [] |} = Ok tt s' /\
    aliveClients (lobby s') = [1; 2]%positive /\
    clients (lobby s') !! 3 = Some 3%positive.
Proof.
  eexists. split; [reflexivity|]. split; compute_done.
Qed.

Lemma elimination_of_the_last_seat_starts_a_round :
  exists s',
    changeTurn demo_world true (demo InProgress [1; 2; 3]%positive 2) = Ok tt s' /\
    turnIndex (lobby s') = 0 /\
    turnRounds (lobby s') = 2 /\
    turnExpired (lobby s') = Some (20 * Second).
Proof.
  eexists. split; [vm_compute; reflexivity|].
  match goal with
  | |- turnIndex (lobby ?s') = _ /\ _ =>
    destruct (changeTurn_post demo_world true
                (demo InProgress [1; 2; 3]%positive 2) s')
      as (_ & _ & _ & _ & _ & _ & Hrounds & Htimer & _); [vm_compute; reflexivity|]
  end.
  split; [reflexivity|]. split; [by rewrite Hrounds|by rewrite Htimer].
Defined.

Lemma expiry_with_two_alive_ends_the_game :
  exists s',
    handle demo_world TimerFired (demo InProgress [1; 2]%positive 0) = Ok tt s' /\
    status (lobby s') = Over /\
    winnersName (lobby s') = "bob"%string.
Proof.
  eexists. split; [vm_compute; reflexivity|].
  match goal with
  | |- status (lobby ?s') = _ /\ _ =>
    destruct (status_lifecycle demo_world TimerFired
                (demo InProgress [1; 2]%positive 0) s')
      as [[Hst _]|[(Hst & _)|[(Hst & _)|(_ & Hover & _)]]];
      [vm_compute; reflexivity|try discriminate Hst..]
  end.
  split; [exact Hover|reflexivity].
Defined.

Lemma a_join_leaves_the_alive_list_alone :
  exists s',
    handle demo_world (Join 3%positive) (demo InProgress [1; 2]%positive 0) = Ok tt s' /\
    aliveClients (lobby s') = [1; 2]%positive.
Proof.
  eexists. split; [vm_compute; reflexivity|].
  match goal with
  | |- aliveClients (lobby ?s') = _ =>
    destruct (alive_only_shrinks demo_world (Join 3%positive)
                (demo InProgress [1; 2]%positive 0) s') as [_ Hsame];
      [vm_compute; reflexivity|reflexivity|]
  end.
  rewrite Hsame; [reflexivity|]. left. by eexists.
Defined.

Lemma a_rename_out_of_turn_leaves_the_lobby_alone :
  exists s',
    onMessage demo_world {| From := 2; Type_ := NameChange; Content_ := CString "rob" |}
              (demo InProgress [1; 2; 3]%positive 0) = Ok tt s' /\
    lobby s' = demo_lobby InProgress [1; 2; 3]%positive 0.
Proof.
  eexists. split; [vm_compute; reflexivity|].
  match goal with
  | |- lobby ?s' = _ =>
    destruct (only_the_turn_holder_plays demo_world
                {| From := 2; Type_ := NameChange; Content_ := CString "rob" |}
                (demo InProgress [1; 2; 3]%positive 0) s') as [Hrunning _];
      [vm_compute; reflexivity|]
  end.
  apply (Hrunning eq_refl 1%positive (demo_client 1 "ann")); [reflexivity..|discriminate].
Defined.

Lemma the_opening_state_handles_a_timer_expiry :
  exists s',
    handle demo_world TimerFired (demo_after demo_opening) = Ok tt s' /\
    (step demo_world TimerFired (demo_after demo_opening) = Running s' \/
     step demo_world TimerFired (demo_after demo_opening) = Ended s').
Proof.
  apply (handlers_never_panic demo_world TimerFired _ demo_opening_reachable). exact I.
Defined.

Lemma a_rename_from_an_unknown_id_ends_the_lobby :
  onNameChange {| From := 7; Type_ := NameChange; Content_ := CString "zed" |}
               (demo WaitingForPlayers [] (-1)) =
    Panic (demo WaitingForPlayers [] (-1)) /\
  step demo_world (Read {| From := 7; Type_ := NameChange; Content_ := CString "zed" |})
       (demo WaitingForPlayers [] (-1)) =
    Crashed (demo WaitingForPlayers [] (-1)).
Proof.
  apply (stale_rename_crashes demo_world
           {| From := 7; Type_ := NameChange; Content_ := CString "zed" |}
           (demo WaitingForPlayers [] (-1)) "zed");
    [reflexivity|reflexivity|vm_compute; discriminate|reflexivity].
Defined.

Lemma the_opening_turn_is_timed :
  turnExpired (lobby (demo_after demo_opening)) =
  Some (getTurnLimitDuration (lobby (demo_after demo_opening))).
Proof.
  apply (running_game_has_timer _ demo_opening_reachable). vm_compute; reflexivity.
Defined.

Lemma the_snapshot_of_a_running_game :
  exists d,
    BuildClientDetails 3 (demo InProgress [1; 2]%positive 1) =
      Ok d (demo InProgress [1; 2]%positive 1) /\
    cc_Id <$> details_Clients d = [1; 2; 3] /\
    cc_Alive <$> details_Clients d = [true; true; false] /\
    details_CurrentTurnId d = 2.
Proof.
  eexists. split; [vm_compute; reflexivity|].
  match goal with
  | |- cc_Id <$> details_Clients ?d = _ /\ _ =>
    destruct (snapshot_lists_every_client 3 (demo InProgress [1; 2]%positive 1) d
                (demo InProgress [1; 2]%positive 1))
      as (_ & _ & _ & _ & _ & _ & _ & Hturn); [compute_done|vm_compute; reflexivity|]
  end.
  split; [reflexivity|]. split; [reflexivity|].
  destruct (Hturn eq_refl) as (cur & c & Hcur & Hc & ->).
  injection Hcur as <-. by injection Hc as <-.
Defined.

Lemma three_answers_from_three_clients :
  exists s',
    advance_turns [demo_world; demo_world; demo_world]
                  (demo InProgress [1; 2; 3]%positive 1) = Ok tt s' /\
    turnIndex (lobby s') = 1 /\
    turnRounds (lobby s') = 2.
Proof.
  destruct (turns_rotate [demo_world; demo_world; demo_world]
              (demo InProgress [1; 2; 3]%positive 1))
    as (s' & Hrun & _ & _ & _ & Hcycle);
    [compute_done|compute_done|vm_compute; discriminate|vm_compute; discriminate|].
  exists s'. split; [exact Hrun|]. apply Hcycle. reflexivity.
Defined.

Lemma the_leaver_is_told_nothing :
  exists new,
    sent (demo_after (demo_opening ++ [Leave 1%positive])) =
      sent (demo_after demo_opening) ++ new /\
    Forall (fun x => (1%positive ∉ rcpt x) /\
                     rcpt x = Values (clients (lobby (demo_after
                                (demo_opening ++ [Leave 1%positive]))))) new.
Proof.
  apply (leaver_is_not_written_to demo_world 1%positive (demo_after demo_opening));
    [compute_done|vm_compute; reflexivity].
Defined.

Lemma the_opening_notice_names_ann :
  exists cur c,
    aliveClients (lobby (demo_after demo_opening))
      !! Z.to_nat (turnIndex (lobby (demo_after demo_opening))) = Some cur /\
    heap (demo_after demo_opening) !! cur = Some c /\
    last_turn_notice (sent (demo_after demo_opening)) =
      Some {| turn_ClientId := client_id c;
              turn_Challenge := currentChallenge (lobby (demo_after demo_opening));
              turn_TurnEnd := currentTurnEnd (lobby (demo_after demo_opening)) |}.
Proof.
  apply (last_turn_notice_is_current _ demo_opening_reachable). vm_compute; reflexivity.
Defined.

Lemma a_visit_to_the_new_lobby :
  exists d s1 s2,
    BuildClientDetails 3 demo_new = Ok d demo_new /\
    onClientJoin 3%positive demo_new = Ok tt s1 /\
    onClientLeave demo_world 3%positive s1 = Ok tt s2 /\
    lobby s2 = lobby demo_new /\
    length (sent s2) = 3%nat.
Proof.
  destruct (join_then_leave_restores_the_lobby demo_world 3%positive
              (demo_client 3 "cyd") demo_new)
    as (d & s1 & s2 & Hd & Hjoin & Hleave & _ & Hlobby & Hsent);
    [apply lobby_inv_new|reflexivity|reflexivity|apply not_elem_of_nil|].
  exists d, s1, s2. rewrite Hsent. repeat split; done.
Defined.

Lemma both_revisions_drop_bob :
  exists s1 s2,
    onClientLeave demo_world 2%positive (demo InProgress [1; 2; 3]%positive 0) = Ok tt s1 /\
    Rev1.onClientLeave "atr" 2%positive (demo InProgress [1; 2; 3]%positive 0) = Ok tt s2 /\
    aliveClients (lobby s2) = aliveClients (lobby s1) /\
    turnIndex (lobby s2) = turnIndex (lobby s1).
Proof.
  eexists. eexists. split; [vm_compute; reflexivity|]. split; [vm_compute; reflexivity|].
  match goal with
  | |- aliveClients (lobby ?s2) = aliveClients (lobby ?s1) /\ _ =>
    destruct (revisions_agree_on_the_roster demo_world "atr" 2%positive
                (demo_client 2 "bob") (demo InProgress [1; 2; 3]%positive 0) s1 s2)
      as (_ & _ & Halive & Hturn & _);
      [reflexivity|by eexists|vm_compute; reflexivity|vm_compute; reflexivity|]
  end.
  split; [exact Halive|exact Hturn].
Defined.

Lemma cyd_outlasts_the_others :
  exists s',
    expire_turns [demo_world; demo_world] (demo_after demo_opening) = Ok tt s' /\
    status (lobby s') = Over /\
    winnersName (lobby s') = "cyd"%string.
Proof.
  destruct (unanswered_game_ends [demo_world; demo_world] (demo_after demo_opening))
    as (s' & winner & cw & Hrun & Hlast & Hw & Hover & _ & Hname);
    [apply reachable_inv, demo_opening_reachable
    |vm_compute; reflexivity|vm_compute; reflexivity|].
  exists s'. split; [exact Hrun|]. split; [exact Hover|].
  rewrite Hname. vm_compute in Hlast. injection Hlast as <-.
  vm_compute in Hw. by injection Hw as <-.
Defined.

Lemma a_rename_leaves_the_other_clients_alone :
  exists s',
    handle demo_world
           (Read {| From := 2; Type_ := NameChange; Content_ := CString "rob" |})
           (demo InProgress [1; 2; 3]%positive 0) = Ok tt s' /\
    heap s' !! 1%positive = Some (demo_client 1 "ann").
Proof.
  eexists. split; [vm_compute; reflexivity|].
  match goal with
  | |- heap ?s' !! _ = _ =>
    destruct (client_objects_change_only_by_rename demo_world
                (Read {| From := 2; Type_ := NameChange; Content_ := CString "rob" |})
                (demo InProgress [1; 2; 3]%positive 0) s')
      with (p := 1%positive) (c := demo_client 1 "ann")
      as [Hsame|(m & name & Hm & _ & _ & _ & Hfrom & _)];
      [vm_compute; reflexivity|reflexivity|exact Hsame|]
  end.
  injection Hm as <-. vm_compute in Hfrom. discriminate Hfrom.
Defined.
